(** * Refresh-token lifecycle of the FastAPI boilerplate

    A shallow embedding of the refresh-token ledger
    ([src/modules/auth/repositories/refresh_token_repo.py], with the columns
    of [src/modules/auth/models/refresh_token.py]), the token cache
    helpers of [src/core/services/redis_service.py], the hashing primitive of
    [src/core/security.py] and the rotation logic of
    [src/modules/auth/service.py], followed by the properties of the
    specification that are settled against them. *)

From Stdlib Require Import ZArith NArith List String Ascii Bool Lia Permutation.
From stdpp Require Import base option list gmap strings.
Import ListNotations.

Local Open Scope Z_scope.

(** ** Credential primitives: SHA-256 *)

(** [hashlib.sha256(data).hexdigest()], written out after FIPS 180-4 on
    32-bit words held in [N]. *)
Module Sha256.
Local Open Scope N_scope.

Definition mask32 : N := 0xffffffff.
Definition w32 (x : N) : N := N.land x mask32.
Definition add32 (a b : N) : N := w32 (a + b).
Definition rotr (n x : N) : N := N.lor (N.shiftr x n) (w32 (N.shiftl x (32 - n))).
Definition shr (n x : N) : N := N.shiftr x n.
Definition xor3 (a b c : N) : N := N.lxor (N.lxor a b) c.

Definition Ch (x y z : N) : N := N.lxor (N.land x y) (N.land (N.lxor x mask32) z).
Definition Maj (x y z : N) : N := xor3 (N.land x y) (N.land x z) (N.land y z).
Definition Sigma0 (x : N) : N := xor3 (rotr 2 x) (rotr 13 x) (rotr 22 x).
Definition Sigma1 (x : N) : N := xor3 (rotr 6 x) (rotr 11 x) (rotr 25 x).
Definition sigma0 (x : N) : N := xor3 (rotr 7 x) (rotr 18 x) (shr 3 x).
Definition sigma1 (x : N) : N := xor3 (rotr 17 x) (rotr 19 x) (shr 10 x).

(** The round constants and the initial hash value are the first 32 bits of
    the fractional parts of the cube roots of the first 64 primes and of the
    square roots of the first 8. *)
Definition is_prime (n : N) : bool :=
  forallb (fun d => negb (n mod d =? 0)) (map N.of_nat (seq 2 (N.to_nat n - 2))).

Definition primes : list N := List.filter is_prime (map N.of_nat (seq 2 310)).

Fixpoint cube_root (bits : nat) (n r : N) : N :=
  match bits with
  | O => r
  | S b =>
      let c := N.lor r (N.shiftl 1 (N.of_nat b)) in
      cube_root b n (if c * c * c <=? n then c else r)
  end.

Definition K : list N :=
  Eval vm_compute in map (fun p => w32 (cube_root 40 (N.shiftl p 96) 0)) primes.

Definition H0 : list N :=
  Eval vm_compute in map (fun p => w32 (N.sqrt (N.shiftl p 64))) (firstn 8 primes).

(** Big-endian encoding of [x] on [n] bytes. *)
Fixpoint be_bytes (n : nat) (x : N) : list N :=
  match n with
  | O => []
  | S n' => N.land (N.shiftr x (8 * N.of_nat n')) 0xff :: be_bytes n' x
  end.

Fixpoint be_word (bs : list N) (acc : N) : N :=
  match bs with
  | [] => acc
  | b :: bs' => be_word bs' (N.lor (N.shiftl acc 8) b)
  end.

(** Message padding: a 0x80 byte, zeros up to 56 modulo 64, then the bit
    length on eight bytes. *)
Definition pad (msg : list N) : list N :=
  let len := N.of_nat (length msg) in
  let zeros := N.to_nat ((119 - len mod 64) mod 64) in
  msg ++ [0x80] ++ repeat 0 zeros ++ be_bytes 8 (8 * len).

Fixpoint words (n : nat) (bs : list N) : list N :=
  match n with
  | O => []
  | S n' => be_word (firstn 4 bs) 0 :: words n' (skipn 4 bs)
  end.

(** The message schedule, extended from 16 to 64 words. *)
Fixpoint schedule (n : nat) (w : list N) : list N :=
  match n with
  | O => w
  | S n' =>
      let t := length w in
      let at_ (k : nat) := nth (t - k) w 0 in
      schedule n' (w ++ [add32 (add32 (sigma1 (at_ 2%nat)) (at_ 7%nat))
                                (add32 (sigma0 (at_ 15%nat)) (at_ 16%nat))])
  end.

Record regs := Regs { ra : N; rb : N; rc : N; rd : N; re : N; rf : N; rg : N; rh : N }.

Definition round (s : regs) (kw : N * N) : regs :=
  let t1 := add32 (add32 (add32 (rh s) (Sigma1 (re s))) (Ch (re s) (rf s) (rg s)))
                  (add32 (fst kw) (snd kw)) in
  let t2 := add32 (Sigma0 (ra s)) (Maj (ra s) (rb s) (rc s)) in
  Regs (add32 t1 t2) (ra s) (rb s) (rc s) (add32 (rd s) t1) (re s) (rf s) (rg s).

Definition regs_of (h : list N) : regs :=
  Regs (nth 0 h 0) (nth 1 h 0) (nth 2 h 0) (nth 3 h 0)
       (nth 4 h 0) (nth 5 h 0) (nth 6 h 0) (nth 7 h 0).

Definition compress (h : list N) (block : list N) : list N :=
  let w := schedule 48 (words 16 block) in
  let s0 := regs_of h in
  let s := fold_left round (combine K w) s0 in
  [ add32 (ra s0) (ra s); add32 (rb s0) (rb s); add32 (rc s0) (rc s);
    add32 (rd s0) (rd s); add32 (re s0) (re s); add32 (rf s0) (rf s);
    add32 (rg s0) (rg s); add32 (rh s0) (rh s) ].

Fixpoint blocks (n : nat) (h : list N) (bs : list N) : list N :=
  match n with
  | O => h
  | S n' => blocks n' (compress h (firstn 64 bs)) (skipn 64 bs)
  end.

Definition digest (msg : list N) : list N :=
  let p := pad msg in
  flat_map (be_bytes 4) (blocks (length p / 64) H0 p).

Definition hex_digit (d : N) : ascii :=
  if d <? 10 then ascii_of_N (48 + d) else ascii_of_N (87 + d).

Fixpoint hex (bs : list N) : string :=
  match bs with
  | [] => EmptyString
  | b :: bs' => String (hex_digit (N.shiftr b 4)) (String (hex_digit (N.land b 0xf)) (hex bs'))
  end.

Definition hexdigest (s : string) : string :=
  hex (digest (map N_of_ascii (list_ascii_of_string s))).

End Sha256.

(** ** Data model *)

(** [uuid.UUID] values are taken by their 128-bit integer; instants
    ([datetime], always UTC here) and durations ([timedelta]) are counted in
    microseconds, the resolution of both Python types. *)
Definition uuid := N.
Definition datetime := Z.
Definition timedelta := Z.

Definition seconds (n : Z) : timedelta := n * 1000000.
Definition minutes (n : Z) : timedelta := seconds (n * 60).
Definition days (n : Z) : timedelta := seconds (n * 86400).

(** One row of the [refresh_tokens] table
    ([src/modules/auth/models/refresh_token.py] with the two bookkeeping
    columns of [Base]). *)
Record RefreshToken := mkRefreshToken {
  id : uuid;
  user_id : uuid;
  token_hash : string;
  device_id : option string;
  device_name : option string;
  user_agent : option string;
  ip_address : option string;
  expires_at : datetime;
  is_revoked : bool;
  revoked_at : option datetime;
  replaced_by_id : option uuid;
  parent_token_id : option uuid;
  created_at : datetime;
  updated_at : datetime
}.

(** The columns of [User] that the token logic reads. *)
Record User := mkUser {
  uid : uuid;
  is_active : bool
}.

(** [settings.ACCESS_TOKEN_EXPIRE_MINUTES] and
    [settings.REFRESH_TOKEN_EXPIRE_DAYS] at their defaults. *)
Definition ACCESS_TOKEN_EXPIRE_MINUTES : Z := 60.
Definition REFRESH_TOKEN_EXPIRE_DAYS : Z := 30.

(** ** Credential primitives *)

(** [SecurityService.hash_token]. *)
Definition hash_token (token : string) : string := Sha256.hexdigest token.
Arguments hash_token : simpl never.

(** The claims of a signed access token; the signature is not modelled.
    [exp] is what the token carries: whole seconds since the epoch. *)
Record AccessToken := mkAccessToken {
  sub : uuid;
  exp : Z
}.

(** [SecurityService.create_access_token] with the default lifetime, read
    at instant [now]; encoding the token drops the microseconds of the
    expiry. *)
Definition create_access_token (subject : uuid) (now : datetime) : AccessToken :=
  {| sub := subject;
     exp := (now + minutes ACCESS_TOKEN_EXPIRE_MINUTES) / 1000000 |}.

(** ** Token ledger: [RefreshTokenRepository] *)

(** The table is the list of its rows in insertion order. *)
Abbreviation ledger := (list RefreshToken).

(** The three column assignments the UPDATE statements make; every UPDATE
    also refreshes [updated_at] ([onupdate=func.now()]). *)
Definition set_revoked (now : datetime) (r : RefreshToken) : RefreshToken :=
  {| id := id r; user_id := user_id r; token_hash := token_hash r;
     device_id := device_id r; device_name := device_name r;
     user_agent := user_agent r; ip_address := ip_address r;
     expires_at := expires_at r;
     is_revoked := true; revoked_at := Some now;
     replaced_by_id := replaced_by_id r; parent_token_id := parent_token_id r;
     created_at := created_at r; updated_at := now |}.

Definition set_replaced_by (rb : option uuid) (r : RefreshToken) : RefreshToken :=
  {| id := id r; user_id := user_id r; token_hash := token_hash r;
     device_id := device_id r; device_name := device_name r;
     user_agent := user_agent r; ip_address := ip_address r;
     expires_at := expires_at r;
     is_revoked := is_revoked r; revoked_at := revoked_at r;
     replaced_by_id := rb; parent_token_id := parent_token_id r;
     created_at := created_at r; updated_at := updated_at r |}.

Definition set_parent (p : option uuid) (now : datetime) (r : RefreshToken) : RefreshToken :=
  {| id := id r; user_id := user_id r; token_hash := token_hash r;
     device_id := device_id r; device_name := device_name r;
     user_agent := user_agent r; ip_address := ip_address r;
     expires_at := expires_at r;
     is_revoked := is_revoked r; revoked_at := revoked_at r;
     replaced_by_id := replaced_by_id r; parent_token_id := p;
     created_at := created_at r; updated_at := now |}.

(** [UPDATE refresh_tokens SET ... WHERE cond]: the new table and the
    statement's [rowcount]. *)
Definition update_where (cond : RefreshToken -> bool) (set : RefreshToken -> RefreshToken)
    (l : ledger) : ledger * Z :=
  (map (fun r => if cond r then set r else r) l,
   Z.of_nat (length (List.filter cond l))).

(** [BaseRepository.get]: lookup by primary key. *)
Definition get (l : ledger) (token_id : uuid) : option RefreshToken :=
  find (fun r => bool_decide (id r = token_id)) l.

(** The object [RefreshToken(...)] that [create_token] builds, with the
    column defaults filled in; [new_id] is the value [uuid.uuid4] draws. *)
Definition new_token (new_id user : uuid) (h : string)
    (dev dname ua ip : option string) (expires : datetime)
    (parent : option uuid) (now : datetime) : RefreshToken :=
  {| id := new_id; user_id := user; token_hash := h;
     device_id := dev; device_name := dname; user_agent := ua; ip_address := ip;
     expires_at := expires;
     is_revoked := false; revoked_at := None;
     replaced_by_id := None; parent_token_id := parent;
     created_at := now; updated_at := now |}.

(** *** What a [String(n)] column stores *)

(** Strings are held as their UTF-8 bytes; a character starts at every byte
    that is not a continuation byte (10xxxxxx). *)
Definition is_continuation (c : ascii) : bool :=
  (N.land (N_of_ascii c) 192 =? 128)%N.

Fixpoint char_length (s : string) : nat :=
  match s with
  | EmptyString => O
  | String c rest => if is_continuation c then char_length rest else S (char_length rest)
  end.

(** The first [n] characters of [s] and what follows them. *)
Fixpoint clip (n : nat) (s : string) : string * string :=
  match s with
  | EmptyString => (EmptyString, EmptyString)
  | String c rest =>
      if is_continuation c then
        let '(head, tail) := clip n rest in (String c head, tail)
      else
        match n with
        | O => (EmptyString, s)
        | S n' => let '(head, tail) := clip n' rest in (String c head, tail)
        end
  end.

Fixpoint all_spaces (s : string) : bool :=
  match s with
  | EmptyString => true
  | String c rest => bool_decide (c = " "%char) && all_spaces rest
  end.

Fixpoint has_nul (s : string) : bool :=
  match s with
  | EmptyString => false
  | String c rest => bool_decide (c = "000"%char) || has_nul rest
  end.

(** The value PostgreSQL stores when [s] is inserted into a
    [character varying(n)] column: a NUL character is refused, characters
    past the [n]th are dropped when they are all spaces, and any other
    excess is refused ([None]; the statement raises and writes nothing). *)
Definition varchar (n : nat) (s : string) : option string :=
  if has_nul s then None
  else
    let '(head, tail) := clip n s in
    if all_spaces tail then Some head else None.

(** The same for a nullable column. *)
Definition varchar_null (n : nat) (s : option string) : option (option string) :=
  match s with
  | None => Some None
  | Some s' =>
      match varchar n s' with
      | Some stored => Some (Some stored)
      | None => None
      end
  end.

(** [s] is stored as it is. *)
Definition fits (n : nat) (s : string) : bool :=
  (char_length s <=? n)%nat && negb (has_nul s).

Definition fits_null (n : nat) (s : option string) : bool :=
  match s with
  | None => true
  | Some s' => fits n s'
  end.

(** The four client columns of [refresh_tokens]: [device_id] and
    [device_name] are [String(255)], [user_agent] is [String(500)] and
    [ip_address] is [String(45)]. *)
Definition client_columns_fit (dev dname ua ip : option string) : bool :=
  fits_null 255 dev && fits_null 255 dname && fits_null 500 ua && fits_null 45 ip.

(** Every value of the INSERT is accepted by its column ([token_hash] is
    [String(64)]), as given or with excess spaces dropped. *)
Definition values_accepted (h : string) (dev dname ua ip : option string) : bool :=
  bool_decide (is_Some (varchar 64 h))
  && bool_decide (is_Some (varchar_null 255 dev))
  && bool_decide (is_Some (varchar_null 255 dname))
  && bool_decide (is_Some (varchar_null 500 ua))
  && bool_decide (is_Some (varchar_null 45 ip)).

(** [create_token] on the tables [us] ([users]) and [l]
    ([refresh_tokens]).  The INSERT is refused ([None]) when a value is not
    accepted by its column, when the primary key or the unique [token_hash]
    is already taken, and when [user_id] is not the key of a user (the
    column is a foreign key to [users.id]); the row holds the values as
    stored and [RefreshToken] is reloaded from it. *)
Definition create_token (us : gmap uuid User) (l : ledger) (new_id : uuid) (user : uuid)
    (h : string) (dev dname ua ip : option string) (expires_delta : timedelta)
    (parent : option uuid) (now : datetime) : option (ledger * RefreshToken) :=
  match varchar 64 h, varchar_null 255 dev, varchar_null 255 dname,
        varchar_null 500 ua, varchar_null 45 ip with
  | Some h', Some dev', Some dname', Some ua', Some ip' =>
      let token :=
        new_token new_id user h' dev' dname' ua' ip' (now + expires_delta) parent now in
      if existsb (fun r => bool_decide (id r = new_id) || bool_decide (token_hash r = h')) l
      then None
      else if bool_decide (is_Some (us !! user)) then Some (l ++ [token], token)
      else None
  | _, _, _, _, _ => None
  end.

(** [get_by_token_hash]; [scalar_one_or_none] sees at most one row because
    the column is unique. *)
Definition get_by_token_hash (l : ledger) (h : string) : option RefreshToken :=
  find (fun r => bool_decide (token_hash r = h)) l.

(** The truth value of an optional string: [None] and the empty string are
    false. *)
Definition truthy (s : option string) : bool :=
  match s with
  | Some s' => negb (bool_decide (s' = EmptyString))
  | None => false
  end.

(** [get_user_tokens]. *)
Definition get_user_tokens (l : ledger) (user : uuid) (dev : option string)
    (include_revoked : bool) : ledger :=
  List.filter (fun r =>
            bool_decide (user_id r = user)
            && (if truthy dev then bool_decide (device_id r = dev) else true)
            && (if include_revoked then true else negb (is_revoked r))) l.

(** [revoke_token]: an UPDATE by primary key; the result is
    [rowcount > 0]. *)
Definition revoke_token (l : ledger) (token_id : uuid) (replaced_by : option uuid)
    (now : datetime) : ledger * bool :=
  let '(l', rowcount) :=
    update_where (fun r => bool_decide (id r = token_id))
                 (fun r => set_replaced_by replaced_by (set_revoked now r)) l in
  (l', 0 <? rowcount).

(** The [while current.parent_token_id] loop of [revoke_token_chain]: the ids
    appended to [chain_tokens], in order.  [None] when the fuel runs out
    before the loop ends. *)
Fixpoint chain_walk (fuel : nat) (l : ledger) (current : RefreshToken) : option (list uuid) :=
  match parent_token_id current with
  | None => Some []
  | Some pid =>
      match get l pid with
      | None => Some []
      | Some parent =>
          match fuel with
          | O => None
          | S fuel' =>
              match chain_walk fuel' l parent with
              | Some rest => Some (id parent :: rest)
              | None => None
              end
          end
      end
  end.

(** [revoke_token_chain].  The loop is given as many iterations as the table
    has rows: a walk over distinct rows needs fewer, and a longer one has
    entered a cycle, where the Python loop does not end ([None]); no UPDATE
    is executed then. *)
Definition revoke_token_chain (l : ledger) (token_id : uuid) (now : datetime)
    : option (ledger * Z) :=
  match get l token_id with
  | None => Some (l, 0)
  | Some token =>
      match chain_walk (length l) l token with
      | None => None
      | Some chain_tokens =>
          match chain_tokens with
          | [] => Some (l, 0)
          | _ :: _ =>
              Some (update_where (fun r => bool_decide (id r ∈ chain_tokens))
                                 (set_revoked now) l)
          end
      end
  end.

(** [revoke_all_user_tokens]. *)
Definition revoke_all_user_tokens (l : ledger) (user : uuid) (except_token_id : option uuid)
    (now : datetime) : ledger * Z :=
  update_where
    (fun r => bool_decide (user_id r = user)
              && negb (is_revoked r)
              && match except_token_id with
                 | Some e => negb (bool_decide (id r = e))
                 | None => true
                 end)
    (set_revoked now) l.

(** [revoke_device_tokens]. *)
Definition revoke_device_tokens (l : ledger) (user : uuid) (dev : string)
    (now : datetime) : ledger * Z :=
  update_where
    (fun r => bool_decide (user_id r = user)
              && bool_decide (device_id r = Some dev)
              && negb (is_revoked r))
    (set_revoked now) l.

(** [cleanup_expired_tokens]: DELETE ... WHERE expires_at < now. *)
Definition cleanup_expired_tokens (l : ledger) (now : datetime) : ledger * Z :=
  (List.filter (fun r => negb (expires_at r <? now)) l,
   Z.of_nat (length (List.filter (fun r => expires_at r <? now) l))).

(** [is_token_valid]. *)
Definition is_token_valid (l : ledger) (h : string) (now : datetime) : bool :=
  match get_by_token_hash l h with
  | None => false
  | Some token =>
      if is_revoked token then false
      else negb (expires_at token <? now)
  end.

(** [BaseRepository.update db_obj {"parent_token_id": p}]: the row with the
    object's primary key is rewritten. *)
Definition update_parent (l : ledger) (db_obj : RefreshToken) (p : uuid)
    (now : datetime) : ledger :=
  fst (update_where (fun r => bool_decide (id r = id db_obj))
                    (set_parent (Some p) now) l).

(** ** Token cache: the refresh-token helpers of [RedisService] *)

(** The decoded JSON value stored under a token's key. *)
Record CachedToken := mkCachedToken {
  cached_user_id : uuid;
  cached_device_id : option string;
  cached_expires_at : datetime
}.

(** A Redis key's content: the value, the [ex] argument it was written with
    (whole seconds) and the instant of the write. *)
Record CacheEntry := mkCacheEntry {
  value : CachedToken;
  ttl : Z;
  set_at : datetime
}.

Abbreviation redis := (gmap string CacheEntry).

(** [RedisService.set], [get] and [delete]; a key is gone once its
    time-to-live has elapsed. *)
Definition redis_set (c : redis) (key : string) (v : CachedToken) (expire : Z)
    (now : datetime) : redis :=
  <[key := {| value := v; ttl := expire; set_at := now |}]> c.

Definition redis_get (c : redis) (key : string) (now : datetime) : option CachedToken :=
  match c !! key with
  | Some e => if now <? set_at e + seconds (ttl e) then Some (value e) else None
  | None => None
  end.

Definition redis_delete (c : redis) (key : string) : redis := delete key c.

Definition refresh_key (h : string) : string := String.append "refresh_token:" h.

(** *** [int(d.total_seconds())] *)

(** The quotient [a / b] of two positive integers rounded to the nearest
    integer, ties to the even one. *)
Definition div_nearest_even (a b : Z) : Z :=
  let q := a / b in
  let r := a mod b in
  if 2 * r <? b then q
  else if b <? 2 * r then q + 1
  else if Z.even q then q else q + 1.

(** [floor (log2 (n / d))] for positive [n] and [d]. *)
Definition quotient_log2 (n d : Z) : Z :=
  let k := Z.log2 n - Z.log2 d in
  if (if 0 <=? k then d * 2 ^ k <=? n else d <=? n * 2 ^ (- k)) then k else k - 1.

(** [int(n / d)] for positive Python integers: the true division gives the
    double nearest to the quotient, a 53-bit significand scaled by [2 ^ e],
    and [int] drops its fraction. *)
Definition int_of_true_divide (n d : Z) : Z :=
  let e := quotient_log2 n d - 52 in
  if 0 <=? e then div_nearest_even n (d * 2 ^ e) * 2 ^ e
  else div_nearest_even (n * 2 ^ (- e)) d / 2 ^ (- e).

(** [int(d.total_seconds())]: [total_seconds] divides the microseconds by
    [10**6] in floating point and [int] rounds toward zero.  Below 2^34
    seconds this is the number of whole seconds; from there on the float can
    round up to the next second. *)
Definition total_seconds_int (d : timedelta) : Z :=
  if d =? 0 then 0
  else if 0 <? d then int_of_true_divide d 1000000
  else - int_of_true_divide (- d) 1000000.

(** [cache_refresh_token]: the time-to-live is computed from the clock read
    at [now]; Redis counts it from the instant [set_time] at which it
    executes the SET. *)
Definition cache_refresh_token (c : redis) (h : string) (user : uuid)
    (dev : option string) (expires : datetime) (now set_time : datetime) : redis :=
  let key := refresh_key h in
  let v := {| cached_user_id := user; cached_device_id := dev;
              cached_expires_at := expires |} in
  let ttl := total_seconds_int (expires - now) in
  if 0 <? ttl then redis_set c key v ttl set_time else c.

(** [get_cached_token] and [invalidate_token_cache]. *)
Definition get_cached_token (c : redis) (h : string) (now : datetime) : option CachedToken :=
  redis_get c (refresh_key h) now.

Definition invalidate_token_cache (c : redis) (h : string) : redis :=
  redis_delete c (refresh_key h).

(** ** Rotation engine: [AuthService] *)

(** What a call draws from outside is passed in: the string
    [secrets.token_urlsafe] returns ([new_secret]), the key [uuid.uuid4]
    draws ([new_id]), and the instants its clock readings return.  A
    repository or cache call reads the clock once; a service call makes
    several readings, one after another, around awaited database and cache
    calls, and each is an instant of its own. *)

(** The readings of [_create_token_pair], in the order they are made:
    [create_access_token] ([security.py]), the [expires_at] kept for the
    cache ([service.py], line 64), [create_token]
    ([refresh_token_repo.py], line 36), the time-to-live
    ([redis_service.py], line 76) and the instant Redis executes the SET. *)
Record PairClock := mkPairClock {
  at_access : datetime;
  at_expiry : datetime;
  at_insert : datetime;
  at_cache : datetime;
  at_redis_set : datetime
}.

(** The readings of [refresh_access_token]: Redis executing the GET,
    [is_token_valid], [revoke_token_chain], those of the new pair, the
    UPDATE of [parent_token_id] and [revoke_token]. *)
Record RefreshClock := mkRefreshClock {
  at_lookup : datetime;
  at_check : datetime;
  at_chain : datetime;
  at_pair : PairClock;
  at_link : datetime;
  at_revoke : datetime
}.

(** A clock that returns [t] at every reading of a call. *)
Definition pair_clock_at (t : datetime) : PairClock :=
  {| at_access := t; at_expiry := t; at_insert := t; at_cache := t; at_redis_set := t |}.

Definition refresh_clock_at (t : datetime) : RefreshClock :=
  {| at_lookup := t; at_check := t; at_chain := t; at_pair := pair_clock_at t;
     at_link := t; at_revoke := t |}.

(** What a request handler acts on: both tables and the cache. *)
Record World := mkWorld {
  tokens : ledger;
  users : gmap uuid User;
  cache : gmap string CacheEntry
}.

(** The exceptions a call can end with: the application's own, and
    SQLAlchemy's [IntegrityError] (a unique or foreign-key violation) and
    [DBAPIError] (a value the column does not accept). *)
Inductive AppError :=
  | AuthenticationError (message : string)
  | AuthorizationError (message : string)
  | NotFoundError (message : string)
  | IntegrityError
  | DBAPIError.

(** How a call ends: it returns, raises, or never comes back. *)
Inductive outcome (A : Type) :=
  | Return (a : A)
  | Raise (e : AppError)
  | Diverge.
Arguments Return {A} a.
Arguments Raise {A} e.
Arguments Diverge {A}.

(** Service code threads the world through its calls; what was committed
    before an exception stays committed. *)
Definition M (A : Type) : Type := World -> World * outcome A.

Definition ret {A} (a : A) : M A := fun w => (w, Return a).
Definition raise {A} (e : AppError) : M A := fun w => (w, Raise e).
Definition diverge {A} : M A := fun w => (w, Diverge).
Definition bind {A B} (m : M A) (k : A -> M B) : M B :=
  fun w =>
    match m w with
    | (w', Return a) => k a w'
    | (w', Raise e) => (w', Raise e)
    | (w', Diverge) => (w', Diverge)
    end.

Declare Scope svc_scope.
Delimit Scope svc_scope with svc.
Notation "x <- m ;; k" := (bind m (fun x => k))
  (at level 100, m at next level, k at level 200, right associativity) : svc_scope.
Notation "m ;;; k" := (bind m (fun _ => k))
  (at level 100, k at level 200, right associativity) : svc_scope.
Local Open Scope svc_scope.

Definition gets {A} (f : World -> A) : M A := fun w => (w, Return (f w)).
Definition put_tokens (l : ledger) : M unit :=
  fun w => ({| tokens := l; users := users w; cache := cache w |}, Return tt).
Definition put_cache (c : redis) : M unit :=
  fun w => ({| tokens := tokens w; users := users w; cache := c |}, Return tt).

Record TokenPair := mkTokenPair {
  access_token : AccessToken;
  refresh_token : string;
  token_type : string
}.

(** Python's [a or b] on optional strings. *)
Definition or_else (a b : option string) : option string :=
  if truthy a then a else b.

(** [_create_token_pair].  [new_secret] is the string
    [secrets.token_urlsafe(32)] returns and [new_id] the primary key drawn
    for the row.  A refused INSERT raises before anything is written: a
    [DBAPIError] when a value is not accepted by its column, else an
    [IntegrityError]. *)
Definition create_token_pair (user : User) (dev dname ua ip : option string)
    (ck : PairClock) (new_secret : string) (new_id : uuid) : M TokenPair :=
  let access := create_access_token (uid user) (at_access ck) in
  let h := hash_token new_secret in
  let expires_delta := days REFRESH_TOKEN_EXPIRE_DAYS in
  let expires := at_expiry ck + expires_delta in
  l <- gets tokens ;;
  us <- gets users ;;
  match create_token us l new_id (uid user) h dev dname ua ip expires_delta None
          (at_insert ck) with
  | None =>
      raise (if values_accepted h dev dname ua ip then IntegrityError else DBAPIError)
  | Some (l', _) =>
      put_tokens l' ;;;
      c <- gets cache ;;
      put_cache (cache_refresh_token c h (uid user) dev expires
                   (at_cache ck) (at_redis_set ck)) ;;;
      ret {| access_token := access; refresh_token := new_secret;
             token_type := "bearer" |}
  end.

Definition msg_revoked : string := "Token has been revoked. Please log in again.".
Definition msg_invalid_or_expired : string := "Invalid or expired refresh token.".
Definition msg_invalid : string := "Invalid refresh token.".
Definition msg_user : string := "User not found or inactive.".

(** [refresh_access_token] up to the point where the caller's record and
    user are in hand (lines 119-165): hashing, the cache lookup, the validity
    check with reuse detection, and the owner check. *)
Definition refresh_validate (secret : string) (ck : RefreshClock)
    : M (RefreshToken * User) :=
  let h := hash_token secret in
  c <- gets cache ;;
  (match get_cached_token c h (at_lookup ck) with
   | Some _ =>
       l <- gets tokens ;;
       if is_token_valid l h (at_check ck) then ret tt
       else
         match get_by_token_hash l h with
         | Some db_token =>
             if is_revoked db_token then
               match revoke_token_chain l (id db_token) (at_chain ck) with
               | None => diverge
               | Some (l', _) =>
                   put_tokens l' ;;;
                   put_cache (invalidate_token_cache c h) ;;;
                   raise (AuthenticationError msg_revoked)
               end
             else raise (AuthenticationError msg_invalid_or_expired)
         | None => raise (AuthenticationError msg_invalid_or_expired)
         end
   | None =>
       l <- gets tokens ;;
       if is_token_valid l h (at_check ck) then ret tt
       else
         match get_by_token_hash l h with
         | Some db_token =>
             if is_revoked db_token then
               match revoke_token_chain l (id db_token) (at_chain ck) with
               | None => diverge
               | Some (l', _) =>
                   put_tokens l' ;;;
                   raise (AuthenticationError msg_revoked)
               end
             else raise (AuthenticationError msg_invalid_or_expired)
         | None => raise (AuthenticationError msg_invalid_or_expired)
         end
   end) ;;;
  l <- gets tokens ;;
  match get_by_token_hash l h with
  | None => raise (AuthenticationError msg_invalid)
  | Some db_token =>
      us <- gets users ;;
      match us !! user_id db_token with
      | None => raise (AuthenticationError msg_user)
      | Some user =>
          if is_active user then ret (db_token, user)
          else raise (AuthenticationError msg_user)
      end
  end.

(** The rest of [refresh_access_token] (lines 167-196): the new pair, the
    parent link, the revocation of the old record and the cache
    invalidation. *)
Definition refresh_issue (secret : string) (db_token : RefreshToken) (user : User)
    (dev dname ua ip : option string) (ck : RefreshClock)
    (new_secret : string) (new_id : uuid) : M TokenPair :=
  let h := hash_token secret in
  new_tokens <- create_token_pair user (or_else dev (device_id db_token))
                  (or_else dname (device_name db_token)) ua ip (at_pair ck)
                  new_secret new_id ;;
  let new_token_hash := hash_token (refresh_token new_tokens) in
  l <- gets tokens ;;
  let new_db_token := get_by_token_hash l new_token_hash in
  (match new_db_token with
   | Some n => put_tokens (update_parent l n (id db_token) (at_link ck))
   | None => ret tt
   end) ;;;
  l <- gets tokens ;;
  put_tokens (fst (revoke_token l (id db_token) (id <$> new_db_token) (at_revoke ck))) ;;;
  c <- gets cache ;;
  put_cache (invalidate_token_cache c h) ;;;
  ret {| access_token := access_token new_tokens;
         refresh_token := refresh_token new_tokens;
         token_type := "bearer" |}.

(** [refresh_access_token]. *)
Definition refresh_access_token (secret : string) (dev dname ua ip : option string)
    (ck : RefreshClock) (new_secret : string) (new_id : uuid) : M TokenPair :=
  found <- refresh_validate secret ck ;;
  refresh_issue secret (fst found) (snd found) dev dname ua ip ck new_secret new_id.

(** [logout_device]. *)
Definition logout_device (user : uuid) (secret : string) (now : datetime) : M string :=
  let h := hash_token secret in
  l <- gets tokens ;;
  match get_by_token_hash l h with
  | None => raise (NotFoundError "Token not found.")
  | Some db_token =>
      if bool_decide (user_id db_token = user) then
        put_tokens (fst (revoke_token l (id db_token) None now)) ;;;
        c <- gets cache ;;
        put_cache (invalidate_token_cache c h) ;;;
        ret "Successfully logged out from this device."%string
      else raise (AuthorizationError "Token does not belong to this user.")
  end.

(** [logout_all_devices]; the result is the number of revoked sessions the
    message reports. *)
Definition logout_all_devices (user : uuid) (except_token : option string)
    (now : datetime) : M Z :=
  l <- gets tokens ;;
  let except_token_id :=
    if truthy except_token then
      match get_by_token_hash l (hash_token (default EmptyString except_token)) with
      | Some db_token =>
          if bool_decide (user_id db_token = user) then Some (id db_token) else None
      | None => None
      end
    else None in
  let '(l', revoked_count) := revoke_all_user_tokens l user except_token_id now in
  put_tokens l' ;;;
  ret revoked_count.

(** ** Lookups by a key column *)

Definition find_by {K : Type} `{EqDecision K} (key : RefreshToken -> K)
    (l : ledger) (k : K) : option RefreshToken :=
  find (fun r => bool_decide (key r = k)) l.

(** ** Sample data *)

(** A live record of user 7 for the secret ["secret-T0"]; [token_hash] is
    that secret's digest. *)

Definition sample_row : RefreshToken :=
  {| id := 1%N; user_id := 7%N;
     token_hash := "129bb2fe7cfbe6112b8416d73c395d8ccb36adb251c8b8e52a3191cc08330380";
     device_id := Some "D1"%string; device_name := None;
     user_agent := None; ip_address := None;
     expires_at := 2592000000000;
     is_revoked := false; revoked_at := None;
     replaced_by_id := None; parent_token_id := None;
     created_at := 0; updated_at := 0 |}.


(** The same record after a rotation at instant 10 that replaced it by
    record 2. *)
Definition rotated_row : RefreshToken :=
  set_replaced_by (Some 2%N) (set_revoked 10 sample_row).

(** Three records linked by [parent_token_id], none of them revoked: the
    table [revoke_token_chain] is written for. *)
Definition live_chain : ledger :=
  [sample_row;
   new_token 2%N 7%N "T1" (Some "D1"%string) None None None 2592001000000 (Some 1%N) 1000000;
   new_token 3%N 7%N "T2" (Some "D1"%string) None None None 2592002000000 (Some 2%N) 2000000].

(** ** The repository's operations as one type *)

(** One constructor per repository method that the token logic calls, and
    the table each leaves behind when run at instant [now].  A refused INSERT
    and a chain walk that never ends execute no statement. *)
Inductive LedgerOp :=
  | OpCreateToken (new_id user : uuid) (h : string) (dev dname ua ip : option string)
      (expires_delta : timedelta) (parent : option uuid)
  | OpGet (token_id : uuid)
  | OpGetByTokenHash (h : string)
  | OpGetUserTokens (user : uuid) (dev : option string) (include_revoked : bool)
  | OpIsTokenValid (h : string)
  | OpUpdateParent (db_obj : RefreshToken) (p : uuid)
  | OpRevokeToken (token_id : uuid) (replaced_by : option uuid)
  | OpRevokeTokenChain (token_id : uuid)
  | OpRevokeAllUserTokens (user : uuid) (except_token_id : option uuid)
  | OpRevokeDeviceTokens (user : uuid) (dev : string)
  | OpCleanupExpiredTokens.

Definition ledger_after (us : gmap uuid User) (op : LedgerOp) (now : datetime)
    (l : ledger) : ledger :=
  match op with
  | OpCreateToken new_id user h dev dname ua ip expires_delta parent =>
      match create_token us l new_id user h dev dname ua ip expires_delta parent now with
      | Some (l', _) => l'
      | None => l
      end
  | OpGet _ | OpGetByTokenHash _ | OpGetUserTokens _ _ _ | OpIsTokenValid _ => l
  | OpUpdateParent db_obj p => update_parent l db_obj p now
  | OpRevokeToken token_id replaced_by => fst (revoke_token l token_id replaced_by now)
  | OpRevokeTokenChain token_id =>
      match revoke_token_chain l token_id now with
      | Some (l', _) => l'
      | None => l
      end
  | OpRevokeAllUserTokens user except_token_id =>
      fst (revoke_all_user_tokens l user except_token_id now)
  | OpRevokeDeviceTokens user dev => fst (revoke_device_tokens l user dev now)
  | OpCleanupExpiredTokens => fst (cleanup_expired_tokens l now)
  end.

(** ** Predicates used in the statements *)

(** A setter keeps the primary key and never clears [is_revoked]. *)
Definition keeps_revoked (f : RefreshToken -> RefreshToken) : Prop :=
  forall r, id (f r) = id r /\ (is_revoked r = true -> is_revoked (f r) = true).

(** No revoked row of [l] shows up non-revoked in [l']. *)
Definition revoked_kept (l l' : ledger) : Prop :=
  forall r r', r ∈ l -> r' ∈ l' -> id r' = id r ->
               is_revoked r = true -> is_revoked r' = true.

(** A rotation of [old] stores client values that fit their columns: the
    device id and name it inserts are the ones sent or, failing those, the
    old record's. *)
Definition rotation_columns_fit (dev dname ua ip : option string)
    (old : RefreshToken) : bool :=
  client_columns_fit (or_else dev (device_id old)) (or_else dname (device_name old)) ua ip.

(** The INSERT a rotation of [old] for [owner] runs. *)
Definition rotation_insert (w : World) (old : RefreshToken) (owner : User)
    (dev dname ua ip : option string) (ck : RefreshClock)
    (new_secret : string) (new_id : uuid) : option (ledger * RefreshToken) :=
  create_token (users w) (tokens w) new_id (uid owner) (hash_token new_secret)
    (or_else dev (device_id old)) (or_else dname (device_name old)) ua ip
    (days REFRESH_TOKEN_EXPIRE_DAYS) None (at_insert (at_pair ck)).

(** Neither the primary key nor the hash is taken in [l]. *)
Definition fresh_in (l : ledger) (new_id : uuid) (h : string) : Prop :=
  forall r, r ∈ l -> id r <> new_id /\ token_hash r <> h.


(** The rows met when following [parent_token_id] backward from [c], nearest
    first: the walk goes on while the pointer is set and its lookup
    succeeds. *)
Inductive parent_path (l : ledger) : RefreshToken -> list RefreshToken -> Prop :=
  | path_root c :
      parent_token_id c = None -> parent_path l c []
  | path_dangling c pid :
      parent_token_id c = Some pid -> get l pid = None -> parent_path l c []
  | path_step c pid p rest :
      parent_token_id c = Some pid -> get l pid = Some p ->
      parent_path l p rest -> parent_path l c (p :: rest).

(** [d] was rotated, directly or not, from [a]. *)
Definition descendant_of (l : ledger) (d a : RefreshToken) : Prop :=
  exists path, parent_path l d path /\ a ∈ path.

(** A record's parent is an older row: it sits earlier in the table. *)
Definition chain_ordered (l : ledger) : Prop :=
  forall i j c p,
    l !! i = Some c -> l !! j = Some p ->
    parent_token_id c = Some (id p) -> (j < i)%nat.

(** ** A sample session *)

(** User 7 logs in on device D1 at instant 0 and rotates once per second;
    the secrets are ["secret-T0"] to ["secret-T3"] and the rows get the keys
    1 to 4. *)
Definition alice : User := {| uid := 7%N; is_active := true |}.

Definition world0 : World :=
  {| tokens := []; users := {[ 7%N := alice ]}; cache := ∅ |}.

Definition login_T0 : M TokenPair :=
  create_token_pair alice (Some "D1"%string) None None None (pair_clock_at 0)
    "secret-T0" 1%N.

Definition rotate_T0 : M TokenPair :=
  refresh_access_token "secret-T0" None None None None (refresh_clock_at 1000000)
    "secret-T1" 2%N.

Definition rotate_T1 : M TokenPair :=
  refresh_access_token "secret-T1" None None None None (refresh_clock_at 2000000)
    "secret-T2" 3%N.

Definition rotate_T2 : M TokenPair :=
  refresh_access_token "secret-T2" None None None None (refresh_clock_at 3000000)
    "secret-T3" 4%N.

Definition world1 : World := fst (login_T0 world0).
Definition world2 : World := fst (rotate_T0 world1).
Definition world3 : World := fst (rotate_T1 world2).
Definition world4 : World := fst (rotate_T2 world3).

(** The table after two rotations: T0 and T1 rotated away, T2 live. *)
Definition chain3 : ledger := Eval vm_compute in tokens world3.

(** Replaying ["secret-T0"] after it was rotated to ["secret-T1"], and the
    holder of ["secret-T1"] rotating afterwards. *)
Definition replay_T0 : M TokenPair :=
  refresh_access_token "secret-T0" None None None None (refresh_clock_at 1500000)
    "secret-X" 9%N.

Definition world2_replayed : World := fst (replay_T0 world2).

(** Two handlers presenting ["secret-T0"] at once: both run their checks on
    [world1] before either writes; then each finishes. *)
Definition race_checks_A : World * outcome (RefreshToken * User) :=
  refresh_validate "secret-T0" (refresh_clock_at 1000000) world1.
Definition race_checks_B : World * outcome (RefreshToken * User) :=
  refresh_validate "secret-T0" (refresh_clock_at 1000001) (fst race_checks_A).
Definition race_writes_A : World * outcome TokenPair :=
  refresh_issue "secret-T0" sample_row alice None None None None
    (refresh_clock_at 1000000) "secret-T1" 2%N (fst race_checks_B).
Definition race_writes_B : World * outcome TokenPair :=
  refresh_issue "secret-T0" sample_row alice None None None None
    (refresh_clock_at 1000001) "secret-X" 9%N (fst race_writes_A).

(** Logging out everywhere but on the device holding ["secret-T3"]. *)
Definition logout_all_but_T3 : M Z :=
  logout_all_devices 7%N (Some "secret-T3"%string) 4000000.

Definition world5 : World := fst (logout_all_but_T3 world4).

(** A second session of the same user, opened on device D2 while the first
    holds ["secret-T3"]: the logout that spares ["secret-T3"] then meets a
    live record, the row with key 5. *)
Definition login_U0 : M TokenPair :=
  create_token_pair alice (Some "D2"%string) None None None (pair_clock_at 3500000)
    "secret-U0" 5%N.

Definition world4_two : World := fst (login_U0 world4).

(** The rows [revoke_all_user_tokens] is aimed at. *)
Definition bulk_target (user : uuid) (except_token_id : option uuid)
    (r : RefreshToken) : Prop :=
  user_id r = user /\ is_revoked r = false /\ except_token_id <> Some (id r).

#[global] Instance bulk_target_dec user except_token_id r :
  Decision (bulk_target user except_token_id r).
Proof. unfold bulk_target. apply _. Defined.

(** The record of ["secret-T3"] in [world4]. *)
Definition row_T3 : RefreshToken :=
  Eval vm_compute in default sample_row (last (tokens world4)).

(** The record stored under hash [h] exists and is revoked. *)
Definition revoked_at_hash (l : ledger) (h : string) : Prop :=
  exists r, get_by_token_hash l h = Some r /\ is_revoked r = true.

(** The record stored under hash [h] is live: not revoked, owned by [user],
    expiring at [expires], with device id [dev] and device name [dname]. *)
Definition live_at_hash (l : ledger) (h : string) (user : uuid) (expires : datetime)
    (dev dname : option string) : Prop :=
  exists r, get_by_token_hash l h = Some r /\ is_revoked r = false
            /\ user_id r = user /\ expires_at r = expires
            /\ device_id r = dev /\ device_name r = dname.

(** Every parent pointer refers to a row of the table. *)
Definition parents_present (l : ledger) : Prop :=
  forall r pid, r ∈ l -> parent_token_id r = Some pid -> exists p, p ∈ l /\ id p = pid.

(** The shape the service gives the table as long as nothing is swept:
    distinct keys, distinct hashes, parents present and older. *)
Definition ledger_wf (l : ledger) : Prop :=
  NoDup (map id l) /\ NoDup (map token_hash l) /\ chain_ordered l /\ parents_present l.

(** A row that names itself as its parent. *)
Definition self_parent_row : RefreshToken := set_parent (Some 1%N) 0 sample_row.

(** ** Further predicates *)

(** [chain_ordered] read from the head of the table: no row names itself or
    a later row as its parent. *)
Fixpoint parents_before (l : ledger) : Prop :=
  match l with
  | [] => True
  | c :: rest =>
      (forall p, p ∈ c :: rest -> parent_token_id c <> Some (id p))
      /\ parents_before rest
  end.

(** The rows [revoke_device_tokens] is aimed at. *)
Definition device_target (user : uuid) (dev : string) (r : RefreshToken) : Prop :=
  user_id r = user /\ device_id r = Some dev /\ is_revoked r = false.

#[global] Instance device_target_dec user dev r : Decision (device_target user dev r).
Proof. unfold device_target. apply _. Defined.

(** A table with an expired live record, a rotated record and a live one of
    another device and of another user. *)
Definition mixed_table : ledger :=
  [ rotated_row;
    new_token 2%N 7%N "h2" (Some "D1"%string) None None None 2592001000000 (Some 1%N) 1000000;
    new_token 3%N 7%N "h3" (Some "D2"%string) None None None 500 None 0;
    new_token 4%N 8%N "h4" (Some "D1"%string) None None None 2592000000000 None 0 ].

(** A clock that advances by a tenth of a millisecond from one reading of a
    refresh to the next, starting at [t]. *)
Definition refresh_clock_from (t : datetime) : RefreshClock :=
  {| at_lookup := t; at_check := t + 100; at_chain := t + 200;
     at_pair := {| at_access := t + 300; at_expiry := t + 400; at_insert := t + 500;
                   at_cache := t + 600; at_redis_set := t + 700 |};
     at_link := t + 800; at_revoke := t + 900 |}.

(** ** Credential primitives: the password pre-hash *)

(** [base64.b64encode] (RFC 4648, standard alphabet, with padding): three
    bytes give four characters, each the table entry of one six-bit slice of
    the 24-bit group. *)
Module Base64.
Local Open Scope N_scope.

Definition alphabet : list ascii :=
  list_ascii_of_string
    "ABCDEFGHIJKLMNOPQRSTUVWXYZabcdefghijklmnopqrstuvwxyz0123456789+/".

Definition sextet (group : N) (shift : N) : ascii :=
  nth (N.to_nat (N.land (N.shiftr group shift) 0x3f)) alphabet "="%char.

Fixpoint b64encode (bs : list N) : string :=
  match bs with
  | [] => EmptyString
  | [a] =>
      let g := N.shiftl a 16 in
      String (sextet g 18) (String (sextet g 12) "==")
  | [a; b] =>
      let g := N.lor (N.shiftl a 16) (N.shiftl b 8) in
      String (sextet g 18) (String (sextet g 12) (String (sextet g 6) "="))
  | a :: b :: c :: rest =>
      let g := N.lor (N.lor (N.shiftl a 16) (N.shiftl b 8)) c in
      String (sextet g 18) (String (sextet g 12) (String (sextet g 6)
        (String (sextet g 0) (b64encode rest))))
  end.

End Base64.

(** [SecurityService.prehash_password]: the SHA-256 digest of the password,
    base64-encoded, which is what bcrypt is then given. *)
Definition prehash_password (password : string) : string :=
  Base64.b64encode (Sha256.digest (map N_of_ascii (list_ascii_of_string password))).
Arguments prehash_password : simpl never.

(** ** String keys of the store: counters and codes *)

From Stdlib Require Import Decimal DecimalString DecimalZ DecimalPos.

(** What Redis holds under a string key: the value and the instant the key
    expires at, if it has a time-to-live. *)
Record StrEntry := mkStrEntry {
  str_value : string;
  deadline : option datetime
}.

Abbreviation strings := (gmap string StrEntry).

(** The entry under [key] as a command issued at [now] sees it: a key past
    its deadline is gone. *)
Definition live (s : strings) (key : string) (now : datetime) : option StrEntry :=
  match s !! key with
  | Some e =>
      match deadline e with
      | Some d => if now <? d then Some e else None
      | None => Some e
      end
  | None => None
  end.

(** Integers as Redis and Python print them, and as [INCR] reads them: only
    the canonical decimal form of a signed 64-bit integer is accepted. *)
Definition print_int (n : Z) : string := NilZero.string_of_int (Z.to_int n).

Definition INT64_MAX : Z := 9223372036854775807.

Definition parse_int (s : string) : option Z :=
  match NilZero.int_of_string s with
  | Some d =>
      let n := Z.of_int d in
      if bool_decide (print_int n = s) && (- INT64_MAX - 1 <=? n) && (n <=? INT64_MAX)
      then Some n else None
  | None => None
  end.

(** [RedisService.set] on a string value with [ex] in whole seconds; Redis
    refuses a time-to-live that is not positive ([None]). *)
Definition kv_set (s : strings) (key value : string) (ex : Z) (now : datetime)
    : option strings :=
  if 0 <? ex
  then Some (<[key := {| str_value := value; deadline := Some (now + seconds ex) |}]> s)
  else None.

(** [RedisService.get] and [RedisService.delete]. *)
Definition kv_get (s : strings) (key : string) (now : datetime) : option string :=
  str_value <$> live s key now.

Definition kv_delete (s : strings) (keys : list string) : strings :=
  foldr (fun k acc => delete k acc) s keys.

(** [RedisService.increment]: a missing key starts at 1 and has no
    time-to-live; an existing one keeps its deadline; a value that is not an
    integer, or an overflow, is an error ([None]). *)
Definition increment (s : strings) (key : string) (now : datetime) : option (strings * Z) :=
  match live s key now with
  | None => Some (<[key := {| str_value := print_int 1; deadline := None |}]> s, 1)
  | Some e =>
      match parse_int (str_value e) with
      | Some n =>
          if n + 1 <=? INT64_MAX
          then Some (<[key := {| str_value := print_int (n + 1);
                                 deadline := deadline e |}]> s, n + 1)
          else None
      | None => None
      end
  end.

(** [RedisService.expire] with whole seconds: nothing happens to a missing
    key, and a time that is not positive deletes the key. *)
Definition expire (s : strings) (key : string) (time : Z) (now : datetime) : strings :=
  match live s key now with
  | None => s
  | Some e =>
      if 0 <? time
      then <[key := {| str_value := str_value e;
                       deadline := Some (now + seconds time) |}]> s
      else delete key s
  end.



(** ** Verification codes: [AuthService] *)

Definition code_key (type_prefix email : string) : string :=
  String.append type_prefix (String.append ":" email).

Definition attempt_key (type_prefix email : string) : string :=
  String.append type_prefix (String.append "_attempts:" email).

(** [_generate_and_save_code]; [code] is what [generate_verification_code]
    drew. *)
Definition generate_and_save_code (s : strings) (email type_prefix code : string)
    (now : datetime) : option (strings * string) :=
  match kv_set s (code_key type_prefix email) code
          (total_seconds_int (minutes 15)) now with
  | None => None
  | Some s1 =>
      match kv_set s1 (attempt_key type_prefix email) (print_int 0)
              (total_seconds_int (minutes 15)) now with
      | None => None
      | Some s2 => Some (s2, code)
      end
  end.

(** How [_validate_code] ends: it returns [True], raises a
    [BusinessRuleError], or the store raises. *)
Inductive code_outcome :=
  | CodeValid
  | BusinessRuleError (message : string)
  | ResponseError.

Definition msg_code_invalid : string := "Code invalid or expired.".
Definition msg_too_many : string := "Too many incorrect entries. Request a new code.".
Definition msg_remaining (remaining : Z) : string :=
  String.append "Invalid code. Remaining attempts:" (print_int remaining).

(** [_validate_code]. *)
Definition validate_code (s : strings) (email input_code type_prefix : string)
    (now : datetime) : strings * code_outcome :=
  let ck := code_key type_prefix email in
  let ak := attempt_key type_prefix email in
  let stored_code := kv_get s ck now in
  if negb (truthy stored_code) then (s, BusinessRuleError msg_code_invalid)
  else if negb (bool_decide (stored_code = Some input_code)) then
    match increment s ak now with
    | None => (s, ResponseError)
    | Some (s1, attempts) =>
        let s2 := if attempts =? 1
                  then expire s1 ck (total_seconds_int (minutes 10)) now else s1 in
        if 3 <=? attempts
        then (kv_delete s2 [ck; ak], BusinessRuleError msg_too_many)
        else (s2, BusinessRuleError (msg_remaining (3 - attempts)))
    end
  else (kv_delete s [ck; ak], CodeValid).
(** * Properties *)

(** ** Hashing: FIPS 180-4 test vectors *)

Example sha256_empty :
  Sha256.hexdigest ""
  = "e3b0c44298fc1c149afbf4c8996fb92427ae41e4649b934ca495991b7852b855"%string.
Proof. vm_compute. reflexivity. Qed.

Example sha256_abc :
  Sha256.hexdigest "abc"
  = "ba7816bf8f01cfea414140de5dae2223b00361a396177a9cb410ff61f20015ad"%string.
Proof. vm_compute. reflexivity. Qed.

Example sha256_two_blocks :
  Sha256.hexdigest "0123456789abcdefghijklmnopqrstuvwxyzABCDEFGHIJKLMNOPQRSTUVWXYZ-_0123456789"
  = "498e780a7b10d7985d7d1ebb5bf9b947acfa130f5392f4a9b5ec88c8e22bc8b8"%string.
Proof. vm_compute. reflexivity. Qed.

(** ** Digests and stored values *)

Section HashShape.
Local Open Scope N_scope.

Lemma land_low_bound (x : N) (n : N) : N.land x (N.ones n) < 2 ^ n.
Proof. rewrite N.land_ones. apply N.mod_lt. by apply N.pow_nonzero. Qed.

Lemma be_bytes_bound (n : nat) (x : N) : Forall (fun b => b < 256) (Sha256.be_bytes n x).
Proof.
  induction n as [|n IH]; cbn [Sha256.be_bytes]; constructor; [|done].
  exact (land_low_bound _ 8).
Qed.

Lemma be_bytes_length (n : nat) (x : N) : length (Sha256.be_bytes n x) = n.
Proof. induction n as [|n IH]; cbn [Sha256.be_bytes length]; congruence. Qed.

Lemma blocks_length (n : nat) (h bs : list N) :
  length h = 8%nat -> length (Sha256.blocks n h bs) = 8%nat.
Proof.
  revert h bs. induction n as [|n IH]; intros h bs Hh; [done|].
  cbn [Sha256.blocks]. apply IH. reflexivity.
Qed.

Lemma flat_map_be_bytes_length (ws : list N) :
  length (flat_map (Sha256.be_bytes 4) ws) = (4 * length ws)%nat.
Proof.
  induction ws as [|w ws IH]; [done|].
  cbn [flat_map]. rewrite length_app, be_bytes_length, IH. cbn [length]. lia.
Qed.

Lemma digest_length (msg : list N) : length (Sha256.digest msg) = 32%nat.
Proof.
  unfold Sha256.digest. cbv zeta.
  rewrite flat_map_be_bytes_length, blocks_length; done.
Qed.

Lemma digest_bytes (msg : list N) : Forall (fun b => b < 256) (Sha256.digest msg).
Proof.
  unfold Sha256.digest. cbv zeta.
  induction (Sha256.blocks _ _ _) as [|w ws IH]; [constructor|].
  cbn [flat_map]. apply Forall_app. split; [apply be_bytes_bound | exact IH].
Qed.

Lemma hex_digit_lower (d : N) :
  d < 16 -> In (Sha256.hex_digit d) (list_ascii_of_string "0123456789abcdef").
Proof.
  intros Hd.
  assert (exists n : nat, (n < 16)%nat /\ d = N.of_nat n) as (n & Hn & ->)
    by (exists (N.to_nat d); lia).
  do 16 (destruct n as [|n];
         [vm_compute; repeat (first [left; reflexivity | right])|]).
  lia.
Qed.

Lemma hex_shape (bs : list N) :
  Forall (fun b => b < 256) bs ->
  String.length (Sha256.hex bs) = (2 * length bs)%nat
  /\ Forall (fun c => In c (list_ascii_of_string "0123456789abcdef"))
       (list_ascii_of_string (Sha256.hex bs)).
Proof.
  induction 1 as [|b bs Hb _ [IHl IHc]]; [by split|].
  cbn [Sha256.hex String.length list_ascii_of_string length]. split.
  - rewrite IHl. lia.
  - constructor; [|constructor; [|exact IHc]].
    + apply hex_digit_lower. rewrite N.shiftr_div_pow2.
      apply N.Div0.div_lt_upper_bound. exact Hb.
    + apply hex_digit_lower. exact (land_low_bound b 4).
Qed.

Lemma sextet_in_alphabet (g shift : N) : In (Base64.sextet g shift) Base64.alphabet.
Proof.
  unfold Base64.sextet. apply nth_In.
  pose proof (land_low_bound (N.shiftr g shift) 6) as Hb.
  change (N.ones 6) with 63 in Hb. change (2 ^ 6) with 64 in Hb.
  change (length Base64.alphabet) with 64%nat. lia.
Qed.

Lemma b64encode_shape (bs : list N) :
  (String.length (Base64.b64encode bs) = 4 * ((length bs + 2) / 3))%nat
  /\ Forall (fun c => In c Base64.alphabet \/ c = "="%char)
       (list_ascii_of_string (Base64.b64encode bs)).
Proof.
  enough (H : forall l : list N,
            let P (x : list N) :=
              (String.length (Base64.b64encode x) = 4 * ((length x + 2) / 3))%nat
              /\ Forall (fun c => In c Base64.alphabet \/ c = "="%char)
                   (list_ascii_of_string (Base64.b64encode x)) in
            P l /\ (forall a, P (a :: l)) /\ (forall a b, P (a :: b :: l)))
    by apply (H bs).
  intros l. cbv zeta. induction l as [|c l (IH0 & IH1 & IH2)].
  - split; [split; [reflexivity | apply Forall_nil_2]|]. split.
    + intros a. split; [reflexivity|].
      cbn [Base64.b64encode list_ascii_of_string].
      do 2 (apply Forall_cons; split; [left; apply sextet_in_alphabet|]).
      apply Forall_cons; split; [by right|].
      apply Forall_cons; split; [by right|]. apply Forall_nil_2.
    + intros a b. split; [reflexivity|].
      cbn [Base64.b64encode list_ascii_of_string].
      do 3 (apply Forall_cons; split; [left; apply sextet_in_alphabet|]).
      apply Forall_cons; split; [by right|]. apply Forall_nil_2.
  - split; [exact (IH1 c)|]. split; [exact (fun a => IH2 a c)|].
    intros a b. destruct IH0 as [IHl IHc]. split.
    + cbn [Base64.b64encode String.length length]. rewrite IHl.
      replace (S (S (S (length l))) + 2)%nat with (length l + 2 + 1 * 3)%nat by lia.
      rewrite Nat.div_add by done. lia.
    + cbn [Base64.b64encode list_ascii_of_string].
      do 4 (apply Forall_cons; split; [left; apply sextet_in_alphabet|]). exact IHc.
Qed.

End HashShape.

Lemma hex_chars_plain (s : string) :
  Forall (fun c => In c (list_ascii_of_string "0123456789abcdef"))
    (list_ascii_of_string s) ->
  char_length s = String.length s /\ has_nul s = false.
Proof.
  induction s as [|c s IH]; [done|].
  cbn [list_ascii_of_string]. intros Hall.
  apply Forall_cons in Hall as [Hc Hall]. destruct (IH Hall) as [IHl IHn].
  cbn [char_length has_nul String.length].
  assert (Hplain : is_continuation c = false /\ c <> "000"%char).
  { cbn in Hc. repeat (destruct Hc as [<-|Hc]; [by split|]). done. }
  destruct Hplain as [-> Hnul].
  rewrite IHl, IHn, bool_decide_eq_false_2 by done. done.
Qed.

Lemma clip_fits (n : nat) (s : string) :
  (char_length s <= n)%nat -> clip n s = (s, EmptyString).
Proof.
  revert n. induction s as [|c s IH]; intros n Hn; [done|].
  cbn [clip char_length] in *. destruct (is_continuation c).
  - by rewrite (IH n Hn).
  - destruct n as [|n]; [lia|]. by rewrite (IH n) by lia.
Qed.

Lemma varchar_fits (n : nat) (s : string) : fits n s = true -> varchar n s = Some s.
Proof.
  unfold fits, varchar. intros H. apply andb_true_iff in H as [Hlen Hnul].
  apply Nat.leb_le in Hlen. apply negb_true_iff in Hnul.
  by rewrite Hnul, (clip_fits n s Hlen).
Qed.

Lemma varchar_short (n : nat) (s stored : string) :
  varchar n s = Some stored -> (char_length s <= n)%nat -> stored = s.
Proof.
  unfold varchar. intros H Hlen. destruct (has_nul s); [done|].
  rewrite (clip_fits n s Hlen) in H. cbn in H. by injection H as <-.
Qed.

Lemma varchar_null_fits (n : nat) (s : option string) :
  fits_null n s = true -> varchar_null n s = Some s.
Proof.
  destruct s as [s|]; [|done]. cbn. intros H. by rewrite (varchar_fits n s H).
Qed.

(** A digest is stored as it is. *)
Lemma hash_token_fits (secret : string) : fits 64 (hash_token secret) = true.
Proof.
  unfold hash_token, Sha256.hexdigest.
  destruct (hex_shape _ (digest_bytes (map N_of_ascii (list_ascii_of_string secret))))
    as [Hl Hc].
  destruct (hex_chars_plain _ Hc) as [Hchars Hnul].
  unfold fits. rewrite Hchars, Hl, digest_length, Hnul. done.
Qed.

Lemma values_accepted_fits (h : string) (dev dname ua ip : option string) :
  fits 64 h = true -> client_columns_fit dev dname ua ip = true ->
  values_accepted h dev dname ua ip = true.
Proof.
  unfold client_columns_fit, values_accepted. intros Hh Hc.
  apply andb_true_iff in Hc as [Hc Hip]. apply andb_true_iff in Hc as [Hc Hua].
  apply andb_true_iff in Hc as [Hdev Hdname].
  rewrite (varchar_fits _ _ Hh), (varchar_null_fits _ _ Hdev),
    (varchar_null_fits _ _ Hdname), (varchar_null_fits _ _ Hua),
    (varchar_null_fits _ _ Hip).
  rewrite !bool_decide_eq_true_2 by eauto. done.
Qed.

(** ** Rows, lookups and UPDATE statements *)

Section Lookup.
Context {K : Type} `{EqDecision K} (key : RefreshToken -> K).

Lemma find_by_Some l k r : find_by key l k = Some r -> r ∈ l /\ key r = k.
Proof.
  unfold find_by. intros H. apply find_some in H as [Hin Hk].
  split; [by apply list_elem_of_In | by apply bool_decide_eq_true in Hk].
Qed.

Lemma find_by_None l k : find_by key l k = None <-> forall r, r ∈ l -> key r <> k.
Proof.
  unfold find_by. split.
  - intros H r Hin Hk. apply list_elem_of_In in Hin.
    pose proof (find_none _ _ H r Hin) as Hf. cbn in Hf.
    by rewrite bool_decide_eq_true_2 in Hf.
  - intros H. induction l as [|x l IH]; [done|]. cbn.
    rewrite bool_decide_eq_false_2.
    + apply IH. intros r Hr. apply H. by right.
    + apply H. by left.
Qed.

(** With a unique key, the lookup returns the row that carries it. *)
Lemma find_by_unique l r :
  NoDup (map key l) -> r ∈ l -> find_by key l (key r) = Some r.
Proof.
  unfold find_by. induction l as [|x l IH]; intros Hnd Hin.
  - by apply elem_of_nil in Hin.
  - cbn in Hnd. apply NoDup_cons in Hnd as [Hx Hnd]. cbn.
    apply elem_of_cons in Hin as [->|Hin].
    + by rewrite bool_decide_eq_true_2.
    + rewrite bool_decide_eq_false_2; [by apply IH|].
      intros Heq. apply Hx. rewrite Heq.
      apply list_elem_of_In, in_map, list_elem_of_In, Hin.
  Qed.

Lemma find_by_app_l l l' k r : find_by key l k = Some r -> find_by key (l ++ l') k = Some r.
Proof.
  unfold find_by. induction l as [|x l IH]; [done|]. cbn.
  destruct (bool_decide (key x = k)); [done | apply IH].
Qed.

Lemma find_by_app_r l l' k :
  find_by key l k = None -> find_by key (l ++ l') k = find_by key l' k.
Proof.
  unfold find_by. induction l as [|x l IH]; [done|]. cbn.
  destruct (bool_decide (key x = k)); [done | apply IH].
Qed.
End Lookup.

Lemma get_find_by l x : get l x = find_by id l x.
Proof. reflexivity. Qed.

Lemma get_by_token_hash_find_by l h : get_by_token_hash l h = find_by token_hash l h.
Proof. reflexivity. Qed.

Lemma update_where_length cond set l : length (fst (update_where cond set l)) = length l.
Proof. cbn. apply length_map. Qed.

Lemma update_where_lookup cond set (l : ledger) i :
  fst (update_where cond set l) !! i
  = (fun r => if cond r then set r else r) <$> l !! i.
Proof. cbn. apply list_lookup_fmap. Qed.

(** An UPDATE whose condition matches no row changes nothing and reports
    zero rows. *)
Lemma update_where_none cond set (l : ledger) :
  (forall r, r ∈ l -> cond r = false) -> update_where cond set l = (l, 0).
Proof.
  intros H. unfold update_where. induction l as [|x l IH]; [done|].
  cbn. rewrite (H x) by (by left).
  assert (Hl : forall r, r ∈ l -> cond r = false) by (intros r Hr; apply H; by right).
  specialize (IH Hl). injection IH as IH1 IH2. rewrite IH1. f_equal. exact IH2.
Qed.

(** The row count is positive exactly when some row matches. *)
Lemma update_where_count_pos cond set (l : ledger) :
  (0 <? snd (update_where cond set l)) = existsb cond l.
Proof.
  unfold update_where. cbn [snd]. induction l as [|x l IH]; [done|].
  cbn [List.filter existsb]. destruct (cond x); cbn [orb]; [|exact IH].
  apply Z.ltb_lt. cbn [length]. lia.
Qed.

(** Setters and the columns they leave alone. *)
Lemma id_set_revoked now r : id (set_revoked now r) = id r.
Proof. reflexivity. Qed.
Lemma id_set_replaced_by rb r : id (set_replaced_by rb r) = id r.
Proof. reflexivity. Qed.
Lemma id_set_parent p now r : id (set_parent p now r) = id r.
Proof. reflexivity. Qed.

Lemma set_revoked_overwrite t1 t2 r : set_revoked t2 (set_revoked t1 r) = set_revoked t2 r.
Proof. reflexivity. Qed.

Lemma revoke_set_overwrite rb1 rb2 t1 t2 r :
  set_replaced_by rb2 (set_revoked t2 (set_replaced_by rb1 (set_revoked t1 r)))
  = set_replaced_by rb2 (set_revoked t2 r).
Proof. reflexivity. Qed.

(** ** The validity check *)

Lemma sample_row_hash : token_hash sample_row = hash_token "secret-T0".
Proof. vm_compute. reflexivity. Qed.

(** C3, as the code has it: the ledger validity check returns true exactly
    when a record with the hash exists, is not revoked, and its [expires_at]
    is not earlier than the current instant; a record expiring exactly now
    still counts as valid. *)
Theorem is_token_valid_iff (l : ledger) (h : string) (now : datetime) :
  NoDup (map token_hash l) ->
  is_token_valid l h now = true
  <-> exists r, r ∈ l /\ token_hash r = h /\ is_revoked r = false /\ now <= expires_at r.
Proof.
  intros Hnd. unfold is_token_valid. rewrite get_by_token_hash_find_by. split.
  - destruct (find_by token_hash l h) as [r|] eqn:Hf; [|done].
    apply find_by_Some in Hf as [Hin Hh].
    destruct (is_revoked r) eqn:Hr; [done|].
    intros Hexp. apply negb_true_iff, Z.ltb_ge in Hexp. by exists r.
  - intros (r & Hin & Hh & Hr & Hexp). subst h.
    rewrite (find_by_unique token_hash l r Hnd Hin), Hr.
    by apply negb_true_iff, Z.ltb_ge.
Qed.

Lemma is_token_valid_iff_witness :
  NoDup (map token_hash [sample_row])
  /\ (is_token_valid [sample_row] (token_hash sample_row) 1000 = true
       <-> exists r, r ∈ [sample_row] /\ token_hash r = token_hash sample_row
                     /\ is_revoked r = false /\ 1000 <= expires_at r).
Proof.
  assert (Hnd : NoDup (map token_hash [sample_row])) by apply NoDup_singleton.
  split; [exact Hnd|].
  exact (is_token_valid_iff [sample_row] (token_hash sample_row) 1000 Hnd).
Defined.

(** C3, the boundary as the specification words it: a record whose
    [expires_at] equals the current instant is not strictly in the future,
    and the check accepts it. *)
Lemma is_token_valid_at_expiry_instant :
  is_token_valid [sample_row] (token_hash sample_row) (expires_at sample_row) = true
  /\ ~ (expires_at sample_row < expires_at sample_row).
Proof. split; [vm_compute; reflexivity | apply Z.lt_irrefl]. Qed.

(** ** Revoking one record *)

(** What [revoke_token] does to each row, whatever the row's state. *)
Lemma revoke_token_rows l token_id rb now :
  fst (revoke_token l token_id rb now)
  = map (fun r => if bool_decide (id r = token_id)
                  then set_replaced_by rb (set_revoked now r) else r) l.
Proof. reflexivity. Qed.

Lemma revoke_token_flag l token_id rb now :
  snd (revoke_token l token_id rb now)
  = existsb (fun r => bool_decide (id r = token_id)) l.
Proof.
  unfold revoke_token.
  pose proof (update_where_count_pos (fun r => bool_decide (id r = token_id))
                (fun r => set_replaced_by rb (set_revoked now r)) l) as H.
  destruct (update_where _ _ l) as [l' n]. exact H.
Qed.

Lemma existsb_id_map (f : RefreshToken -> RefreshToken) l x :
  (forall r, id (f r) = id r) ->
  existsb (fun r => bool_decide (id r = x)) (map f l)
  = existsb (fun r => bool_decide (id r = x)) l.
Proof.
  intros Hf. induction l as [|a l IH]; [done|]. cbn. by rewrite Hf, IH.
Qed.

(** C10: revoking an id that no record carries returns false, raises
    nothing, and leaves the ledger as it was. *)
Theorem revoke_token_unknown_id (l : ledger) (token_id : uuid)
    (rb : option uuid) (now : datetime) :
  (forall r, r ∈ l -> id r <> token_id) ->
  revoke_token l token_id rb now = (l, false).
Proof.
  intros Hno. unfold revoke_token.
  rewrite update_where_none; [done|].
  intros r Hr. apply bool_decide_eq_false_2, Hno, Hr.
Qed.

Lemma revoke_token_unknown_id_witness :
  (forall r, r ∈ [sample_row] -> id r <> 9%N)
  /\ revoke_token [sample_row] 9%N (Some 2%N) 50 = ([sample_row], false).
Proof.
  assert (H : forall r, r ∈ [sample_row] -> id r <> 9%N).
  { intros r Hr. apply list_elem_of_singleton in Hr. subst r. discriminate. }
  split; [exact H|].
  exact (revoke_token_unknown_id [sample_row] 9%N (Some 2%N) 50 H).
Defined.

(** C6, as the code has it: a second [revoke_token] on the same id raises
    nothing and reports the same success as the first; the record stays
    revoked, but the call writes again: the terminal state is that of the
    last call alone ([revoked_at] and [replaced_by_id] are overwritten), and
    it equals the state after the first call only when both calls carry the
    same instant and the same [replaced_by_id]. *)
Theorem revoke_token_twice (l : ledger) (token_id : uuid)
    (rb1 rb2 : option uuid) (t1 t2 : datetime) :
  let l1 := fst (revoke_token l token_id rb1 t1) in
  snd (revoke_token l1 token_id rb2 t2) = snd (revoke_token l token_id rb1 t1)
  /\ fst (revoke_token l1 token_id rb2 t2) = fst (revoke_token l token_id rb2 t2)
  /\ fst (revoke_token l1 token_id rb1 t1) = l1
  /\ forall i r', fst (revoke_token l1 token_id rb2 t2) !! i = Some r' ->
       id r' = token_id ->
       is_revoked r' = true /\ revoked_at r' = Some t2 /\ replaced_by_id r' = rb2.
Proof.
  cbn zeta.
  assert (Hfst : forall rb t, fst (revoke_token (fst (revoke_token l token_id rb1 t1)) token_id rb t)
                 = fst (revoke_token l token_id rb t)).
  { intros rb t. rewrite !revoke_token_rows, map_map. apply map_ext. intros r.
    destruct (bool_decide (id r = token_id)) eqn:E.
    - rewrite id_set_replaced_by, id_set_revoked, E. reflexivity.
    - by rewrite E. }
  repeat split.
  - rewrite !revoke_token_flag, revoke_token_rows. apply existsb_id_map.
    intros r. by destruct (bool_decide (id r = token_id)).
  - apply Hfst.
  - apply Hfst.
  - rewrite Hfst, revoke_token_rows, list_lookup_fmap in H.
    destruct (l !! i) as [r|]; [|done]. cbn in H. injection H as <-.
    destruct (bool_decide (id r = token_id)) eqn:E; [done|].
    apply bool_decide_eq_false in E. done.
  - rewrite Hfst, revoke_token_rows, list_lookup_fmap in H.
    destruct (l !! i) as [r|]; [|done]. cbn in H. injection H as <-.
    destruct (bool_decide (id r = token_id)) eqn:E; [done|].
    apply bool_decide_eq_false in E. done.
  - rewrite Hfst, revoke_token_rows, list_lookup_fmap in H.
    destruct (l !! i) as [r|]; [|done]. cbn in H. injection H as <-.
    destruct (bool_decide (id r = token_id)) eqn:E; [done|].
    apply bool_decide_eq_false in E. done.
Qed.

Lemma revoke_token_twice_witness :
  fst (revoke_token (fst (revoke_token [sample_row] 1%N (Some 2%N) 10)) 1%N None 20) !! 0%nat
    = Some (set_replaced_by None (set_revoked 20 sample_row))
  /\ is_revoked (set_replaced_by None (set_revoked 20 sample_row)) = true
  /\ revoked_at (set_replaced_by None (set_revoked 20 sample_row)) = Some 20
  /\ replaced_by_id (set_replaced_by None (set_revoked 20 sample_row)) = None.
Proof.
  assert (H : fst (revoke_token (fst (revoke_token [sample_row] 1%N (Some 2%N) 10)) 1%N None 20)
              !! 0%nat = Some (set_replaced_by None (set_revoked 20 sample_row)))
    by reflexivity.
  split; [exact H|].
  destruct (revoke_token_twice [sample_row] 1%N (Some 2%N) None 10 20) as (_ & _ & _ & Hrow).
  exact (Hrow 0%nat _ H eq_refl).
Defined.

(** C6, as the specification words it: the second call is not a no-op.  A
    record rotated at instant 10 and revoked again at instant 20 ends with
    another [revoked_at] and without its forward link. *)
Lemma revoke_token_second_call_rewrites :
  let l1 := fst (revoke_token [sample_row] 1%N (Some 2%N) 10) in
  let l2 := fst (revoke_token l1 1%N None 20) in
  l1 = [rotated_row]
  /\ l2 <> l1
  /\ (revoked_at <$> get l1 1%N) = Some (Some 10)
  /\ (revoked_at <$> get l2 1%N) = Some (Some 20)
  /\ (replaced_by_id <$> get l1 1%N) = Some (Some 2%N)
  /\ (replaced_by_id <$> get l2 1%N) = Some None.
Proof.
  cbn zeta. repeat split; try reflexivity. intros H.
  apply (f_equal (fun l => revoked_at <$> get l 1%N)) in H.
  vm_compute in H. discriminate H.
Qed.

(** ** Writing to the cache *)

Lemma div_nearest_even_error (a b : Z) :
  0 < b -> - b <= 2 * (div_nearest_even a b * b - a) <= b.
Proof.
  intros Hb. unfold div_nearest_even.
  pose proof (Z.div_mod a b ltac:(lia)) as Hdm.
  pose proof (Z.mod_pos_bound a b Hb) as Hr.
  destruct (Z.ltb_spec (2 * (a mod b)) b); [nia|].
  destruct (Z.ltb_spec b (2 * (a mod b))); [nia|].
  destruct (Z.even (a / b)); nia.
Qed.

Lemma div_nearest_even_nonneg (a b : Z) : 0 <= a -> 0 < b -> 0 <= div_nearest_even a b.
Proof.
  intros Ha Hb. unfold div_nearest_even.
  pose proof (Z.div_pos a b Ha Hb).
  destruct (_ <? _); [lia|]. destruct (_ <? _); [lia|]. destruct (Z.even _); lia.
Qed.

Lemma int_of_true_divide_nonneg (n d : Z) : 0 < n -> 0 < d -> 0 <= int_of_true_divide n d.
Proof.
  intros Hn Hd. unfold int_of_true_divide. cbv zeta.
  destruct (Z.leb_spec 0 (quotient_log2 n d - 52)) as [He|He].
  - apply Z.mul_nonneg_nonneg; [|apply Z.pow_nonneg; lia].
    apply div_nearest_even_nonneg; [lia|]. apply Z.mul_pos_pos; [lia|].
    apply Z.pow_pos_nonneg; lia.
  - apply Z.div_pos; [|apply Z.pow_pos_nonneg; lia].
    apply div_nearest_even_nonneg; [|lia].
    apply Z.mul_nonneg_nonneg; [lia|]. apply Z.pow_nonneg. lia.
Qed.

Lemma quotient_log2_seconds (d : Z) :
  0 < d < 2 ^ 34 * 1000000 -> quotient_log2 d 1000000 <= 33.
Proof.
  intros Hd. unfold quotient_log2. cbv zeta.
  change (Z.log2 1000000) with 19.
  assert (Hlog : Z.log2 d < 54).
  { apply Z.log2_lt_pow2; [lia|]. change (2 ^ 54) with 18014398509481984. lia. }
  destruct (Z.leb_spec 0 (Z.log2 d - 19)) as [Hk|Hk].
  - destruct (Z.leb_spec (1000000 * 2 ^ (Z.log2 d - 19)) d) as [Hc|Hc]; [|lia].
    assert (Z.log2 d - 19 <= 33 \/ Z.log2 d - 19 = 34) as [?|Heq] by lia; [lia|].
    rewrite Heq in Hc. change (2 ^ 34) with 17179869184 in *. lia.
  - destruct (_ <=? _); lia.
Qed.

(** Below 2^34 seconds the float is close enough to the quotient for [int]
    to return the whole seconds. *)
Lemma total_seconds_int_whole (d : Z) :
  0 <= d < 2 ^ 34 * 1000000 -> total_seconds_int d = d / 1000000.
Proof.
  intros Hd. unfold total_seconds_int.
  destruct (Z.eqb_spec d 0) as [->|Hne]; [reflexivity|].
  rewrite (proj2 (Z.ltb_lt 0 d)) by lia.
  unfold int_of_true_divide. cbv zeta.
  pose proof (quotient_log2_seconds d ltac:(lia)) as Hq.
  rewrite (proj2 (Z.leb_gt 0 _)) by lia.
  set (K := - (quotient_log2 d 1000000 - 52)).
  assert (HK : 19 <= K) by (unfold K; lia).
  set (P := 2 ^ K).
  assert (HP : 524288 <= P).
  { unfold P. change 524288 with (2 ^ 19). apply Z.pow_le_mono_r; lia. }
  pose proof (div_nearest_even_error (d * P) 1000000 ltac:(lia)) as Herr.
  set (m := div_nearest_even (d * P) 1000000) in *.
  pose proof (Z.div_mod d 1000000 ltac:(lia)) as Hdm.
  pose proof (Z.mod_pos_bound d 1000000 ltac:(lia)) as Hr.
  set (q := d / 1000000) in *. set (r := d mod 1000000) in *.
  symmetry. apply (Z.div_unique m P q (m - P * q)); [|lia].
  left. nia.
Qed.

Lemma total_seconds_int_nonpos (d : Z) : d <= 0 -> total_seconds_int d <= 0.
Proof.
  intros Hd. unfold total_seconds_int.
  destruct (Z.eqb_spec d 0); [lia|].
  rewrite (proj2 (Z.ltb_ge 0 d)) by lia.
  pose proof (int_of_true_divide_nonneg (- d) 1000000 ltac:(lia) ltac:(lia)). lia.
Qed.

(** From 2^34 seconds on the float can round up to the next second. *)
Example total_seconds_int_rounds_up :
  total_seconds_int (seconds (10 ^ 11) - 1) = 10 ^ 11
  /\ Z.quot (seconds (10 ^ 11) - 1) 1000000 = 10 ^ 11 - 1
  /\ total_seconds_int (seconds (2 ^ 34) + 999999) = 2 ^ 34 + 1
  /\ total_seconds_int (seconds (2 ^ 34) - 1) = 2 ^ 34 - 1.
Proof. vm_compute. repeat split. Qed.

Lemma total_seconds_int_pos d :
  d < seconds (2 ^ 34) -> (0 <? total_seconds_int d) = (1000000 <=? d).
Proof.
  unfold seconds. intros Hd. destruct (Z.le_gt_cases 0 d) as [H0|H0].
  - rewrite total_seconds_int_whole by lia.
    destruct (Z.ltb_spec 0 (d / 1000000)), (Z.leb_spec 1000000 d);
      try reflexivity; exfalso; Z.to_euclidean_division_equations; lia.
  - pose proof (total_seconds_int_nonpos d ltac:(lia)).
    rewrite (proj2 (Z.ltb_ge _ _)), (proj2 (Z.leb_gt _ _)) by lia. done.
Qed.

Lemma total_seconds_int_quot d :
  1000000 <= d < seconds (2 ^ 34) -> total_seconds_int d = Z.quot d 1000000.
Proof.
  unfold seconds. intros Hd. rewrite total_seconds_int_whole by lia.
  symmetry. apply Z.quot_div_nonneg; lia.
Qed.

Lemma total_seconds_int_bounds d :
  1000000 <= d < seconds (2 ^ 34) ->
  0 < total_seconds_int d
  /\ seconds (total_seconds_int d) <= d < seconds (total_seconds_int d + 1).
Proof.
  intros Hd. unfold seconds in *. rewrite total_seconds_int_whole by lia.
  Z.to_euclidean_division_equations; lia.
Qed.

(** C8, as the code has it: for a remaining lifetime below 2^34 seconds the
    time-to-live is the remaining lifetime cut down to whole seconds, and the
    entry is written exactly when at least one full second remains; a shorter
    remaining lifetime, positive or not, writes nothing.  The remaining
    lifetime is taken at the reading [now], and Redis counts the time-to-live
    from the instant it executes the SET. *)
Theorem cache_refresh_token_written (c : redis) (h : string) (user : uuid)
    (dev : option string) (expires now set_time : datetime) :
  expires - now < seconds (2 ^ 34) ->
  cache_refresh_token c h user dev expires now set_time
  = (if 1000000 <=? expires - now
     then <[refresh_key h :=
              {| value := {| cached_user_id := user; cached_device_id := dev;
                             cached_expires_at := expires |};
                 ttl := Z.quot (expires - now) 1000000;
                 set_at := set_time |}]> c
     else c)
  /\ (1000000 <= expires - now ->
      0 < Z.quot (expires - now) 1000000
      /\ seconds (Z.quot (expires - now) 1000000) <= expires - now
         < seconds (Z.quot (expires - now) 1000000 + 1)).
Proof.
  intros Hbound. split.
  - unfold cache_refresh_token. rewrite total_seconds_int_pos by done.
    destruct (Z.leb_spec 1000000 (expires - now)) as [Hd|Hd]; [|reflexivity].
    by rewrite total_seconds_int_quot.
  - intros Hd. rewrite <- total_seconds_int_quot by done.
    by apply total_seconds_int_bounds.
Qed.

Lemma cache_refresh_token_written_witness :
  2592000001000 - 1000 < seconds (2 ^ 34)
  /\ 1000000 <= 2592000001000 - 1000
  /\ (ttl <$> cache_refresh_token ∅ (token_hash sample_row) 7%N None
                2592000001000 1000 1200 !! refresh_key (token_hash sample_row))
     = Some (Z.quot (2592000001000 - 1000) 1000000)
  /\ seconds (Z.quot (2592000001000 - 1000) 1000000) <= 2592000001000 - 1000
     < seconds (Z.quot (2592000001000 - 1000) 1000000 + 1).
Proof.
  assert (Hb : 2592000001000 - 1000 < seconds (2 ^ 34)) by (vm_compute; reflexivity).
  assert (H : 1000000 <= 2592000001000 - 1000) by lia.
  split; [exact Hb|]. split; [exact H|].
  destruct (cache_refresh_token_written ∅ (token_hash sample_row) 7%N None
              2592000001000 1000 1200 Hb) as [Hwritten Hbounds].
  split.
  - rewrite Hwritten. vm_compute. reflexivity.
  - exact (proj2 (Hbounds H)).
Defined.

(** C8, as the specification words it: half a second of remaining lifetime
    is a strictly positive duration, yet nothing is written; and with a
    second and a half remaining the stored time-to-live is one second, not
    the remaining lifetime. *)
Lemma cache_refresh_token_subsecond :
  0 < 1500000 - 1000000
  /\ cache_refresh_token ∅ (token_hash sample_row) 7%N None 1500000 1000000 1000000 = ∅
  /\ (ttl <$> cache_refresh_token ∅ (token_hash sample_row) 7%N None 2500000 1000000 1000000
              !! refresh_key (token_hash sample_row)) = Some 1
  /\ seconds 1 <> 2500000 - 1000000.
Proof.
  split; [lia|]. split; [reflexivity|]. split; [|unfold seconds; lia].
  vm_compute. reflexivity.
Qed.

(** ** Revocation never reverts *)

Lemma keeps_revoked_set_revoked now : keeps_revoked (set_revoked now).
Proof. intros r. by split. Qed.

Lemma keeps_revoked_revoke rb now :
  keeps_revoked (fun r => set_replaced_by rb (set_revoked now r)).
Proof. intros r. by split. Qed.

Lemma keeps_revoked_set_parent p now : keeps_revoked (set_parent p now).
Proof. intros r. by split. Qed.

Create HintDb ledger.
#[local] Hint Resolve keeps_revoked_set_revoked keeps_revoked_revoke
  keeps_revoked_set_parent : ledger.

(** Under the primary-key constraint a row is determined by its id. *)
Lemma same_id_same_row (l : ledger) r r' :
  NoDup (map id l) -> r ∈ l -> r' ∈ l -> id r' = id r -> r' = r.
Proof.
  intros Hnd Hr Hr' Hid.
  pose proof (find_by_unique id l r Hnd Hr) as H1.
  pose proof (find_by_unique id l r' Hnd Hr') as H2.
  rewrite Hid in H2. congruence.
Qed.

Lemma revoked_kept_refl l : NoDup (map id l) -> revoked_kept l l.
Proof.
  intros Hnd r r' Hr Hr' Hid Hrev.
  by rewrite (same_id_same_row l r r' Hnd Hr Hr' Hid).
Qed.

Lemma revoked_kept_update cond set l :
  NoDup (map id l) -> keeps_revoked set ->
  revoked_kept l (fst (update_where cond set l)).
Proof.
  intros Hnd Hset r r' Hr Hr' Hid Hrev. cbn in Hr'.
  apply list_elem_of_fmap in Hr' as (r0 & -> & Hr0).
  assert (id r0 = id r) as Hid0.
  { destruct (cond r0); [|done]. by rewrite <- (proj1 (Hset r0)). }
  rewrite (same_id_same_row l r r0 Hnd Hr Hr0 Hid0).
  destruct (cond r); [by apply Hset | done].
Qed.

Lemma revoked_kept_filter (keep : RefreshToken -> bool) l :
  NoDup (map id l) -> revoked_kept l (List.filter keep l).
Proof.
  intros Hnd r r' Hr Hr' Hid Hrev.
  apply list_elem_of_In, filter_In in Hr' as [Hr' _]. apply list_elem_of_In in Hr'.
  by rewrite (same_id_same_row l r r' Hnd Hr Hr' Hid).
Qed.

(** An INSERT of values that fit their columns, with a free key and hash and
    for a known user, is accepted and stores the values as given. *)
Lemma create_token_Some us l new_id user h dev dname ua ip delta parent now :
  fresh_in l new_id h ->
  fits 64 h = true -> client_columns_fit dev dname ua ip = true ->
  is_Some (us !! user) ->
  create_token us l new_id user h dev dname ua ip delta parent now
  = Some (l ++ [new_token new_id user h dev dname ua ip (now + delta) parent now],
          new_token new_id user h dev dname ua ip (now + delta) parent now).
Proof.
  intros Hfresh Hh Hc Hu. unfold create_token, client_columns_fit in *.
  apply andb_true_iff in Hc as [Hc Hip]. apply andb_true_iff in Hc as [Hc Hua].
  apply andb_true_iff in Hc as [Hdev Hdname].
  rewrite (varchar_fits _ _ Hh), (varchar_null_fits _ _ Hdev),
    (varchar_null_fits _ _ Hdname), (varchar_null_fits _ _ Hua),
    (varchar_null_fits _ _ Hip).
  destruct (existsb _ l) eqn:E.
  - apply existsb_exists in E as (r & Hr & Hcond). apply list_elem_of_In in Hr.
    destruct (Hfresh r Hr) as [H1 H2].
    apply orb_true_iff in Hcond as [Hcond|Hcond]; by apply bool_decide_eq_true in Hcond.
  - by rewrite bool_decide_eq_true_2.
Qed.

Lemma existsb_false {A} (f : A -> bool) (l : list A) :
  existsb f l = false -> forall x, x ∈ l -> f x = false.
Proof.
  induction l as [|a l IH]; intros H x Hx; [by apply elem_of_nil in Hx|].
  cbn in H. apply orb_false_iff in H as [Ha Hl].
  apply elem_of_cons in Hx as [->|Hx]; [done | by apply IH].
Qed.

(** What an accepted INSERT tells: every value was accepted by its column,
    the row holds the values as stored, key and stored hash were free, and
    the user is known. *)
Lemma create_token_fresh us l new_id user h dev dname ua ip delta parent now l' tok :
  create_token us l new_id user h dev dname ua ip delta parent now = Some (l', tok) ->
  exists h' dev' dname' ua' ip',
    varchar 64 h = Some h' /\ varchar_null 255 dev = Some dev'
    /\ varchar_null 255 dname = Some dname' /\ varchar_null 500 ua = Some ua'
    /\ varchar_null 45 ip = Some ip'
    /\ tok = new_token new_id user h' dev' dname' ua' ip' (now + delta) parent now
    /\ l' = l ++ [tok] /\ fresh_in l new_id h' /\ is_Some (us !! user).
Proof.
  unfold create_token.
  destruct (varchar 64 h) as [h'|]; [|done].
  destruct (varchar_null 255 dev) as [dev'|]; [|done].
  destruct (varchar_null 255 dname) as [dname'|]; [|done].
  destruct (varchar_null 500 ua) as [ua'|]; [|done].
  destruct (varchar_null 45 ip) as [ip'|]; [|done].
  destruct (existsb _ l) eqn:E; [done|].
  case_bool_decide as Hu; [|done]. intros [= <- <-].
  exists h', dev', dname', ua', ip'. do 7 (split; [done|]). split; [|done].
  intros r Hr.
  pose proof (existsb_false _ _ E r Hr) as Hn. cbn in Hn.
  apply orb_false_iff in Hn as [Hn1 Hn2].
  apply bool_decide_eq_false in Hn1, Hn2. by split.
Qed.

(** C9: a run of any repository operation leaves every revoked record that
    is still in the table revoked. *)
Theorem revocation_never_reverts (us : gmap uuid User) (op : LedgerOp)
    (now : datetime) (l : ledger) (r r' : RefreshToken) :
  NoDup (map id l) ->
  r ∈ l -> is_revoked r = true ->
  r' ∈ ledger_after us op now l -> id r' = id r ->
  is_revoked r' = true.
Proof.
  intros Hnd Hr Hrev Hr' Hid.
  assert (Hgoal : revoked_kept l (ledger_after us op now l)); [|by eapply Hgoal].
  clear r r' Hr Hrev Hr' Hid.
  destruct op; cbn [ledger_after]; try by apply revoked_kept_refl.
  - destruct (create_token _ _ _ _ _ _ _ _ _ _ _ _) as [[l' tok]|] eqn:E;
      [|by apply revoked_kept_refl].
    apply create_token_fresh in E
      as (h' & dev' & dname' & ua' & ip' & _ & _ & _ & _ & _ & -> & -> & Hfresh & _).
    intros r r' Hr Hr' Hidr Hrev.
    apply elem_of_app in Hr' as [Hr'|Hr'].
    + by rewrite (same_id_same_row l r r' Hnd Hr Hr' Hidr).
    + apply list_elem_of_singleton in Hr'. subst r'.
      destruct (Hfresh r Hr) as [Hne _]. by destruct Hne.
  - unfold update_parent. apply revoked_kept_update; auto with ledger.
  - rewrite revoke_token_rows.
    apply (revoked_kept_update (fun r => bool_decide (id r = token_id))); auto with ledger.
  - unfold revoke_token_chain.
    destruct (get l token_id); [|by apply revoked_kept_refl].
    destruct (chain_walk _ _ _) as [[|c cs]|]; try by apply revoked_kept_refl.
    apply revoked_kept_update; auto with ledger.
  - unfold revoke_all_user_tokens. apply revoked_kept_update; auto with ledger.
  - unfold revoke_device_tokens. apply revoked_kept_update; auto with ledger.
  - cbn. by apply revoked_kept_filter.
Qed.

Lemma NoDup_map_filter (keep : RefreshToken -> bool) (l : ledger) :
  NoDup (map id l) -> NoDup (map id (List.filter keep l)).
Proof.
  induction l as [|a l IH]; [done|]. cbn. intros H.
  apply NoDup_cons in H as [Ha Hnd].
  destruct (keep a); [|by apply IH]. cbn. apply NoDup_cons. split; [|by apply IH].
  intros Hin. apply Ha.
  apply list_elem_of_fmap in Hin as (r & -> & Hr).
  apply list_elem_of_In, filter_In in Hr as [Hr _].
  apply list_elem_of_fmap. exists r. split; [done | by apply list_elem_of_In].
Qed.

(** The primary-key constraint itself survives every operation, so the
    statement above applies again to the table an operation leaves. *)
Lemma map_id_update (cond : RefreshToken -> bool) (set : RefreshToken -> RefreshToken)
    (l : ledger) :
  (forall r, id (set r) = id r) ->
  map id (map (fun r => if cond r then set r else r) l) = map id l.
Proof.
  intros Hset. rewrite map_map. apply map_ext.
  intros r. destruct (cond r); [apply Hset | done].
Qed.

Lemma ledger_after_ids_unique (us : gmap uuid User) (op : LedgerOp) (now : datetime)
    (l : ledger) :
  NoDup (map id l) -> NoDup (map id (ledger_after us op now l)).
Proof.
  intros Hnd. destruct op; cbn [ledger_after]; try done.
  - destruct (create_token _ _ _ _ _ _ _ _ _ _ _ _) as [[l' tok]|] eqn:E; [|done].
    apply create_token_fresh in E
      as (h' & dev' & dname' & ua' & ip' & _ & _ & _ & _ & _ & -> & -> & Hfresh & _).
    rewrite map_app. cbn. apply NoDup_app. split; [done|]. split; [|apply NoDup_singleton].
    intros x Hx Hx'. apply list_elem_of_singleton in Hx'. subst x.
    apply list_elem_of_fmap in Hx as (r & Hid & Hr). by destruct (Hfresh r Hr).
  - unfold update_parent, update_where. cbn [fst]. by rewrite map_id_update.
  - rewrite revoke_token_rows. by rewrite map_id_update.
  - unfold revoke_token_chain.
    destruct (get l token_id); [|done].
    destruct (chain_walk _ _ _) as [[|c cs]|]; try done.
    unfold update_where. by rewrite map_id_update.
  - unfold revoke_all_user_tokens, update_where. cbn [fst]. by rewrite map_id_update.
  - unfold revoke_device_tokens, update_where. cbn [fst]. by rewrite map_id_update.
  - cbn. by apply NoDup_map_filter.
Qed.

(** ** Chain revocation *)


Section Chain.
Variable l : ledger.
Hypothesis ids_unique : NoDup (map id l).
Hypothesis ordered : chain_ordered l.

Lemma get_Some_lookup x r : get l x = Some r -> id r = x /\ exists j, l !! j = Some r.
Proof.
  rewrite get_find_by. intros H. apply find_by_Some in H as [Hin Hid].
  split; [done|]. by apply list_elem_of_lookup.
Qed.

Lemma rows_unique : NoDup l.
Proof. exact (NoDup_fmap_1 id l ids_unique). Qed.

(** Every row on the path sits strictly before the row the walk started
    from. *)
Lemma parent_path_older c path i :
  parent_path l c path -> l !! i = Some c ->
  forall p, p ∈ path -> exists j, (j < i)%nat /\ l !! j = Some p.
Proof.
  intros Hpath. revert i.
  induction Hpath as [c Hc|c pid Hc Hg|c pid p rest Hc Hg Hrest IH]; intros i Hi q Hq.
  - by apply elem_of_nil in Hq.
  - by apply elem_of_nil in Hq.
  - apply get_Some_lookup in Hg as [Hid [j Hj]]. subst pid.
    pose proof (ordered i j c p Hi Hj Hc) as Hlt.
    apply elem_of_cons in Hq as [->|Hq]; [by exists j|].
    destruct (IH j Hj q Hq) as (k & Hk & Hlk). exists k. split; [lia|done].
Qed.

Lemma parent_path_in c path i :
  parent_path l c path -> l !! i = Some c -> forall p, p ∈ path -> p ∈ l.
Proof.
  intros Hpath Hi p Hp.
  destruct (parent_path_older c path i Hpath Hi p Hp) as (j & _ & Hj).
  apply list_elem_of_lookup. by exists j.
Qed.

Lemma parent_path_distinct c path i :
  parent_path l c path -> l !! i = Some c -> NoDup (map id path).
Proof.
  intros Hpath. revert i.
  induction Hpath as [c Hc|c pid Hc Hg|c pid p rest Hc Hg Hrest IH]; intros i Hi.
  - apply NoDup_nil_2.
  - apply NoDup_nil_2.
  - destruct (get_Some_lookup _ _ Hg) as [Hid [j Hj]].
    cbn. apply NoDup_cons. split; [|by apply (IH j)].
    intros Hin. apply list_elem_of_fmap in Hin as (q & Hq & Hqin).
    destruct (parent_path_older p rest j Hrest Hj q Hqin) as (k & Hk & Hlk).
    assert (q = p).
    { apply (same_id_same_row l); auto.
      - apply list_elem_of_lookup. by exists j.
      - apply list_elem_of_lookup. by exists k. }
    subst q. pose proof (NoDup_lookup l k j p rows_unique Hlk Hj). lia.
Qed.

(** With one unit of fuel per row before the starting one, the loop ends
    and has collected the ids of the path. *)
Lemma chain_walk_path fuel : forall c i,
  l !! i = Some c -> (i <= fuel)%nat ->
  exists path, parent_path l c path /\ chain_walk fuel l c = Some (map id path).
Proof.
  induction fuel as [|fuel IH]; intros c i Hi Hfuel.
  - cbn. destruct (parent_token_id c) as [pid|] eqn:Hc.
    + destruct (get l pid) as [p|] eqn:Hg.
      * destruct (get_Some_lookup _ _ Hg) as [Hid [j Hj]]. subst pid.
        pose proof (ordered i j c p Hi Hj Hc). lia.
      * exists []. split; [by eapply path_dangling | done].
    + exists []. split; [by apply path_root | done].
  - cbn. destruct (parent_token_id c) as [pid|] eqn:Hc.
    + destruct (get l pid) as [p|] eqn:Hg.
      * destruct (get_Some_lookup _ _ Hg) as [Hid [j Hj]]. subst pid.
        pose proof (ordered i j c p Hi Hj Hc) as Hlt.
        destruct (IH p j Hj) as (rest & Hrest & Hwalk); [lia|].
        exists (p :: rest). split; [by eapply path_step|].
        by rewrite Hwalk.
      * exists []. split; [by eapply path_dangling | done].
    + exists []. split; [by apply path_root | done].
Qed.

(** For rows of the table, being on the path and carrying the id of a row
    on the path are the same. *)
Lemma on_path_iff c path i r :
  parent_path l c path -> l !! i = Some c -> r ∈ l ->
  id r ∈ map id path <-> r ∈ path.
Proof.
  intros Hpath Hi Hr. split.
  - intros Hin. apply list_elem_of_fmap in Hin as (q & Hq & Hqin).
    assert (r = q) as ->; [|done].
    apply (same_id_same_row l); auto.
    by eapply parent_path_in.
  - intros Hin. apply list_elem_of_fmap. by exists r.
Qed.

(** The UPDATE over the collected ids touches as many rows as the path
    has. *)
Lemma chain_rowcount c path i :
  parent_path l c path -> l !! i = Some c ->
  length (List.filter (fun r => bool_decide (id r ∈ map id path)) l) = length path.
Proof.
  intros Hpath Hi.
  rewrite <- (length_map id path), <- (length_map id (List.filter _ l)).
  apply Permutation_length, NoDup_Permutation.
  - by apply NoDup_map_filter.
  - by eapply parent_path_distinct.
  - intros x. split.
    + intros Hx. apply list_elem_of_fmap in Hx as (r & -> & Hr).
      apply list_elem_of_In, filter_In in Hr as [_ Hr].
      by apply bool_decide_eq_true in Hr.
    + intros Hx. pose proof Hx as Hx'.
      apply list_elem_of_fmap in Hx' as (p & -> & Hp).
      apply list_elem_of_fmap. exists p. split; [done|].
      apply list_elem_of_In, filter_In. split.
      * apply list_elem_of_In. by eapply parent_path_in.
      * by apply bool_decide_eq_true.
Qed.

End Chain.

(** What [revoke_token_chain] amounts to: one UPDATE over the ids of the
    path, which matches nothing when the path is empty. *)
Lemma revoke_token_chain_update (l : ledger) (token_id : uuid) (now : datetime) start :
  NoDup (map id l) -> chain_ordered l ->
  get l token_id = Some start ->
  exists chain,
    parent_path l start chain
    /\ (exists i, l !! i = Some start)
    /\ revoke_token_chain l token_id now
       = Some (update_where (fun r => bool_decide (id r ∈ map id chain))
                            (set_revoked now) l).
Proof.
  intros Hnd Hord Hg.
  destruct (get_Some_lookup l _ _ Hg) as [_ [i Hi]].
  pose proof (lookup_lt_Some _ _ _ Hi) as Hlen.
  destruct (chain_walk_path l Hord (length l) start i Hi) as (chain & Hpath & Hwalk); [lia|].
  exists chain. split; [done|]. split; [by exists i|].
  unfold revoke_token_chain. rewrite Hg, Hwalk.
  destruct chain as [|p rest]; [|done].
  cbn [map]. rewrite update_where_none; [done|].
  intros r _. apply bool_decide_eq_false_2. apply not_elem_of_nil.
Qed.

(** C5: from the given record, [revoke_token_chain] follows
    [parent_token_id] backward for as long as the pointer is set and its
    lookup succeeds, marks exactly the records met revoked ([is_revoked]
    true, [revoked_at] the instant of the call, whatever they were before),
    returns their number, and touches neither the starting record nor any
    record rotated from it.  An unknown id touches nothing and returns
    zero. *)
Theorem revoke_token_chain_ancestors (l : ledger) (token_id : uuid) (now : datetime) :
  NoDup (map id l) -> chain_ordered l ->
  (get l token_id = None -> revoke_token_chain l token_id now = Some (l, 0))
  /\ (forall start, get l token_id = Some start ->
      exists chain l',
        parent_path l start chain
        /\ revoke_token_chain l token_id now = Some (l', Z.of_nat (length chain))
        /\ length l' = length l
        /\ (forall i r, l !! i = Some r ->
              (r ∈ chain ->
               exists r', l' !! i = Some r' /\ r' = set_revoked now r
                 /\ is_revoked r' = true /\ revoked_at r' = Some now
                 /\ id r' = id r /\ user_id r' = user_id r
                 /\ token_hash r' = token_hash r /\ expires_at r' = expires_at r
                 /\ replaced_by_id r' = replaced_by_id r
                 /\ parent_token_id r' = parent_token_id r)
              /\ (r ∉ chain -> l' !! i = Some r))
        /\ (forall r', r' ∈ l' -> (exists a, a ∈ chain /\ id r' = id a) ->
              is_revoked r' = true /\ revoked_at r' = Some now)
        /\ (start ∉ chain)
        /\ (forall d, d ∈ l -> descendant_of l d start -> d ∉ chain)).
Proof.
  intros Hnd Hord. split.
  { intros Hg. unfold revoke_token_chain. by rewrite Hg. }
  intros start Hg.
  destruct (revoke_token_chain_update l token_id now start Hnd Hord Hg)
    as (chain & Hpath & [i Hi] & Hrun).
  exists chain, (fst (update_where (fun r => bool_decide (id r ∈ map id chain))
                                   (set_revoked now) l)).
  split; [done|]. split.
  { rewrite Hrun. unfold update_where. cbn [fst]. do 3 f_equal.
    by apply (chain_rowcount l Hnd Hord start chain i). }
  split; [apply update_where_length|]. split.
  { intros k r Hk.
    assert (Hr : r ∈ l) by (apply list_elem_of_lookup; by exists k).
    pose proof (on_path_iff l Hnd Hord start chain i r Hpath Hi Hr) as Hiff.
    rewrite update_where_lookup, Hk. cbn. split; intros Hin.
    - rewrite bool_decide_eq_true_2 by (by apply Hiff).
      exists (set_revoked now r). by repeat split.
    - rewrite bool_decide_eq_false_2; [done | by rewrite Hiff]. }
  assert (Hrows : NoDup l) by (by apply rows_unique).
  split.
  { intros r' Hr' (a & Ha & Hida). cbn [fst update_where] in Hr'.
    apply list_elem_of_fmap in Hr' as (r & -> & Hr).
    assert (Hidr : id (if bool_decide (id r ∈ map id chain)
                        then set_revoked now r else r) = id r)
      by (by destruct (bool_decide _)).
    rewrite Hidr in Hida.
    rewrite bool_decide_eq_true_2; [done|].
    rewrite Hida. apply list_elem_of_fmap. by exists a. }
  split.
  { intros Hin.
    destruct (parent_path_older l Hord start chain i Hpath Hi start Hin) as (j & Hj & Hlj).
    pose proof (NoDup_lookup l j i start Hrows Hlj Hi). lia. }
  intros d Hd (path & Hdpath & Hstart) Hin.
  apply list_elem_of_lookup in Hd as [k Hk].
  destruct (parent_path_older l Hord d path k Hdpath Hk start Hstart) as (j & Hj & Hlj).
  pose proof (NoDup_lookup l j i start Hrows Hlj Hi). subst j.
  destruct (parent_path_older l Hord start chain i Hpath Hi d Hin) as (m & Hm & Hlm).
  pose proof (NoDup_lookup l m k d Hrows Hlm Hk). lia.
Qed.

(** ** Rotation *)

Lemma find_by_map {K : Type} `{EqDecision K} (key : RefreshToken -> K)
    (f : RefreshToken -> RefreshToken) (l : ledger) (k : K) :
  (forall r, key (f r) = key r) ->
  find_by key (map f l) k = f <$> find_by key l k.
Proof.
  intros Hf. unfold find_by. induction l as [|a l IH]; [done|].
  cbn. rewrite Hf. destruct (bool_decide (key a = k)); [done | apply IH].
Qed.

Lemma find_by_singleton {K : Type} `{EqDecision K} (key : RefreshToken -> K) r k :
  key r = k -> find_by key [r] k = Some r.
Proof. intros Hk. unfold find_by. cbn. by rewrite bool_decide_eq_true_2. Qed.

Lemma fresh_in_lookups l new_id h :
  fresh_in l new_id h -> get l new_id = None /\ get_by_token_hash l h = None.
Proof.
  intros Hfresh. rewrite get_find_by, get_by_token_hash_find_by. split.
  - apply find_by_None. intros r Hr. by destruct (Hfresh r Hr).
  - apply find_by_None. intros r Hr. by destruct (Hfresh r Hr).
Qed.

(** Issuing a pair for a known user, with a fresh key and a fresh hash and
    client values that fit their columns, appends the new row and writes the
    cache.  The row's expiry counts from the reading of [create_token], the
    cached one from the reading of the service, and the time-to-live from
    the reading of the cache helper. *)
Lemma create_token_pair_run user dev dname ua ip ck new_secret new_id w :
  fresh_in (tokens w) new_id (hash_token new_secret) ->
  client_columns_fit dev dname ua ip = true ->
  is_Some (users w !! uid user) ->
  create_token_pair user dev dname ua ip ck new_secret new_id w
  = ({| tokens := tokens w
                  ++ [new_token new_id (uid user) (hash_token new_secret) dev dname ua ip
                        (at_insert ck + days REFRESH_TOKEN_EXPIRE_DAYS) None
                        (at_insert ck)];
        users := users w;
        cache := cache_refresh_token (cache w) (hash_token new_secret) (uid user) dev
                   (at_expiry ck + days REFRESH_TOKEN_EXPIRE_DAYS)
                   (at_cache ck) (at_redis_set ck) |},
     Return {| access_token := create_access_token (uid user) (at_access ck);
               refresh_token := new_secret; token_type := "bearer" |}).
Proof.
  intros Hfresh Hfit Hu. unfold create_token_pair, bind, gets.
  rewrite (create_token_Some (users w) _ _ _ _ _ _ _ _ _ _ _ Hfresh
             (hash_token_fits new_secret) Hfit Hu).
  reflexivity.
Qed.

(** A refused INSERT raises and nothing is written: a [DBAPIError] when a
    value is not accepted by its column, else an [IntegrityError]. *)
Lemma create_token_pair_refused user dev dname ua ip ck new_secret new_id w :
  create_token (users w) (tokens w) new_id (uid user) (hash_token new_secret)
    dev dname ua ip (days REFRESH_TOKEN_EXPIRE_DAYS) None (at_insert ck) = None ->
  create_token_pair user dev dname ua ip ck new_secret new_id w
  = (w, Raise (if values_accepted (hash_token new_secret) dev dname ua ip
               then IntegrityError else DBAPIError)).
Proof. intros Hc. unfold create_token_pair, bind, gets. by rewrite Hc. Qed.

Lemma create_token_stored_hash us l new_id user secret dev dname ua ip delta parent now
    l' tok :
  create_token us l new_id user (hash_token secret) dev dname ua ip delta parent now
  = Some (l', tok) ->
  token_hash tok = hash_token secret /\ id tok = new_id /\ l' = l ++ [tok]
  /\ fresh_in l new_id (hash_token secret) /\ is_Some (us !! user)
  /\ parent_token_id tok = parent /\ is_revoked tok = false.
Proof.
  intros E. apply create_token_fresh in E
    as (h' & dev' & dname' & ua' & ip' & Hh & _ & _ & _ & _ & -> & -> & Hfresh & Hu).
  rewrite (varchar_fits _ _ (hash_token_fits secret)) in Hh. injection Hh as <-.
  done.
Qed.

(** A taken key or hash makes the INSERT fail and nothing is written. *)
Lemma create_token_pair_conflict user dev dname ua ip ck new_secret new_id w :
  ~ fresh_in (tokens w) new_id (hash_token new_secret) ->
  create_token_pair user dev dname ua ip ck new_secret new_id w
  = (w, Raise (if values_accepted (hash_token new_secret) dev dname ua ip
               then IntegrityError else DBAPIError)).
Proof.
  intros Hn. apply create_token_pair_refused.
  destruct (create_token _ _ _ _ _ _ _ _ _ _ _ _) as [[l' tok]|] eqn:E; [|done].
  apply create_token_stored_hash in E as (_ & _ & _ & Hfresh & _). done.
Qed.

(** A client value that its column does not accept makes the INSERT fail
    with a [DBAPIError], whatever else holds, and nothing is written. *)
Lemma create_token_pair_rejected_value user dev dname ua ip ck new_secret new_id w :
  values_accepted (hash_token new_secret) dev dname ua ip = false ->
  create_token_pair user dev dname ua ip ck new_secret new_id w = (w, Raise DBAPIError).
Proof.
  intros Hv. unfold create_token_pair, bind, gets. rewrite Hv.
  destruct (create_token _ _ _ _ _ _ _ _ _ _ _ _) as [[l' tok]|] eqn:E; [|done].
  apply create_token_fresh in E
    as (h' & dev' & dname' & ua' & ip' & H1 & H2 & H3 & H4 & H5 & _).
  unfold values_accepted in Hv. rewrite H1, H2, H3, H4, H5 in Hv.
  rewrite !bool_decide_eq_true_2 in Hv by eauto. done.
Qed.

(** The checks pass for a valid token of an active user, and write
    nothing. *)
Lemma refresh_validate_valid secret ck w old owner :
  is_token_valid (tokens w) (hash_token secret) (at_check ck) = true ->
  get_by_token_hash (tokens w) (hash_token secret) = Some old ->
  users w !! user_id old = Some owner -> is_active owner = true ->
  refresh_validate secret ck w = (w, Return (old, owner)).
Proof.
  intros Hvalid Hold Howner Hactive. unfold refresh_validate, bind, gets.
  destruct (get_cached_token _ _ _); rewrite Hvalid; cbn;
    by rewrite Hold, Howner, Hactive.
Qed.

(** Presenting the secret of a revoked record runs the chain revocation and
    raises the reuse error. *)
Lemma refresh_validate_reuse secret ck w old l' n :
  get_by_token_hash (tokens w) (hash_token secret) = Some old ->
  is_revoked old = true ->
  revoke_token_chain (tokens w) (id old) (at_chain ck) = Some (l', n) ->
  exists c',
    refresh_validate secret ck w
    = ({| tokens := l'; users := users w; cache := c' |},
       Raise (AuthenticationError msg_revoked)).
Proof.
  intros Hold Hrev Hchain. unfold refresh_validate, bind, gets.
  assert (Hvalid : is_token_valid (tokens w) (hash_token secret) (at_check ck) = false).
  { unfold is_token_valid. by rewrite Hold, Hrev. }
  destruct (get_cached_token _ _ _); rewrite Hvalid, Hold, Hrev, Hchain; cbn; eauto.
Qed.

Lemma update_parent_app_fresh l tok p now :
  get l (id tok) = None ->
  update_parent (l ++ [tok]) tok p now = l ++ [set_parent (Some p) now tok].
Proof.
  intros Hg. unfold update_parent, update_where. cbn [fst].
  rewrite map_app. cbn. rewrite bool_decide_eq_true_2 by done. f_equal.
  rewrite get_find_by in Hg.
  pose proof (proj1 (find_by_None id l (id tok)) Hg) as Hne.
  clear Hg. induction l as [|a l IH]; [done|]. cbn.
  rewrite bool_decide_eq_false_2 by (apply Hne; by left).
  f_equal. apply IH. intros r Hr. apply Hne. by right.
Qed.

Lemma revoke_token_app_other l tok token_id rb now :
  id tok <> token_id ->
  fst (revoke_token (l ++ [tok]) token_id rb now)
  = fst (revoke_token l token_id rb now) ++ [tok].
Proof.
  intros Hne. rewrite !revoke_token_rows, map_app. cbn.
  by rewrite bool_decide_eq_false_2.
Qed.

(** An accepted INSERT is followed by the cache write and the pair. *)
Lemma create_token_pair_inserted user dev dname ua ip ck new_secret new_id w l' tok :
  create_token (users w) (tokens w) new_id (uid user) (hash_token new_secret)
    dev dname ua ip (days REFRESH_TOKEN_EXPIRE_DAYS) None (at_insert ck) = Some (l', tok) ->
  create_token_pair user dev dname ua ip ck new_secret new_id w
  = ({| tokens := l'; users := users w;
        cache := cache_refresh_token (cache w) (hash_token new_secret) (uid user) dev
                   (at_expiry ck + days REFRESH_TOKEN_EXPIRE_DAYS)
                   (at_cache ck) (at_redis_set ck) |},
     Return {| access_token := create_access_token (uid user) (at_access ck);
               refresh_token := new_secret; token_type := "bearer" |}).
Proof. intros Hc. unfold create_token_pair, bind, gets. by rewrite Hc. Qed.

(** The second half of a rotation never fails once the INSERT is accepted:
    it appends the new row, links it to the caller's record, and revokes
    every row carrying that record's id. *)
Lemma refresh_issue_inserted secret old owner dev dname ua ip ck new_secret new_id w
    l' tok :
  rotation_insert w old owner dev dname ua ip ck new_secret new_id = Some (l', tok) ->
  id old <> new_id ->
  exists c',
    refresh_issue secret old owner dev dname ua ip ck new_secret new_id w
    = ({| tokens := fst (revoke_token (tokens w) (id old) (Some new_id) (at_revoke ck))
                    ++ [set_parent (Some (id old)) (at_link ck) tok];
          users := users w; cache := c' |},
       Return {| access_token := create_access_token (uid owner) (at_access (at_pair ck));
                 refresh_token := new_secret; token_type := "bearer" |}).
Proof.
  intros Hins Hne. unfold refresh_issue, bind. unfold rotation_insert in Hins.
  rewrite (create_token_pair_inserted _ _ _ _ _ _ _ _ _ _ _ Hins).
  apply create_token_stored_hash in Hins as (Hh & Hid & -> & Hfresh & _).
  unfold gets. cbn [tokens users cache refresh_token access_token].
  destruct (fresh_in_lookups _ _ _ Hfresh) as [Hgid Hgh].
  assert (Hfind : get_by_token_hash (tokens w ++ [tok]) (hash_token new_secret) = Some tok).
  { rewrite get_by_token_hash_find_by, find_by_app_r by done.
    by apply find_by_singleton. }
  rewrite Hfind. unfold put_tokens, put_cache, ret.
  cbn [tokens users cache fmap option_fmap option_map].
  rewrite update_parent_app_fresh by (by rewrite Hid).
  rewrite revoke_token_app_other by (cbn; congruence).
  rewrite Hid. eauto.
Qed.

Lemma rotation_insert_fits w old owner dev dname ua ip ck new_secret new_id :
  fresh_in (tokens w) new_id (hash_token new_secret) ->
  rotation_columns_fit dev dname ua ip old = true ->
  is_Some (users w !! uid owner) ->
  rotation_insert w old owner dev dname ua ip ck new_secret new_id
  = Some (tokens w
          ++ [new_token new_id (uid owner) (hash_token new_secret)
                (or_else dev (device_id old)) (or_else dname (device_name old)) ua ip
                (at_insert (at_pair ck) + days REFRESH_TOKEN_EXPIRE_DAYS) None
                (at_insert (at_pair ck))],
          new_token new_id (uid owner) (hash_token new_secret)
            (or_else dev (device_id old)) (or_else dname (device_name old)) ua ip
            (at_insert (at_pair ck) + days REFRESH_TOKEN_EXPIRE_DAYS) None
            (at_insert (at_pair ck))).
Proof.
  intros Hfresh Hfit Hknown. unfold rotation_insert.
  apply create_token_Some; [done | apply hash_token_fits | done | done].
Qed.

(** The same when the client values fit their columns and the owner is
    known: the row holds the values as given. *)
Lemma refresh_issue_run secret old owner dev dname ua ip ck new_secret new_id w :
  fresh_in (tokens w) new_id (hash_token new_secret) ->
  id old <> new_id ->
  rotation_columns_fit dev dname ua ip old = true ->
  is_Some (users w !! uid owner) ->
  exists c',
    refresh_issue secret old owner dev dname ua ip ck new_secret new_id w
    = ({| tokens := fst (revoke_token (tokens w) (id old) (Some new_id) (at_revoke ck))
                    ++ [set_parent (Some (id old)) (at_link ck)
                          (new_token new_id (uid owner) (hash_token new_secret)
                             (or_else dev (device_id old)) (or_else dname (device_name old))
                             ua ip
                             (at_insert (at_pair ck) + days REFRESH_TOKEN_EXPIRE_DAYS)
                             None (at_insert (at_pair ck)))];
          users := users w; cache := c' |},
       Return {| access_token := create_access_token (uid owner) (at_access (at_pair ck));
                 refresh_token := new_secret; token_type := "bearer" |}).
Proof.
  intros Hfresh Hne Hfit Hknown.
  exact (refresh_issue_inserted secret old owner dev dname ua ip ck new_secret new_id w
           _ _ (rotation_insert_fits w old owner dev dname ua ip ck new_secret new_id
                  Hfresh Hfit Hknown) Hne).
Qed.

(** A rotation for a valid token of an active user whose INSERT is
    accepted, in full. *)
Lemma refresh_access_token_inserted w secret dev dname ua ip ck new_secret new_id
    old owner l' tok :
  is_token_valid (tokens w) (hash_token secret) (at_check ck) = true ->
  get_by_token_hash (tokens w) (hash_token secret) = Some old ->
  users w !! user_id old = Some owner -> is_active owner = true ->
  rotation_insert w old owner dev dname ua ip ck new_secret new_id = Some (l', tok) ->
  exists c',
    refresh_access_token secret dev dname ua ip ck new_secret new_id w
    = ({| tokens := fst (revoke_token (tokens w) (id old) (Some new_id) (at_revoke ck))
                    ++ [set_parent (Some (id old)) (at_link ck) tok];
          users := users w; cache := c' |},
       Return {| access_token := create_access_token (uid owner) (at_access (at_pair ck));
                 refresh_token := new_secret; token_type := "bearer" |}).
Proof.
  intros Hvalid Hold Howner Hactive Hins.
  unfold refresh_access_token, bind.
  rewrite (refresh_validate_valid _ _ _ _ _ Hvalid Hold Howner Hactive). cbn [fst snd].
  apply (refresh_issue_inserted _ _ _ _ _ _ _ _ _ _ _ l' tok Hins).
  pose proof Hins as Hins'. unfold rotation_insert in Hins'.
  apply create_token_stored_hash in Hins' as (_ & _ & _ & Hfresh & _).
  rewrite get_by_token_hash_find_by in Hold. apply find_by_Some in Hold as [Hin _].
  by destruct (Hfresh old Hin).
Qed.

Lemma refresh_access_token_run w secret dev dname ua ip ck new_secret new_id old owner :
  is_token_valid (tokens w) (hash_token secret) (at_check ck) = true ->
  get_by_token_hash (tokens w) (hash_token secret) = Some old ->
  users w !! user_id old = Some owner -> is_active owner = true ->
  uid owner = user_id old ->
  rotation_columns_fit dev dname ua ip old = true ->
  fresh_in (tokens w) new_id (hash_token new_secret) ->
  exists c',
    refresh_access_token secret dev dname ua ip ck new_secret new_id w
    = ({| tokens := fst (revoke_token (tokens w) (id old) (Some new_id) (at_revoke ck))
                    ++ [set_parent (Some (id old)) (at_link ck)
                          (new_token new_id (uid owner) (hash_token new_secret)
                             (or_else dev (device_id old)) (or_else dname (device_name old))
                             ua ip
                             (at_insert (at_pair ck) + days REFRESH_TOKEN_EXPIRE_DAYS)
                             None (at_insert (at_pair ck)))];
          users := users w; cache := c' |},
       Return {| access_token := create_access_token (uid owner) (at_access (at_pair ck));
                 refresh_token := new_secret; token_type := "bearer" |}).
Proof.
  intros Hvalid Hold Howner Hactive Hkey Hfit Hfresh.
  assert (Hknown : is_Some (users w !! uid owner)) by (by rewrite Hkey, Howner).
  exact (refresh_access_token_inserted w secret dev dname ua ip ck new_secret new_id
           old owner _ _ Hvalid Hold Howner Hactive
           (rotation_insert_fits w old owner dev dname ua ip ck new_secret new_id
              Hfresh Hfit Hknown)).
Qed.

(** The records a rotation leaves behind, looked up by hash and by key. *)
Lemma rotation_post (w : World) (secret : string)
    (dev dname ua ip : option string) (ck : RefreshClock)
    (new_secret : string) (new_id : uuid) (old : RefreshToken) (owner : User)
    (l' : ledger) (tok : RefreshToken) :
  is_token_valid (tokens w) (hash_token secret) (at_check ck) = true ->
  get_by_token_hash (tokens w) (hash_token secret) = Some old ->
  users w !! user_id old = Some owner -> is_active owner = true ->
  rotation_insert w old owner dev dname ua ip ck new_secret new_id = Some (l', tok) ->
  exists w' pair old' new,
    refresh_access_token secret dev dname ua ip ck new_secret new_id w = (w', Return pair)
    /\ refresh_token pair = new_secret
    /\ get_by_token_hash (tokens w') (hash_token secret) = Some old'
    /\ id old' = id old
    /\ is_revoked old' = true
    /\ replaced_by_id old' = Some (id new)
    /\ get_by_token_hash (tokens w') (hash_token new_secret) = Some new
    /\ get (tokens w') new_id = Some new
    /\ id new = new_id
    /\ is_revoked new = false
    /\ parent_token_id new = Some (id old)
    /\ (forall r, r ∈ tokens w' -> id r = id old ->
          is_revoked r = true /\ replaced_by_id r = Some (id new)).
Proof.
  intros Hvalid Hold Howner Hactive Hins.
  destruct (refresh_access_token_inserted w secret dev dname ua ip ck new_secret new_id
              old owner l' tok Hvalid Hold Howner Hactive Hins) as [c' Hrun].
  unfold rotation_insert in Hins.
  apply create_token_stored_hash in Hins
    as (Htokh & Htokid & _ & Hfresh & _ & _ & Htokrev).
  destruct (fresh_in_lookups _ _ _ Hfresh) as [Hgid Hgh].
  pose proof Hold as Hold'. rewrite get_by_token_hash_find_by in Hold'.
  apply find_by_Some in Hold' as [Hin Hhash].
  assert (Hne : id old <> new_id) by (by destruct (Hfresh old Hin)).
  set (f := fun r => if bool_decide (id r = id old)
                     then set_replaced_by (Some new_id) (set_revoked (at_revoke ck) r)
                     else r).
  assert (Hfid : forall r, id (f r) = id r)
    by (intros r; unfold f; by destruct (bool_decide (id r = id old))).
  assert (Hfh : forall r, token_hash (f r) = token_hash r)
    by (intros r; unfold f; by destruct (bool_decide (id r = id old))).
  set (tok' := set_parent (Some (id old)) (at_link ck) tok) in *.
  eexists _, _, (f old), tok'. split; [exact Hrun|].
  cbn [tokens refresh_token]. rewrite revoke_token_rows. fold f.
  assert (Hfold : f old = set_replaced_by (Some new_id) (set_revoked (at_revoke ck) old))
    by (unfold f; by rewrite bool_decide_eq_true_2).
  split; [done|]. split.
  { rewrite get_by_token_hash_find_by. apply find_by_app_l.
    rewrite find_by_map by done. rewrite <- get_by_token_hash_find_by, Hold. done. }
  split; [apply Hfid|]. split; [by rewrite Hfold|].
  split; [rewrite Hfold; cbn; by rewrite Htokid|].
  split.
  { rewrite get_by_token_hash_find_by, find_by_app_r.
    - by apply find_by_singleton.
    - rewrite find_by_map by done. rewrite <- get_by_token_hash_find_by, Hgh. done. }
  split.
  { rewrite get_find_by, find_by_app_r.
    - by apply find_by_singleton.
    - rewrite find_by_map by done. rewrite <- get_find_by, Hgid. done. }
  split; [done|]. split; [done|]. split; [done|].
  intros r Hr Hid. apply elem_of_app in Hr as [Hr|Hr].
  - apply list_elem_of_fmap in Hr as (r0 & -> & Hr0).
    rewrite Hfid in Hid. unfold f. rewrite bool_decide_eq_true_2 by done.
    cbn. by rewrite Htokid.
  - apply list_elem_of_singleton in Hr. subst r. cbn in Hid. congruence.
Qed.

(** ** Reuse detection *)

(** On any table with distinct keys and ordered chains, presenting the
    secret of a revoked record raises the reuse error and leaves every record
    rotated from it exactly as it was. *)
Lemma reuse_spares_descendants (w : World) (secret : string)
    (dev dname ua ip : option string) (ck : RefreshClock)
    (new_secret : string) (new_id : uuid) (replayed successor : RefreshToken) (k : nat) :
  NoDup (map id (tokens w)) -> chain_ordered (tokens w) ->
  get_by_token_hash (tokens w) (hash_token secret) = Some replayed ->
  is_revoked replayed = true ->
  tokens w !! k = Some successor ->
  descendant_of (tokens w) successor replayed ->
  exists w',
    refresh_access_token secret dev dname ua ip ck new_secret new_id w
    = (w', Raise (AuthenticationError msg_revoked))
    /\ tokens w' !! k = Some successor.
Proof.
  intros Hnd Hord Hg Hrev Hk (path & Hpath & Hon).
  pose proof Hg as Hg'. rewrite get_by_token_hash_find_by in Hg'.
  apply find_by_Some in Hg' as [Hin _].
  assert (Hget : get (tokens w) (id replayed) = Some replayed).
  { rewrite get_find_by. by apply find_by_unique. }
  destruct (revoke_token_chain_update (tokens w) (id replayed) (at_chain ck) replayed
              Hnd Hord Hget)
    as (chain & Hchain & [i Hi] & Hrun).
  destruct (update_where _ _ (tokens w)) as [l' n] eqn:Hupd.
  destruct (refresh_validate_reuse secret ck w replayed l' n Hg Hrev Hrun) as [c' Hval].
  eexists. split.
  { unfold refresh_access_token, bind. rewrite Hval. reflexivity. }
  cbn [tokens]. apply (f_equal fst) in Hupd. cbn [fst] in Hupd. rewrite <- Hupd.
  rewrite update_where_lookup, Hk. cbn.
  rewrite bool_decide_eq_false_2; [done|].
  assert (Hrows : NoDup (tokens w)) by (by apply rows_unique).
  assert (Hs : successor ∈ tokens w) by (apply list_elem_of_lookup; by exists k).
  rewrite (on_path_iff (tokens w) Hnd Hord replayed chain i successor Hchain Hi Hs).
  intros Hsucc.
  destruct (parent_path_older (tokens w) Hord successor path k Hpath Hk replayed Hon)
    as (j & Hj & Hlj).
  pose proof (NoDup_lookup (tokens w) j i replayed Hrows Hlj Hi). subst j.
  destruct (parent_path_older (tokens w) Hord replayed chain i Hchain Hi successor Hsucc)
    as (m & Hm & Hlm).
  pose proof (NoDup_lookup (tokens w) m k successor Hrows Hlm Hk). lia.
Qed.

(** C1 at its failing input.  After ["secret-T0"] was rotated to
    ["secret-T1"], presenting ["secret-T0"] again raises the reuse error, but
    the walk from the replayed record goes to its ancestors only: the record
    of ["secret-T1"] is left non-revoked and valid, and a rotation with it
    still succeeds. *)
Theorem reuse_leaves_successor_valid :
  snd (replay_T0 world2) = Raise (AuthenticationError msg_revoked)
  /\ (is_revoked <$> get_by_token_hash (tokens world2) (hash_token "secret-T0")) = Some true
  /\ (parent_token_id <$> get_by_token_hash (tokens world2) (hash_token "secret-T1"))
     = Some (Some 1%N)
  /\ (is_revoked <$> get_by_token_hash (tokens world2_replayed) (hash_token "secret-T1"))
     = Some false
  /\ is_token_valid (tokens world2_replayed) (hash_token "secret-T1") 2000000 = true
  /\ snd (rotate_T1 world2_replayed)
     = Return {| access_token := create_access_token 7%N 2000000;
                 refresh_token := "secret-T2"; token_type := "bearer" |}.
Proof. vm_compute. repeat split; reflexivity. Qed.

(** ** Two rotations of one secret *)

Lemma revoke_token_success_iff l token_id rb now :
  snd (revoke_token l token_id rb now) = true <-> exists r, r ∈ l /\ id r = token_id.
Proof.
  rewrite revoke_token_flag. split.
  - intros H. apply existsb_exists in H as (r & Hr & Hid).
    exists r. split; [by apply list_elem_of_In | by apply bool_decide_eq_true in Hid].
  - intros (r & Hr & Hid). apply existsb_exists. exists r.
    split; [by apply list_elem_of_In | by apply bool_decide_eq_true].
Qed.

Lemma fresh_in_after_rotation l old_id rb now tok new_id h :
  fresh_in l new_id h -> id tok <> new_id -> token_hash tok <> h ->
  fresh_in (fst (revoke_token l old_id rb now) ++ [tok]) new_id h.
Proof.
  intros Hfresh Hid Hh r Hr. apply elem_of_app in Hr as [Hr|Hr].
  - rewrite revoke_token_rows in Hr. apply list_elem_of_fmap in Hr as (r0 & -> & Hr0).
    destruct (Hfresh r0 Hr0). by destruct (bool_decide (id r0 = old_id)).
  - apply list_elem_of_singleton in Hr. by subst r.
Qed.

(** C2, as the code has it: the revoke step is an UPDATE by primary key with
    no condition on [is_revoked].  On any table it succeeds whenever the id
    exists and overwrites the record whatever its state, revoked or not; the
    second half of a rotation never aborts or turns to the reuse path.  So
    when two handlers have both passed the checks for one secret before
    either writes, and each inserts values its columns accept, both rotations
    return a pair, the second revoke step rewrites the record the first one
    revoked, and both new records are live. *)
Theorem revoke_step_unconditional (w : World) (secret : string)
    (old : RefreshToken) (owner : User)
    (devA dnameA uaA ipA devB dnameB uaB ipB : option string)
    (ckA ckB : RefreshClock) (secretA secretB : string) (idA idB : uuid) :
  is_token_valid (tokens w) (hash_token secret) (at_check ckA) = true ->
  is_token_valid (tokens w) (hash_token secret) (at_check ckB) = true ->
  get_by_token_hash (tokens w) (hash_token secret) = Some old ->
  users w !! user_id old = Some owner -> is_active owner = true ->
  uid owner = user_id old ->
  rotation_columns_fit devA dnameA uaA ipA old = true ->
  rotation_columns_fit devB dnameB uaB ipB old = true ->
  fresh_in (tokens w) idA (hash_token secretA) ->
  fresh_in (tokens w) idB (hash_token secretB) ->
  idA <> idB -> hash_token secretA <> hash_token secretB ->
  (forall (l : ledger) (r : RefreshToken) rb now, r ∈ l ->
     snd (revoke_token l (id r) rb now) = true
     /\ forall r', r' ∈ fst (revoke_token l (id r) rb now) -> id r' = id r ->
          is_revoked r' = true /\ revoked_at r' = Some now /\ replaced_by_id r' = rb)
  /\ refresh_validate secret ckA w = (w, Return (old, owner))
  /\ refresh_validate secret ckB w = (w, Return (old, owner))
  /\ exists wA wB pairA pairB,
       refresh_issue secret old owner devA dnameA uaA ipA ckA secretA idA w
       = (wA, Return pairA)
       /\ (forall r, r ∈ tokens wA -> id r = id old ->
             is_revoked r = true /\ revoked_at r = Some (at_revoke ckA)
             /\ replaced_by_id r = Some idA)
       /\ refresh_issue secret old owner devB dnameB uaB ipB ckB secretB idB wA
          = (wB, Return pairB)
       /\ (forall r, r ∈ tokens wB -> id r = id old ->
             is_revoked r = true /\ revoked_at r = Some (at_revoke ckB)
             /\ replaced_by_id r = Some idB)
       /\ refresh_token pairA = secretA /\ refresh_token pairB = secretB
       /\ (is_revoked <$> get (tokens wB) idA) = Some false
       /\ (is_revoked <$> get (tokens wB) idB) = Some false.
Proof.
  intros HvalidA HvalidB Hold Howner Hactive Hkey HfitA HfitB HfreshA HfreshB Hids Hhashes.
  pose proof Hold as Hold'. rewrite get_by_token_hash_find_by in Hold'.
  apply find_by_Some in Hold' as [Hin Hhash].
  assert (HneA : id old <> idA) by (by destruct (HfreshA old Hin)).
  assert (HneB : id old <> idB) by (by destruct (HfreshB old Hin)).
  assert (Hknown : is_Some (users w !! uid owner)) by (by rewrite Hkey, Howner).
  assert (Hrevoked : forall (l : ledger) (x : uuid) rb now r',
            r' ∈ fst (revoke_token l x rb now) -> id r' = x ->
            is_revoked r' = true /\ revoked_at r' = Some now /\ replaced_by_id r' = rb).
  { intros l x rb now r' Hr' Hid. rewrite revoke_token_rows in Hr'.
    apply list_elem_of_fmap in Hr' as (r0 & -> & Hr0).
    destruct (bool_decide (id r0 = x)) eqn:E; [done|].
    apply bool_decide_eq_false in E. done. }
  split.
  { intros l r rb now Hr. split.
    - apply revoke_token_success_iff. by exists r.
    - intros r' Hr' Hid. by apply (Hrevoked l (id r) rb now). }
  split; [by apply refresh_validate_valid|].
  split; [by apply refresh_validate_valid|].
  destruct (refresh_issue_run secret old owner devA dnameA uaA ipA ckA secretA idA w
              HfreshA HneA HfitA Hknown) as [cA HrunA].
  match type of HrunA with
  | _ = (?w1, _) => set (wA := w1) in *
  end.
  assert (HfreshB' : fresh_in (tokens wA) idB (hash_token secretB)).
  { apply fresh_in_after_rotation; [done | by cbn | by cbn]. }
  destruct (refresh_issue_run secret old owner devB dnameB uaB ipB ckB secretB idB wA
              HfreshB' HneB HfitB Hknown) as [cB HrunB].
  eexists wA, _, _, _. split; [exact HrunA|]. split.
  { intros r Hr Hid. cbn [wA tokens] in Hr. apply elem_of_app in Hr as [Hr|Hr].
    - by apply (Hrevoked (tokens w) (id old) (Some idA) (at_revoke ckA)).
    - apply list_elem_of_singleton in Hr. subst r. cbn in Hid. congruence. }
  split; [exact HrunB|]. split.
  { intros r Hr Hid. cbn [tokens] in Hr. apply elem_of_app in Hr as [Hr|Hr].
    - by apply (Hrevoked (tokens wA) (id old) (Some idB) (at_revoke ckB)).
    - apply list_elem_of_singleton in Hr. subst r. cbn in Hid. congruence. }
  split; [done|]. split; [done|].
  cbn [tokens wA]. rewrite !get_find_by.
  destruct (fresh_in_lookups _ _ _ HfreshA) as [HgA _].
  destruct (fresh_in_lookups _ _ _ HfreshB') as [HgB _].
  cbn [tokens wA] in HgB. rewrite get_find_by in HgA, HgB.
  split.
  - rewrite revoke_token_rows.
    match goal with
    | |- context [map ?f (?l1 ++ [?t])] => set (fB := f); set (tokA := t)
    end.
    assert (HfB : forall r, id (fB r) = id r)
      by (intros r; unfold fB; by destruct (bool_decide (id r = id old))).
    rewrite (find_by_app_l id _ _ idA (fB tokA)).
    + unfold fB. cbn. by rewrite bool_decide_eq_false_2 by congruence.
    + rewrite find_by_map by exact HfB.
      rewrite find_by_app_r, (find_by_singleton id tokA idA); [done | done |].
      rewrite revoke_token_rows, find_by_map
        by (intros r; by destruct (bool_decide (id r = id old))).
      by rewrite HgA.
  - rewrite ?get_find_by, find_by_app_r.
    + by rewrite (find_by_singleton id _ idB).
    + rewrite revoke_token_rows, find_by_map
        by (intros r; by destruct (bool_decide (id r = id old))).
      by rewrite HgB.
Qed.

(** C2, as the specification words it: handler B's revoke step finds the
    record already revoked by handler A, and still the update goes through
    and B's rotation returns a pair; both new secrets are valid afterwards. *)
Lemma concurrent_rotations_both_succeed :
  snd race_checks_A = Return (sample_row, alice)
  /\ snd race_checks_B = Return (sample_row, alice)
  /\ (is_revoked <$> get (tokens (fst race_writes_A)) 1%N) = Some true
  /\ snd (revoke_token (tokens (fst race_writes_A)) 1%N (Some 9%N) 1000001) = true
  /\ snd race_writes_A
     = Return {| access_token := create_access_token 7%N 1000000;
                 refresh_token := "secret-T1"; token_type := "bearer" |}
  /\ snd race_writes_B
     = Return {| access_token := create_access_token 7%N 1000001;
                 refresh_token := "secret-X"; token_type := "bearer" |}
  /\ is_token_valid (tokens (fst race_writes_B)) (hash_token "secret-T1") 1000002 = true
  /\ is_token_valid (tokens (fst race_writes_B)) (hash_token "secret-X") 1000002 = true.
Proof. vm_compute. repeat split; reflexivity. Qed.

(** ** Logging out everywhere but here *)

Lemma bulk_target_cond user except_token_id r :
  bool_decide (user_id r = user)
  && negb (is_revoked r)
  && match except_token_id with
     | Some e => negb (bool_decide (id r = e))
     | None => true
     end
  = bool_decide (bulk_target user except_token_id r).
Proof.
  destruct (decide (bulk_target user except_token_id r)) as [Ht|Ht].
  - rewrite (bool_decide_eq_true_2 _ Ht). destruct Ht as (Hu & Hrev & He).
    rewrite (bool_decide_eq_true_2 _ Hu), Hrev. cbn.
    destruct except_token_id as [e|]; [|done].
    rewrite bool_decide_eq_false_2; [done|]. intros Heq. apply He. by rewrite Heq.
  - rewrite (bool_decide_eq_false_2 _ Ht).
    destruct (decide (user_id r = user)) as [Hu|Hu];
      [|by rewrite (bool_decide_eq_false_2 _ Hu)].
    rewrite (bool_decide_eq_true_2 _ Hu). cbn.
    destruct (is_revoked r) eqn:Hrev; [done|]. cbn.
    destruct except_token_id as [e|].
    + destruct (decide (id r = e)) as [He|He];
        [by rewrite (bool_decide_eq_true_2 _ He)|].
      exfalso. apply Ht. repeat split; congruence.
    + exfalso. apply Ht. repeat split; done.
Qed.

Lemma revoke_all_user_tokens_rows l user except_token_id now :
  revoke_all_user_tokens l user except_token_id now
  = update_where (fun r => bool_decide (bulk_target user except_token_id r))
                 (set_revoked now) l.
Proof.
  unfold revoke_all_user_tokens, update_where. f_equal.
  - apply map_ext. intros r. by rewrite bulk_target_cond.
  - do 2 f_equal. induction l as [|a l IH]; [done|]. cbn.
    rewrite bulk_target_cond, IH. done.
Qed.

(** [logout_all_devices] with the secret of one of the user's own records:
    that record's id is the one spared. *)
Lemma logout_all_devices_run w user secret now spared :
  secret <> EmptyString ->
  get_by_token_hash (tokens w) (hash_token secret) = Some spared ->
  user_id spared = user ->
  logout_all_devices user (Some secret) now w
  = ({| tokens := fst (revoke_all_user_tokens (tokens w) user (Some (id spared)) now);
        users := users w; cache := cache w |},
     Return (snd (revoke_all_user_tokens (tokens w) user (Some (id spared)) now))).
Proof.
  intros Hne Hg Hu. unfold logout_all_devices, bind, gets. cbn [truthy].
  change (default EmptyString (Some secret)) with secret.
  rewrite (bool_decide_eq_false_2 (secret = EmptyString)) by done. cbn [negb].
  rewrite Hg, (bool_decide_eq_true_2 (user_id spared = user)) by done.
  destruct (revoke_all_user_tokens _ _ _ _) as [l' n]. reflexivity.
Qed.

(** ** A session: login, three rotations, logout everywhere but here *)

Lemma is_token_valid_live l h user expires dev dname now :
  live_at_hash l h user expires dev dname -> now <= expires ->
  is_token_valid l h now = true.
Proof.
  intros (r & Hg & Hrev & _ & Hexp & _) Hnow. unfold is_token_valid.
  rewrite Hg, Hrev. apply negb_true_iff, Z.ltb_ge. lia.
Qed.

Lemma get_by_token_hash_app_new l tok h :
  get_by_token_hash l h = None -> token_hash tok = h ->
  get_by_token_hash (l ++ [tok]) h = Some tok.
Proof.
  intros Hg Hh. rewrite get_by_token_hash_find_by in *.
  rewrite find_by_app_r by done. by apply find_by_singleton.
Qed.

Lemma revoked_at_hash_update cond set l h :
  keeps_revoked set -> (forall r, token_hash (set r) = token_hash r) ->
  revoked_at_hash l h -> revoked_at_hash (fst (update_where cond set l)) h.
Proof.
  intros Hset Hh (r & Hg & Hrev). unfold revoked_at_hash. cbn [fst update_where].
  rewrite get_by_token_hash_find_by, find_by_map.
  - rewrite <- get_by_token_hash_find_by, Hg. cbn. eexists. split; [reflexivity|].
    destruct (cond r); [by apply Hset | done].
  - intros x. destruct (cond x); [apply Hh | done].
Qed.

Lemma revoked_at_hash_app l tok h :
  revoked_at_hash l h -> revoked_at_hash (l ++ [tok]) h.
Proof.
  intros (r & Hg & Hrev). exists r. split; [|done].
  rewrite get_by_token_hash_find_by in *. by apply find_by_app_l.
Qed.

Lemma or_else_idem (a : option string) : or_else a a = a.
Proof. unfold or_else. by destruct (truthy a). Qed.

(** Logging in: the new record is live and nothing else moves. *)
Lemma login_step w user dev dname ua ip ck new_secret new_id :
  fresh_in (tokens w) new_id (hash_token new_secret) ->
  client_columns_fit dev dname ua ip = true ->
  is_Some (users w !! uid user) ->
  exists w' pair,
    create_token_pair user dev dname ua ip ck new_secret new_id w = (w', Return pair)
    /\ refresh_token pair = new_secret
    /\ users w' = users w
    /\ live_at_hash (tokens w') (hash_token new_secret) (uid user)
         (at_insert ck + days REFRESH_TOKEN_EXPIRE_DAYS) dev dname
    /\ (forall i h, fresh_in (tokens w) i h -> i <> new_id -> h <> hash_token new_secret ->
          fresh_in (tokens w') i h).
Proof.
  intros Hfresh Hfit Hknown.
  rewrite (create_token_pair_run _ _ _ _ _ _ _ _ _ Hfresh Hfit Hknown).
  eexists _, _. split; [reflexivity|]. cbn [tokens users refresh_token].
  destruct (fresh_in_lookups _ _ _ Hfresh) as [_ Hgh].
  split; [done|]. split; [done|]. split.
  - eexists. split; [by apply get_by_token_hash_app_new|]. done.
  - intros i h Hf Hi Hh r Hr. apply elem_of_app in Hr as [Hr|Hr]; [by apply Hf|].
    apply list_elem_of_singleton in Hr. subst r. cbn. split; congruence.
Qed.

(** One rotation: the presented record ends revoked, the new one is live,
    and records revoked before stay revoked. *)
Lemma rotation_step w secret dev dname ua ip ck new_secret new_id owner expires
    dev0 dname0 :
  live_at_hash (tokens w) (hash_token secret) (uid owner) expires dev0 dname0 ->
  at_check ck <= expires ->
  users w !! uid owner = Some owner -> is_active owner = true ->
  client_columns_fit (or_else dev dev0) (or_else dname dname0) ua ip = true ->
  fresh_in (tokens w) new_id (hash_token new_secret) ->
  exists w' pair,
    refresh_access_token secret dev dname ua ip ck new_secret new_id w = (w', Return pair)
    /\ refresh_token pair = new_secret
    /\ users w' = users w
    /\ live_at_hash (tokens w') (hash_token new_secret) (uid owner)
         (at_insert (at_pair ck) + days REFRESH_TOKEN_EXPIRE_DAYS)
         (or_else dev dev0) (or_else dname dname0)
    /\ revoked_at_hash (tokens w') (hash_token secret)
    /\ (forall h, revoked_at_hash (tokens w) h -> revoked_at_hash (tokens w') h)
    /\ (forall i h, fresh_in (tokens w) i h -> i <> new_id -> h <> hash_token new_secret ->
          fresh_in (tokens w') i h).
Proof.
  intros Hlive Hnow Howner Hactive Hfit Hfresh.
  pose proof (is_token_valid_live _ _ _ _ _ _ _ Hlive Hnow) as Hvalid.
  destruct Hlive as (old & Hold & Hrev & Huser & Hexp & Hdev & Hdname).
  rewrite <- Huser in Howner.
  assert (Hfit' : rotation_columns_fit dev dname ua ip old = true)
    by (unfold rotation_columns_fit; by rewrite Hdev, Hdname).
  destruct (refresh_access_token_run w secret dev dname ua ip ck new_secret new_id
              old owner Hvalid Hold Howner Hactive (eq_sym Huser) Hfit' Hfresh)
    as [c' Hrun].
  rewrite Hrun. eexists _, _. split; [reflexivity|]. cbn [tokens users refresh_token].
  destruct (fresh_in_lookups _ _ _ Hfresh) as [_ Hgh].
  pose proof (keeps_revoked_revoke (Some new_id) (at_revoke ck)) as Hkeep.
  assert (Hsame : forall r,
            token_hash (set_replaced_by (Some new_id) (set_revoked (at_revoke ck) r))
            = token_hash r) by done.
  split; [done|]. split; [done|]. split.
  { eexists. split.
    - apply get_by_token_hash_app_new; [|done].
      rewrite revoke_token_rows, get_by_token_hash_find_by, find_by_map.
      + by rewrite <- get_by_token_hash_find_by, Hgh.
      + intros r. by destruct (bool_decide (id r = id old)).
    - cbn. by rewrite Hdev, Hdname. }
  split.
  { apply revoked_at_hash_app. unfold revoked_at_hash.
    rewrite revoke_token_rows, get_by_token_hash_find_by, find_by_map.
    - rewrite <- get_by_token_hash_find_by, Hold. cbn.
      rewrite bool_decide_eq_true_2 by done. eexists. split; reflexivity.
    - intros r. by destruct (bool_decide (id r = id old)). }
  split.
  { intros h Hh. apply revoked_at_hash_app. rewrite revoke_token_rows.
    by apply (revoked_at_hash_update (fun r => bool_decide (id r = id old))). }
  intros i h Hf Hi Hh. apply fresh_in_after_rotation; [done | by cbn | by cbn].
Qed.

(** Logging out everywhere but here: the spared record keeps its state and
    records revoked before stay revoked. *)
Lemma logout_all_step w user secret now expires dev dname :
  secret <> EmptyString ->
  live_at_hash (tokens w) (hash_token secret) user expires dev dname ->
  exists w' n,
    logout_all_devices user (Some secret) now w = (w', Return n)
    /\ live_at_hash (tokens w') (hash_token secret) user expires dev dname
    /\ (forall h, revoked_at_hash (tokens w) h -> revoked_at_hash (tokens w') h).
Proof.
  intros Hne (spared & Hg & Hrev & Huser & Hexp & Hdev & Hdname).
  rewrite (logout_all_devices_run w user secret now spared Hne Hg Huser).
  eexists _, _. split; [reflexivity|]. cbn [tokens].
  rewrite revoke_all_user_tokens_rows. split.
  - exists spared. split; [|done]. cbn [fst update_where].
    rewrite get_by_token_hash_find_by, find_by_map.
    + rewrite <- get_by_token_hash_find_by, Hg. cbn.
      rewrite bool_decide_eq_false_2; [done|]. intros (_ & _ & H). by apply H.
    + intros r. by destruct (bool_decide _).
  - intros h Hh. apply revoked_at_hash_update; [| done | done].
    apply keeps_revoked_set_revoked.
Qed.

(** The whole session, for any user, secrets, keys and clock readings, with
    client values that fit their columns: after a login and three rotations,
    each made before the previous record expires, logging out everywhere but
    on the holder of the last secret leaves the first three records revoked
    and the last one valid. *)
Lemma session_logout_all_but_last (w0 : World) (u : User)
    (dev dname ua ip : option string)
    (s0 s1 s2 s3 : string) (i0 i1 i2 i3 : uuid)
    (c0 : PairClock) (c1 c2 c3 : RefreshClock) (t4 : datetime) :
  users w0 !! uid u = Some u -> is_active u = true ->
  client_columns_fit dev dname ua ip = true ->
  fresh_in (tokens w0) i0 (hash_token s0) ->
  fresh_in (tokens w0) i1 (hash_token s1) ->
  fresh_in (tokens w0) i2 (hash_token s2) ->
  fresh_in (tokens w0) i3 (hash_token s3) ->
  NoDup [i0; i1; i2; i3] ->
  NoDup [hash_token s0; hash_token s1; hash_token s2; hash_token s3] ->
  s3 <> EmptyString ->
  at_check c1 <= at_insert c0 + days REFRESH_TOKEN_EXPIRE_DAYS ->
  at_check c2 <= at_insert (at_pair c1) + days REFRESH_TOKEN_EXPIRE_DAYS ->
  at_check c3 <= at_insert (at_pair c2) + days REFRESH_TOKEN_EXPIRE_DAYS ->
  t4 <= at_insert (at_pair c3) + days REFRESH_TOKEN_EXPIRE_DAYS ->
  exists w1 w2 w3 w4 w5 p0 p1 p2 p3 n,
    create_token_pair u dev dname ua ip c0 s0 i0 w0 = (w1, Return p0)
    /\ refresh_access_token s0 dev dname ua ip c1 s1 i1 w1 = (w2, Return p1)
    /\ refresh_access_token s1 dev dname ua ip c2 s2 i2 w2 = (w3, Return p2)
    /\ refresh_access_token s2 dev dname ua ip c3 s3 i3 w3 = (w4, Return p3)
    /\ logout_all_devices (uid u) (Some s3) t4 w4 = (w5, Return n)
    /\ refresh_token p0 = s0 /\ refresh_token p1 = s1
    /\ refresh_token p2 = s2 /\ refresh_token p3 = s3
    /\ revoked_at_hash (tokens w5) (hash_token s0)
    /\ revoked_at_hash (tokens w5) (hash_token s1)
    /\ revoked_at_hash (tokens w5) (hash_token s2)
    /\ is_token_valid (tokens w5) (hash_token s3) t4 = true.
Proof.
  intros Hu Hact Hfit F0 F1 F2 F3 Hids Hhashes Hs3 Ht1 Ht2 Ht3 Ht4.
  assert (Hi : i0 <> i1 /\ i0 <> i2 /\ i0 <> i3 /\ i1 <> i2 /\ i1 <> i3 /\ i2 <> i3).
  { rewrite !NoDup_cons, !not_elem_of_cons in Hids. tauto. }
  assert (Hh : hash_token s0 <> hash_token s1 /\ hash_token s0 <> hash_token s2
               /\ hash_token s0 <> hash_token s3 /\ hash_token s1 <> hash_token s2
               /\ hash_token s1 <> hash_token s3 /\ hash_token s2 <> hash_token s3).
  { rewrite !NoDup_cons, !not_elem_of_cons in Hhashes. tauto. }
  destruct Hi as (Hi01 & Hi02 & Hi03 & Hi12 & Hi13 & Hi23).
  destruct Hh as (Hh01 & Hh02 & Hh03 & Hh12 & Hh13 & Hh23).
  assert (Hfit' : client_columns_fit (or_else dev dev) (or_else dname dname) ua ip = true)
    by (by rewrite !or_else_idem).
  assert (Hknown : is_Some (users w0 !! uid u)) by (by rewrite Hu).
  destruct (login_step w0 u dev dname ua ip c0 s0 i0 F0 Hfit Hknown)
    as (w1 & p0 & R0 & P0 & U1 & L1 & Fr1).
  assert (F1' := Fr1 i1 _ F1 (not_eq_sym Hi01) (not_eq_sym Hh01)).
  assert (F2' := Fr1 i2 _ F2 (not_eq_sym Hi02) (not_eq_sym Hh02)).
  assert (F3' := Fr1 i3 _ F3 (not_eq_sym Hi03) (not_eq_sym Hh03)).
  rewrite <- U1 in Hu.
  destruct (rotation_step w1 s0 dev dname ua ip c1 s1 i1 u _ dev dname
              L1 Ht1 Hu Hact Hfit' F1')
    as (w2 & p1 & R1 & P1 & U2 & L2 & Rv0 & Keep2 & Fr2).
  rewrite !or_else_idem in L2.
  assert (F2'' := Fr2 i2 _ F2' (not_eq_sym Hi12) (not_eq_sym Hh12)).
  assert (F3'' := Fr2 i3 _ F3' (not_eq_sym Hi13) (not_eq_sym Hh13)).
  rewrite <- U2 in Hu.
  destruct (rotation_step w2 s1 dev dname ua ip c2 s2 i2 u _ dev dname
              L2 Ht2 Hu Hact Hfit' F2'')
    as (w3 & p2 & R2 & P2 & U3 & L3 & Rv1 & Keep3 & Fr3).
  rewrite !or_else_idem in L3.
  assert (F3''' := Fr3 i3 _ F3'' (not_eq_sym Hi23) (not_eq_sym Hh23)).
  rewrite <- U3 in Hu.
  destruct (rotation_step w3 s2 dev dname ua ip c3 s3 i3 u _ dev dname
              L3 Ht3 Hu Hact Hfit' F3''')
    as (w4 & p3 & R3 & P3 & U4 & L4 & Rv2 & Keep4 & Fr4).
  destruct (logout_all_step w4 (uid u) s3 t4 _ _ _ Hs3 L4) as (w5 & n & R5 & L5 & Keep5).
  exists w1, w2, w3, w4, w5, p0, p1, p2, p3, n.
  repeat split; try assumption.
  - apply Keep5, Keep4, Keep3, Rv0.
  - apply Keep5, Keep4, Rv1.
  - apply Keep5, Rv2.
  - by apply (is_token_valid_live _ _ _ _ _ _ _ L5).
Qed.

(** C7: [revoke_all_user_tokens] revokes exactly the user's non-revoked
    records other than the spared one (marking each revoked at the instant
    of the call), counts them, and leaves every other record as it was;
    through [logout_all_devices] the record of the spared secret keeps its
    state while every other record of the user ends up revoked; and after a
    login and three rotations that the database accepts (a known user, free
    keys and hashes, client values that fit their columns, each rotation
    before the previous record expires), logging out everywhere but on the
    holder of the fourth secret leaves the first three records revoked and
    the fourth still valid. *)
Theorem logout_all_spares_one :
  (forall (l : ledger) (user : uuid) (except_token_id : option uuid) (now : datetime),
     length (fst (revoke_all_user_tokens l user except_token_id now)) = length l
     /\ (forall i r, l !! i = Some r ->
           (bulk_target user except_token_id r ->
            fst (revoke_all_user_tokens l user except_token_id now) !! i
            = Some (set_revoked now r))
           /\ (~ bulk_target user except_token_id r ->
               fst (revoke_all_user_tokens l user except_token_id now) !! i = Some r))
     /\ snd (revoke_all_user_tokens l user except_token_id now)
        = Z.of_nat (length (List.filter
                              (fun r => bool_decide (bulk_target user except_token_id r)) l)))
  /\ (forall (w : World) (user : uuid) (secret : string) (now : datetime)
        (spared : RefreshToken),
        secret <> EmptyString ->
        get_by_token_hash (tokens w) (hash_token secret) = Some spared ->
        user_id spared = user ->
        exists w' n,
          logout_all_devices user (Some secret) now w = (w', Return n)
          /\ get_by_token_hash (tokens w') (hash_token secret) = Some spared
          /\ is_token_valid (tokens w') (hash_token secret) now
             = is_token_valid (tokens w) (hash_token secret) now
          /\ (forall r', r' ∈ tokens w' -> user_id r' = user -> id r' <> id spared ->
                is_revoked r' = true)
          /\ (forall i r, tokens w !! i = Some r -> user_id r <> user ->
                tokens w' !! i = Some r))
  /\ (forall (w0 : World) (u : User) (dev dname ua ip : option string)
        (s0 s1 s2 s3 : string) (i0 i1 i2 i3 : uuid)
        (c0 : PairClock) (c1 c2 c3 : RefreshClock) (t4 : datetime),
        users w0 !! uid u = Some u -> is_active u = true ->
        client_columns_fit dev dname ua ip = true ->
        fresh_in (tokens w0) i0 (hash_token s0) ->
        fresh_in (tokens w0) i1 (hash_token s1) ->
        fresh_in (tokens w0) i2 (hash_token s2) ->
        fresh_in (tokens w0) i3 (hash_token s3) ->
        NoDup [i0; i1; i2; i3] ->
        NoDup [hash_token s0; hash_token s1; hash_token s2; hash_token s3] ->
        s3 <> EmptyString ->
        at_check c1 <= at_insert c0 + days REFRESH_TOKEN_EXPIRE_DAYS ->
        at_check c2 <= at_insert (at_pair c1) + days REFRESH_TOKEN_EXPIRE_DAYS ->
        at_check c3 <= at_insert (at_pair c2) + days REFRESH_TOKEN_EXPIRE_DAYS ->
        t4 <= at_insert (at_pair c3) + days REFRESH_TOKEN_EXPIRE_DAYS ->
        exists w1 w2 w3 w4 w5 p0 p1 p2 p3 n,
          create_token_pair u dev dname ua ip c0 s0 i0 w0 = (w1, Return p0)
          /\ refresh_access_token s0 dev dname ua ip c1 s1 i1 w1 = (w2, Return p1)
          /\ refresh_access_token s1 dev dname ua ip c2 s2 i2 w2 = (w3, Return p2)
          /\ refresh_access_token s2 dev dname ua ip c3 s3 i3 w3 = (w4, Return p3)
          /\ logout_all_devices (uid u) (Some s3) t4 w4 = (w5, Return n)
          /\ refresh_token p0 = s0 /\ refresh_token p1 = s1
          /\ refresh_token p2 = s2 /\ refresh_token p3 = s3
          /\ revoked_at_hash (tokens w5) (hash_token s0)
          /\ revoked_at_hash (tokens w5) (hash_token s1)
          /\ revoked_at_hash (tokens w5) (hash_token s2)
          /\ is_token_valid (tokens w5) (hash_token s3) t4 = true).
Proof.
  split; [|split].
  - intros l user except_token_id now. rewrite revoke_all_user_tokens_rows.
    split; [apply update_where_length|]. split; [|done].
    intros i r Hi. rewrite update_where_lookup, Hi. cbn. split; intros H.
    + by rewrite bool_decide_eq_true_2.
    + by rewrite bool_decide_eq_false_2.
  - intros w user secret now spared Hne Hg Hu.
    rewrite (logout_all_devices_run w user secret now spared Hne Hg Hu).
    eexists _, _. split; [reflexivity|]. cbn [tokens].
    rewrite revoke_all_user_tokens_rows. cbn [fst update_where].
    set (f := fun r => if bool_decide (bulk_target user (Some (id spared)) r)
                       then set_revoked now r else r).
    assert (Hfh : forall r, token_hash (f r) = token_hash r)
      by (intros r; unfold f; by destruct (bool_decide _)).
    assert (Hspared : get_by_token_hash (map f (tokens w)) (hash_token secret) = Some spared).
    { rewrite get_by_token_hash_find_by, find_by_map by exact Hfh.
      rewrite <- get_by_token_hash_find_by, Hg. cbn. unfold f.
      rewrite bool_decide_eq_false_2; [done|]. intros (_ & _ & H). by apply H. }
    split; [exact Hspared|]. split.
    { unfold is_token_valid. by rewrite Hspared, Hg. }
    split.
    + intros r' Hr' Hur Hid. apply list_elem_of_fmap in Hr' as (r & -> & Hr).
      unfold f in *. destruct (decide (bulk_target user (Some (id spared)) r)) as [Ht|Ht].
      * by rewrite bool_decide_eq_true_2.
      * rewrite bool_decide_eq_false_2 in Hur, Hid |- * by done.
        destruct (is_revoked r) eqn:Hrev; [done|].
        exfalso. apply Ht. unfold bulk_target. repeat split; congruence.
    + intros i r Hi Hur. rewrite list_lookup_fmap, Hi. cbn. unfold f.
      rewrite bool_decide_eq_false_2; [done|]. intros (H & _). done.
  - apply session_logout_all_but_last.
Qed.

(** The sample session run through: the chain T0, T1, T2, T3 and its state
    after the logout. *)
Example sample_session_logout_all :
  snd (logout_all_but_T3 world4) = Return 0
  /\ ((parent_token_id <$> get_by_token_hash (tokens world4) (hash_token "secret-T0"))
        = Some None
      /\ (parent_token_id <$> get_by_token_hash (tokens world4) (hash_token "secret-T1"))
         = Some (Some 1%N)
      /\ (parent_token_id <$> get_by_token_hash (tokens world4) (hash_token "secret-T2"))
         = Some (Some 2%N)
      /\ (parent_token_id <$> get_by_token_hash (tokens world4) (hash_token "secret-T3"))
         = Some (Some 3%N)
      /\ (is_revoked <$> get_by_token_hash (tokens world5) (hash_token "secret-T0"))
         = Some true
      /\ (is_revoked <$> get_by_token_hash (tokens world5) (hash_token "secret-T1"))
         = Some true
      /\ (is_revoked <$> get_by_token_hash (tokens world5) (hash_token "secret-T2"))
         = Some true
      /\ (is_revoked <$> get_by_token_hash (tokens world5) (hash_token "secret-T3"))
         = Some false
      /\ is_token_valid (tokens world5) (hash_token "secret-T3") 4000000 = true).
Proof. vm_compute. repeat split; reflexivity. Qed.

(** ** The shape of the table *)

(** A setter that keeps the key, the hash and the parent pointer. *)
Lemma update_keeps_wf cond set l :
  (forall r, id (set r) = id r /\ token_hash (set r) = token_hash r
             /\ parent_token_id (set r) = parent_token_id r) ->
  ledger_wf l -> ledger_wf (fst (update_where cond set l)).
Proof.
  intros Hset (Hids & Hhashes & Hord & Hpar).
  set (f := fun r => if cond r then set r else r).
  assert (Hf : forall r, id (f r) = id r /\ token_hash (f r) = token_hash r
                         /\ parent_token_id (f r) = parent_token_id r).
  { intros r. unfold f. destruct (cond r); [apply Hset | done]. }
  cbn [fst update_where]. fold f. repeat split.
  - rewrite map_map. erewrite map_ext; [exact Hids|]. intros r. apply Hf.
  - rewrite map_map. erewrite map_ext; [exact Hhashes|]. intros r. apply Hf.
  - intros i j c p Hi Hj Hp. rewrite list_lookup_fmap in Hi, Hj.
    destruct (l !! i) as [c0|] eqn:Hi0; [|done].
    destruct (l !! j) as [p0|] eqn:Hj0; [|done].
    cbn in Hi, Hj. injection Hi as <-. injection Hj as <-.
    apply (Hord i j c0 p0 Hi0 Hj0).
    destruct (Hf c0) as (_ & _ & Hpc). destruct (Hf p0) as (Hidp & _).
    by rewrite Hpc, Hidp in Hp.
  - intros r pid Hr Hp. apply list_elem_of_fmap in Hr as (r0 & -> & Hr0).
    destruct (Hf r0) as (_ & _ & Hp0). rewrite Hp0 in Hp.
    destruct (Hpar r0 pid Hr0 Hp) as (p & Hpin & Hpid).
    exists (f p). split; [by apply list_elem_of_fmap_2 | by destruct (Hf p) as (-> & _)].
Qed.

(** Appending a row with a free key and hash whose parent, if any, is in
    the table. *)
Lemma append_keeps_wf l tok :
  fresh_in l (id tok) (token_hash tok) ->
  (forall pid, parent_token_id tok = Some pid -> exists p, p ∈ l /\ id p = pid) ->
  ledger_wf l -> ledger_wf (l ++ [tok]).
Proof.
  intros Hfresh Hparent (Hids & Hhashes & Hord & Hpar).
  assert (Hunref : forall r, r ∈ l -> parent_token_id r <> Some (id tok)).
  { intros r Hr Hp. destruct (Hpar r _ Hr Hp) as (p & Hpin & Hpid).
    by destruct (Hfresh p Hpin). }
  assert (Hself : parent_token_id tok <> Some (id tok)).
  { intros Hp. destruct (Hparent _ Hp) as (p & Hpin & Hpid).
    by destruct (Hfresh p Hpin). }
  repeat split.
  - rewrite map_app. cbn. apply NoDup_app. split; [done|]. split; [|apply NoDup_singleton].
    intros x Hx Hx'. apply list_elem_of_singleton in Hx'. subst x.
    apply list_elem_of_fmap in Hx as (r & Hid & Hr). by destruct (Hfresh r Hr).
  - rewrite map_app. cbn. apply NoDup_app. split; [done|]. split; [|apply NoDup_singleton].
    intros x Hx Hx'. apply list_elem_of_singleton in Hx'. subst x.
    apply list_elem_of_fmap in Hx as (r & Hid & Hr). by destruct (Hfresh r Hr).
  - intros i j c p Hi Hj Hp.
    destruct (decide (i < length l)%nat) as [Hil|Hil];
      destruct (decide (j < length l)%nat) as [Hjl|Hjl].
    + rewrite lookup_app_l in Hi, Hj by done. by apply (Hord i j c p).
    + rewrite lookup_app_l in Hi by done. rewrite lookup_app_r in Hj by lia.
      apply list_lookup_singleton_Some in Hj as [_ <-].
      exfalso. apply (Hunref c); [|done]. apply list_elem_of_lookup. by exists i.
    + lia.
    + rewrite lookup_app_r in Hi, Hj by lia.
      apply list_lookup_singleton_Some in Hi as [_ <-].
      apply list_lookup_singleton_Some in Hj as [_ <-]. done.
  - intros r pid Hr Hp. apply elem_of_app in Hr as [Hr|Hr].
    + destruct (Hpar r pid Hr Hp) as (p & Hpin & Hpid).
      exists p. split; [apply elem_of_app; by left | done].
    + apply list_elem_of_singleton in Hr. subst r.
      destruct (Hparent pid Hp) as (p & Hpin & Hpid).
      exists p. split; [apply elem_of_app; by left | done].
Qed.

Lemma ledger_wf_nil : ledger_wf [].
Proof.
  repeat split; try apply NoDup_nil_2.
  - intros i j c p Hi. by rewrite lookup_nil in Hi.
  - intros r pid Hr. by apply elem_of_nil in Hr.
Qed.

(** Logging in and rotating keep the shape; so do the revocations. *)
Lemma login_keeps_wf w user dev dname ua ip ck new_secret new_id w' pair :
  ledger_wf (tokens w) ->
  create_token_pair user dev dname ua ip ck new_secret new_id w = (w', Return pair) ->
  ledger_wf (tokens w').
Proof.
  intros Hwf Hrun. unfold create_token_pair, bind, gets in Hrun.
  destruct (create_token _ _ _ _ _ _ _ _ _ _ _ _) as [[l' tok]|] eqn:E; [|done].
  apply create_token_stored_hash in E as (Hh & Hid & -> & Hf & _ & Hp & _).
  cbn in Hrun. injection Hrun as <- _. cbn [tokens].
  apply append_keeps_wf; [by rewrite Hh, Hid | by rewrite Hp | done].
Qed.

Lemma fresh_in_update cond set l new_id h :
  (forall r, id (set r) = id r /\ token_hash (set r) = token_hash r) ->
  fresh_in l new_id h -> fresh_in (fst (update_where cond set l)) new_id h.
Proof.
  intros Hset Hf r Hr. cbn in Hr. apply list_elem_of_fmap in Hr as (r0 & -> & Hr0).
  destruct (Hf r0 Hr0). destruct (cond r0); [|done].
  destruct (Hset r0) as [-> ->]. done.
Qed.

Lemma rotated_ledger_wf l old tok t_revoke t_link :
  ledger_wf l -> old ∈ l -> fresh_in l (id tok) (token_hash tok) ->
  ledger_wf (fst (revoke_token l (id old) (Some (id tok)) t_revoke)
             ++ [set_parent (Some (id old)) t_link tok]).
Proof.
  intros Hwf Hold Hfresh. rewrite revoke_token_rows.
  change (map _ l) with
    (fst (update_where (fun r => bool_decide (id r = id old))
            (fun r => set_replaced_by (Some (id tok)) (set_revoked t_revoke r)) l)).
  apply append_keeps_wf.
  - by apply fresh_in_update.
  - intros pid [= <-]. exists (if bool_decide (id old = id old)
                               then set_replaced_by (Some (id tok)) (set_revoked t_revoke old)
                               else old).
    split; [|by destruct (bool_decide (id old = id old))].
    cbn [fst update_where].
    apply (list_elem_of_fmap_2
             (fun r => if bool_decide (id r = id old)
                       then set_replaced_by (Some (id tok)) (set_revoked t_revoke r) else r)
             l old Hold).
  - by apply update_keeps_wf.
Qed.

(** What a returned pair tells about the world the rotation started in. *)
Lemma refresh_access_token_Return_inv w secret dev dname ua ip ck new_secret new_id w' pair :
  refresh_access_token secret dev dname ua ip ck new_secret new_id w = (w', Return pair) ->
  is_token_valid (tokens w) (hash_token secret) (at_check ck) = true
  /\ exists old owner l' tok,
       get_by_token_hash (tokens w) (hash_token secret) = Some old
       /\ users w !! user_id old = Some owner /\ is_active owner = true
       /\ rotation_insert w old owner dev dname ua ip ck new_secret new_id = Some (l', tok).
Proof.
  intros Hrun. pose proof Hrun as Hraw.
  unfold refresh_access_token, refresh_validate, bind, gets, ret, raise, diverge,
    put_tokens, put_cache in Hraw.
  destruct (is_token_valid (tokens w) (hash_token secret) (at_check ck)) eqn:Hvalid.
  2:{ exfalso. repeat case_match; simplify_eq; congruence. }
  destruct (get_by_token_hash (tokens w) (hash_token secret)) as [old|] eqn:Hold.
  2:{ exfalso. repeat case_match; simplify_eq; congruence. }
  destruct (users w !! user_id old) as [owner|] eqn:Howner.
  2:{ exfalso. repeat case_match; simplify_eq; congruence. }
  destruct (is_active owner) eqn:Hactive.
  2:{ exfalso. repeat case_match; simplify_eq; congruence. }
  clear Hraw. split; [done|].
  exists old, owner.
  unfold refresh_access_token, bind in Hrun.
  rewrite (refresh_validate_valid _ _ _ _ _ Hvalid Hold Howner Hactive) in Hrun.
  cbn [fst snd] in Hrun. unfold refresh_issue, bind in Hrun.
  destruct (create_token_pair _ _ _ _ _ _ _ _ w) as [w1 [p|e|]] eqn:Hpair; try done.
  unfold create_token_pair, bind, gets in Hpair. unfold rotation_insert.
  destruct (create_token _ _ _ _ _ _ _ _ _ _ _ _) as [[l' tok]|] eqn:E; [|done].
  by exists l', tok.
Qed.

Lemma rotation_keeps_wf w secret dev dname ua ip ck new_secret new_id w' pair :
  ledger_wf (tokens w) ->
  refresh_access_token secret dev dname ua ip ck new_secret new_id w = (w', Return pair) ->
  ledger_wf (tokens w').
Proof.
  intros Hwf Hrun.
  destruct (refresh_access_token_Return_inv _ _ _ _ _ _ _ _ _ _ _ Hrun)
    as (Hvalid & old & owner & l' & tok & Hold & Howner & Hactive & Hins).
  destruct (refresh_access_token_inserted w secret dev dname ua ip ck new_secret new_id
              old owner l' tok Hvalid Hold Howner Hactive Hins) as [c' Hrun'].
  rewrite Hrun' in Hrun. injection Hrun as <- _. cbn [tokens].
  unfold rotation_insert in Hins.
  apply create_token_stored_hash in Hins as (Hh & Hid & _ & Hfresh & _).
  rewrite <- Hid. apply rotated_ledger_wf; [done | | by rewrite Hh, Hid].
  rewrite get_by_token_hash_find_by in Hold. by apply find_by_Some in Hold as [Hin _].
Qed.

Lemma revocations_keep_wf l now :
  ledger_wf l ->
  (forall token_id rb, ledger_wf (fst (revoke_token l token_id rb now)))
  /\ (forall token_id l' n, revoke_token_chain l token_id now = Some (l', n) -> ledger_wf l')
  /\ (forall user except_token_id,
        ledger_wf (fst (revoke_all_user_tokens l user except_token_id now)))
  /\ (forall user dev, ledger_wf (fst (revoke_device_tokens l user dev now))).
Proof.
  intros Hwf. split; [|split; [|split]].
  - intros token_id rb. rewrite revoke_token_rows.
    by apply (update_keeps_wf (fun r => bool_decide (id r = token_id))).
  - intros token_id l' n. unfold revoke_token_chain.
    destruct (get l token_id); [|by intros [= <- _]].
    destruct (chain_walk _ _ _) as [[|c cs]|]; [by intros [= <- _] | | done].
    intros [= <- _]. by apply update_keeps_wf.
  - intros user except_token_id. unfold revoke_all_user_tokens. by apply update_keeps_wf.
  - intros user dev. unfold revoke_device_tokens. by apply update_keeps_wf.
Qed.

Lemma run_Return {A} (m : M A) (w : World) :
  (exists a, snd (m w) = Return a) -> exists w' a, m w = (w', Return a).
Proof.
  intros [a Ha]. destruct (m w) as [w' o]. cbn [snd] in Ha. subst o. eauto.
Qed.

Lemma chain3_world3 : chain3 = tokens world3.
Proof. vm_compute. reflexivity. Qed.

(** The table of the sample session has the shape. *)
Lemma chain3_wf : ledger_wf chain3.
Proof.
  assert (H1 : ledger_wf (tokens world1)).
  { destruct (run_Return login_T0 world0) as (w' & p & E); [vm_compute; eauto|].
    unfold world1. rewrite E. cbn [fst]. unfold login_T0 in E.
    exact (login_keeps_wf world0 alice (Some "D1"%string) None None None (pair_clock_at 0)
             "secret-T0" 1%N w' p ledger_wf_nil E). }
  assert (H2 : ledger_wf (tokens world2)).
  { destruct (run_Return rotate_T0 world1) as (w' & p & E); [vm_compute; eauto|].
    unfold world2. rewrite E. cbn [fst]. unfold rotate_T0 in E.
    exact (rotation_keeps_wf world1 "secret-T0" None None None None
             (refresh_clock_at 1000000) "secret-T1" 2%N w' p H1 E). }
  destruct (run_Return rotate_T1 world2) as (w' & p & E); [vm_compute; eauto|].
  rewrite chain3_world3. unfold world3. rewrite E. cbn [fst]. unfold rotate_T1 in E.
  exact (rotation_keeps_wf world2 "secret-T1" None None None None
           (refresh_clock_at 2000000) "secret-T2" 3%N w' p H2 E).
Qed.

(** Without the order the walk need not end: on a record that names itself
    as its parent the loop runs forever. *)
Example revoke_token_chain_cycle :
  revoke_token_chain [self_parent_row] 1%N 5000000 = None.
Proof. vm_compute. reflexivity. Qed.

(** C4: rotating a valid token of an active user returns a pair once the
    new key and hash are free, the user's row is where the record points
    and the client values fit their columns; and whenever a rotation
    returns a pair, the old record is left revoked with [replaced_by_id]
    the new record's id, and the new record has [parent_token_id] the old
    record's id. *)
Theorem rotation_links_old_and_new (w : World) (secret : string)
    (dev dname ua ip : option string) (ck : RefreshClock)
    (new_secret : string) (new_id : uuid) :
  (forall old owner,
     is_token_valid (tokens w) (hash_token secret) (at_check ck) = true ->
     get_by_token_hash (tokens w) (hash_token secret) = Some old ->
     users w !! user_id old = Some owner -> is_active owner = true ->
     uid owner = user_id old ->
     rotation_columns_fit dev dname ua ip old = true ->
     fresh_in (tokens w) new_id (hash_token new_secret) ->
     exists w' pair,
       refresh_access_token secret dev dname ua ip ck new_secret new_id w
       = (w', Return pair))
  /\ (forall w' pair,
        refresh_access_token secret dev dname ua ip ck new_secret new_id w
        = (w', Return pair) ->
        exists old old' new,
          get_by_token_hash (tokens w) (hash_token secret) = Some old
          /\ is_revoked old = false
          /\ refresh_token pair = new_secret
          /\ get_by_token_hash (tokens w') (hash_token secret) = Some old'
          /\ id old' = id old
          /\ is_revoked old' = true
          /\ replaced_by_id old' = Some (id new)
          /\ get_by_token_hash (tokens w') (hash_token new_secret) = Some new
          /\ get (tokens w') new_id = Some new
          /\ id new = new_id
          /\ is_revoked new = false
          /\ parent_token_id new = Some (id old)
          /\ (forall r, r ∈ tokens w' -> id r = id old ->
                is_revoked r = true /\ replaced_by_id r = Some (id new))).
Proof.
  split.
  - intros old owner Hvalid Hold Howner Hactive Hkey Hfit Hfresh.
    destruct (refresh_access_token_run w secret dev dname ua ip ck new_secret new_id
                old owner Hvalid Hold Howner Hactive Hkey Hfit Hfresh) as [c' Hrun].
    eauto.
  - intros w' pair Hrun.
    destruct (refresh_access_token_Return_inv _ _ _ _ _ _ _ _ _ _ _ Hrun)
      as (Hvalid & old & owner & l' & tok & Hold & Howner & Hactive & Hins).
    destruct (rotation_post w secret dev dname ua ip ck new_secret new_id old owner
                l' tok Hvalid Hold Howner Hactive Hins)
      as (w'' & pair'' & old' & new & Hrun' & Hpost).
    rewrite Hrun in Hrun'. injection Hrun' as <- <-.
    exists old, old', new. split; [done|]. split; [|exact Hpost].
    unfold is_token_valid in Hvalid. rewrite Hold in Hvalid.
    by destruct (is_revoked old).
Qed.

(** ** The statements at the sample session *)

Lemma world1_tokens : tokens world1 = [sample_row].
Proof. vm_compute. reflexivity. Qed.

Lemma world1_fresh new_id new_secret :
  new_id <> 1%N -> hash_token new_secret <> token_hash sample_row ->
  fresh_in (tokens world1) new_id (hash_token new_secret).
Proof.
  intros Hid Hh r Hr. rewrite world1_tokens in Hr.
  apply list_elem_of_singleton in Hr. subst r. split; [by cbn | done].
Qed.

Lemma hash_T1_fresh : hash_token "secret-T1" <> token_hash sample_row.
Proof. intros H. vm_compute in H. discriminate H. Qed.

Lemma hash_X_fresh : hash_token "secret-X" <> token_hash sample_row.
Proof. intros H. vm_compute in H. discriminate H. Qed.

Lemma hash_T1_X : hash_token "secret-T1" <> hash_token "secret-X".
Proof. intros H. vm_compute in H. discriminate H. Qed.

Lemma rotation_links_old_and_new_witness :
  is_token_valid (tokens world1) (hash_token "secret-T0") 1000000 = true
  /\ get_by_token_hash (tokens world1) (hash_token "secret-T0") = Some sample_row
  /\ users world1 !! user_id sample_row = Some alice
  /\ is_active alice = true
  /\ uid alice = user_id sample_row
  /\ rotation_columns_fit None None None None sample_row = true
  /\ fresh_in (tokens world1) 2%N (hash_token "secret-T1")
  /\ exists w' pair old' new,
       rotate_T0 world1 = (w', Return pair)
       /\ refresh_token pair = "secret-T1"%string
       /\ get_by_token_hash (tokens w') (hash_token "secret-T0") = Some old'
       /\ is_revoked old' = true
       /\ replaced_by_id old' = Some (id new)
       /\ get (tokens w') 2%N = Some new
       /\ parent_token_id new = Some 1%N.
Proof.
  assert (H1 : is_token_valid (tokens world1) (hash_token "secret-T0")
                 (at_check (refresh_clock_at 1000000)) = true)
    by (vm_compute; reflexivity).
  assert (H2 : get_by_token_hash (tokens world1) (hash_token "secret-T0") = Some sample_row)
    by (vm_compute; reflexivity).
  assert (H3 : users world1 !! user_id sample_row = Some alice)
    by (vm_compute; reflexivity).
  assert (H4 : is_active alice = true) by reflexivity.
  assert (Hk : uid alice = user_id sample_row) by reflexivity.
  assert (Hf : rotation_columns_fit None None None None sample_row = true)
    by (vm_compute; reflexivity).
  assert (H5 : fresh_in (tokens world1) 2%N (hash_token "secret-T1"))
    by (apply world1_fresh; [discriminate | exact hash_T1_fresh]).
  do 7 (split; [assumption|]).
  destruct (rotation_links_old_and_new world1 "secret-T0" None None None None
              (refresh_clock_at 1000000) "secret-T1" 2%N) as [Hruns Hpost].
  destruct (Hruns sample_row alice H1 H2 H3 H4 Hk Hf H5) as (w' & pair & Hrun).
  destruct (Hpost w' pair Hrun)
    as (old & old' & new & Hold & _ & Hpair & Hold' & _ & Hrev & Hrepl & _ & Hnew & _ & _
        & Hpar & _).
  rewrite H2 in Hold. injection Hold as <-.
  exists w', pair, old', new. repeat split; assumption.
Defined.

Lemma revoke_step_unconditional_witness :
  is_token_valid (tokens world1) (hash_token "secret-T0") 1000000 = true
  /\ is_token_valid (tokens world1) (hash_token "secret-T0") 1000001 = true
  /\ get_by_token_hash (tokens world1) (hash_token "secret-T0") = Some sample_row
  /\ users world1 !! user_id sample_row = Some alice
  /\ is_active alice = true
  /\ uid alice = user_id sample_row
  /\ rotation_columns_fit None None None None sample_row = true
  /\ fresh_in (tokens world1) 2%N (hash_token "secret-T1")
  /\ fresh_in (tokens world1) 9%N (hash_token "secret-X")
  /\ 2%N <> 9%N
  /\ hash_token "secret-T1" <> hash_token "secret-X"
  /\ exists wA wB pairA pairB,
       refresh_issue "secret-T0" sample_row alice None None None None
         (refresh_clock_at 1000000) "secret-T1" 2%N world1 = (wA, Return pairA)
       /\ refresh_issue "secret-T0" sample_row alice None None None None
            (refresh_clock_at 1000001) "secret-X" 9%N wA = (wB, Return pairB)
       /\ (is_revoked <$> get (tokens wB) 2%N) = Some false
       /\ (is_revoked <$> get (tokens wB) 9%N) = Some false.
Proof.
  assert (H1 : is_token_valid (tokens world1) (hash_token "secret-T0")
                 (at_check (refresh_clock_at 1000000)) = true)
    by (vm_compute; reflexivity).
  assert (H1' : is_token_valid (tokens world1) (hash_token "secret-T0")
                  (at_check (refresh_clock_at 1000001)) = true)
    by (vm_compute; reflexivity).
  assert (H2 : get_by_token_hash (tokens world1) (hash_token "secret-T0") = Some sample_row)
    by (vm_compute; reflexivity).
  assert (H3 : users world1 !! user_id sample_row = Some alice)
    by (vm_compute; reflexivity).
  assert (H4 : is_active alice = true) by reflexivity.
  assert (Hk : uid alice = user_id sample_row) by reflexivity.
  assert (Hf : rotation_columns_fit None None None None sample_row = true)
    by (vm_compute; reflexivity).
  assert (H5 : fresh_in (tokens world1) 2%N (hash_token "secret-T1"))
    by (apply world1_fresh; [discriminate | exact hash_T1_fresh]).
  assert (H6 : fresh_in (tokens world1) 9%N (hash_token "secret-X"))
    by (apply world1_fresh; [discriminate | exact hash_X_fresh]).
  assert (H7 : 2%N <> 9%N) by discriminate.
  do 10 (split; [assumption|]). split; [exact hash_T1_X|].
  destruct (revoke_step_unconditional world1 "secret-T0" sample_row alice
              None None None None None None None None
              (refresh_clock_at 1000000) (refresh_clock_at 1000001)
              "secret-T1" "secret-X" 2%N 9%N H1 H1' H2 H3 H4 Hk Hf Hf H5 H6 H7 hash_T1_X)
    as (_ & _ & _ & wA & wB & pairA & pairB & HA & _ & HB & _ & _ & _ & HlA & HlB).
  exists wA, wB, pairA, pairB. repeat split; assumption.
Defined.

Lemma chain3_ids_unique : NoDup (map id chain3).
Proof. apply (bool_decide_unpack _). vm_compute. exact I. Qed.

Lemma chain3_ordered : chain_ordered chain3.
Proof.
  intros i j c p Hi Hj Hp.
  destruct i as [|[|[|i]]]; cbn in Hi; simplify_eq;
    destruct j as [|[|[|j]]]; cbn in Hj; simplify_eq; cbn in Hp;
    try discriminate Hp; lia.
Qed.

Lemma live_chain_ids_unique : NoDup (map id live_chain).
Proof. apply (bool_decide_unpack _). vm_compute. exact I. Qed.

Lemma live_chain_ordered : chain_ordered live_chain.
Proof.
  intros i j c p Hi Hj Hp.
  destruct i as [|[|[|i]]]; cbn in Hi; simplify_eq;
    destruct j as [|[|[|j]]]; cbn in Hj; simplify_eq; cbn in Hp;
    try discriminate Hp; lia.
Qed.

Lemma revoke_token_chain_ancestors_witness :
  NoDup (map id live_chain)
  /\ chain_ordered live_chain
  /\ (is_revoked <$> get live_chain 1%N) = Some false
  /\ (is_revoked <$> get live_chain 2%N) = Some false
  /\ exists start chain l',
       get live_chain 3%N = Some start
       /\ parent_path live_chain start chain
       /\ revoke_token_chain live_chain 3%N 5000000 = Some (l', 2)
       /\ (forall r', r' ∈ l' -> id r' = 1%N \/ id r' = 2%N ->
             is_revoked r' = true /\ revoked_at r' = Some 5000000)
       /\ l' !! 2%nat = Some start
       /\ is_revoked start = false.
Proof.
  split; [exact live_chain_ids_unique|]. split; [exact live_chain_ordered|].
  split; [reflexivity|]. split; [reflexivity|].
  destruct (get live_chain 3%N) as [start|] eqn:Hg; [|vm_compute in Hg; discriminate Hg].
  destruct (proj2 (revoke_token_chain_ancestors live_chain 3%N 5000000
                     live_chain_ids_unique live_chain_ordered) start Hg)
    as (chain & l' & Hpath & Hrun & _ & Hrows & Hrev & Hstart & _).
  assert (Hstart3 : live_chain !! 2%nat = Some start)
    by (vm_compute in Hg; injection Hg as <-; reflexivity).
  assert (Hchain : chain = [List.nth 1 live_chain sample_row; sample_row]).
  { vm_compute in Hg. injection Hg as <-.
    inversion Hpath as [? Hnone|? ? Hp Hgn|? ? p rest Hp Hgp Hrest]; subst.
    - discriminate Hnone.
    - injection Hp as <-. vm_compute in Hgn. discriminate Hgn.
    - injection Hp as <-. vm_compute in Hgp. injection Hgp as <-.
      inversion Hrest as [? Hnone|? ? Hp Hgn|? ? p rest' Hp Hgp Hrest']; subst.
      + discriminate Hnone.
      + injection Hp as <-. vm_compute in Hgn. discriminate Hgn.
      + injection Hp as <-. vm_compute in Hgp. injection Hgp as <-.
        inversion Hrest' as [? Hnone|? ? Hp Hgn|? ? p rest'' Hp Hgp Hrest'']; subst;
          [reflexivity | discriminate Hp | discriminate Hp]. }
  exists start, chain, l'. split; [done|]. split; [done|].
  split; [by rewrite Hrun, Hchain|]. split.
  - intros r' Hr' Hid. apply (Hrev r' Hr'). rewrite Hchain.
    destruct Hid as [Hid|Hid].
    + exists sample_row. split; [apply list_elem_of_further, list_elem_of_here | done].
    + exists (List.nth 1 live_chain sample_row). split; [apply list_elem_of_here | done].
  - split.
    + by apply (proj2 (Hrows 2%nat start Hstart3)).
    + vm_compute in Hg. by injection Hg as <-.
Defined.

Lemma revocation_never_reverts_witness :
  NoDup (map id [rotated_row])
  /\ rotated_row ∈ [rotated_row]
  /\ is_revoked rotated_row = true
  /\ set_replaced_by None (set_revoked 20 rotated_row)
     ∈ ledger_after ∅ (OpRevokeToken 1%N None) 20 [rotated_row]
  /\ id (set_replaced_by None (set_revoked 20 rotated_row)) = id rotated_row
  /\ is_revoked (set_replaced_by None (set_revoked 20 rotated_row)) = true.
Proof.
  assert (H1 : NoDup (map id [rotated_row])) by apply NoDup_singleton.
  assert (H2 : rotated_row ∈ [rotated_row]) by apply list_elem_of_here.
  assert (H3 : is_revoked rotated_row = true) by reflexivity.
  assert (H4 : set_replaced_by None (set_revoked 20 rotated_row)
               ∈ ledger_after ∅ (OpRevokeToken 1%N None) 20 [rotated_row])
    by apply list_elem_of_here.
  assert (H5 : id (set_replaced_by None (set_revoked 20 rotated_row)) = id rotated_row)
    by reflexivity.
  do 5 (split; [assumption|]).
  exact (revocation_never_reverts ∅ (OpRevokeToken 1%N None) 20 [rotated_row]
           rotated_row (set_replaced_by None (set_revoked 20 rotated_row)) H1 H2 H3 H4 H5).
Defined.

Lemma world4_two_row_T3 :
  get_by_token_hash (tokens world4_two) (hash_token "secret-T3") = Some row_T3.
Proof. vm_compute. reflexivity. Qed.

Lemma world0_fresh new_id h : fresh_in (tokens world0) new_id h.
Proof. intros r Hr. by apply elem_of_nil in Hr. Qed.

Lemma sample_ids_distinct : NoDup [1%N; 2%N; 3%N; 4%N].
Proof. apply (bool_decide_unpack _). vm_compute. exact I. Qed.

Lemma sample_hashes_distinct :
  NoDup [hash_token "secret-T0"; hash_token "secret-T1";
         hash_token "secret-T2"; hash_token "secret-T3"].
Proof. apply (bool_decide_unpack _). vm_compute. exact I. Qed.

Lemma logout_all_spares_one_witness :
  ("secret-T3"%string <> EmptyString
   /\ get_by_token_hash (tokens world4_two) (hash_token "secret-T3") = Some row_T3
   /\ user_id row_T3 = 7%N
   /\ (is_revoked <$> get (tokens world4_two) 5%N) = Some false
   /\ exists w' n,
        logout_all_but_T3 world4_two = (w', Return n)
        /\ n = 1
        /\ get_by_token_hash (tokens w') (hash_token "secret-T3") = Some row_T3
        /\ (is_revoked <$> get (tokens w') 5%N) = Some true
        /\ (forall r', r' ∈ tokens w' -> user_id r' = 7%N -> id r' <> id row_T3 ->
              is_revoked r' = true))
  /\ (users world0 !! uid alice = Some alice
      /\ is_active alice = true
      /\ client_columns_fit (Some "D1"%string) None None None = true
      /\ NoDup [1%N; 2%N; 3%N; 4%N]
      /\ NoDup [hash_token "secret-T0"; hash_token "secret-T1";
                hash_token "secret-T2"; hash_token "secret-T3"]
      /\ exists w5,
           revoked_at_hash (tokens w5) (hash_token "secret-T0")
           /\ revoked_at_hash (tokens w5) (hash_token "secret-T1")
           /\ revoked_at_hash (tokens w5) (hash_token "secret-T2")
           /\ is_token_valid (tokens w5) (hash_token "secret-T3") 4000000 = true).
Proof.
  assert (H1 : "secret-T3"%string <> EmptyString) by discriminate.
  assert (H3 : user_id row_T3 = 7%N) by reflexivity.
  assert (Hu : users world0 !! uid alice = Some alice) by (vm_compute; reflexivity).
  assert (Ha : is_active alice = true) by reflexivity.
  assert (Hf : client_columns_fit (Some "D1"%string) None None None = true)
    by (vm_compute; reflexivity).
  split.
  - split; [exact H1|]. split; [exact world4_two_row_T3|]. split; [exact H3|].
    split; [vm_compute; reflexivity|].
    destruct (proj1 (proj2 logout_all_spares_one) world4_two 7%N "secret-T3"%string 4000000
                row_T3 H1 world4_two_row_T3 H3)
      as (w' & n & Hrun & Hspared & _ & Hrest & _).
    exists w', n. split; [exact Hrun|].
    pose proof (f_equal snd Hrun) as Hn. pose proof (f_equal fst Hrun) as Hw.
    cbn [fst snd] in Hn, Hw. unfold logout_all_but_T3.
    split; [vm_compute in Hn; by injection Hn as <-|].
    split; [exact Hspared|]. split; [|exact Hrest].
    rewrite <- Hw. vm_compute. reflexivity.
  - split; [exact Hu|]. split; [exact Ha|]. split; [exact Hf|].
    split; [exact sample_ids_distinct|]. split; [exact sample_hashes_distinct|].
    destruct (proj2 (proj2 logout_all_spares_one) world0 alice
                (Some "D1"%string) None None None
                "secret-T0"%string "secret-T1"%string "secret-T2"%string "secret-T3"%string
                1%N 2%N 3%N 4%N (pair_clock_at 0) (refresh_clock_at 1000000)
                (refresh_clock_at 2000000) (refresh_clock_at 3000000) 4000000
                Hu Ha Hf (world0_fresh _ _) (world0_fresh _ _) (world0_fresh _ _)
                (world0_fresh _ _) sample_ids_distinct sample_hashes_distinct H1)
      as (w1 & w2 & w3 & w4 & w5 & p0 & p1 & p2 & p3 & n & _ & _ & _ & _ & _
          & _ & _ & _ & _ & R0 & R1 & R2 & V3);
      [cbn; unfold days, seconds, REFRESH_TOKEN_EXPIRE_DAYS; lia..|].
    exists w5. repeat split; assumption.
Defined.

(** * Further properties of the repository *)

Ltac as_find_by :=
  repeat match goal with
         | |- context [get ?l ?x] => change (get l x) with (find_by id l x)
         | |- context [get_by_token_hash ?l ?h] =>
             change (get_by_token_hash l h) with (find_by token_hash l h)
         end.

(** ** Inserting and looking up *)

(** X1: A created record is found under its key and under its stored hash
    (the hash as given whenever that has at most 64 characters), is live
    until [now + expires_delta] inclusive, belongs to a known user, and no
    other lookup changes. *)
Theorem create_token_then_lookup (us : gmap uuid User) (l : ledger) (new_id user : uuid)
    (h : string) (dev dname ua ip : option string) (delta : timedelta)
    (parent : option uuid) (now : datetime) (l' : ledger) (tok : RefreshToken) :
  create_token us l new_id user h dev dname ua ip delta parent now = Some (l', tok) ->
  get l' new_id = Some tok
  /\ get_by_token_hash l' (token_hash tok) = Some tok
  /\ ((char_length h <= 64)%nat -> token_hash tok = h)
  /\ user_id tok = user /\ is_revoked tok = false /\ parent_token_id tok = parent
  /\ expires_at tok = now + delta
  /\ (forall now', is_token_valid l' (token_hash tok) now' = true <-> now' <= now + delta)
  /\ (forall x, x <> new_id -> get l' x = get l x)
  /\ (forall h', h' <> token_hash tok -> get_by_token_hash l' h' = get_by_token_hash l h')
  /\ is_Some (us !! user).
Proof.
  intros Hc. apply create_token_fresh in Hc
    as (h' & dev' & dname' & ua' & ip' & Hh' & _ & _ & _ & _ & -> & -> & Hfresh & Hknown).
  destruct (fresh_in_lookups _ _ _ Hfresh) as [Hgid Hgh].
  set (tok := new_token _ _ _ _ _ _ _ _ _ _).
  assert (Hh : get_by_token_hash (l ++ [tok]) h' = Some tok)
    by (by apply get_by_token_hash_app_new).
  split.
  { rewrite get_find_by, find_by_app_r by (by rewrite <- get_find_by).
    by apply find_by_singleton. }
  split; [exact Hh|].
  split; [intros Hlen; exact (varchar_short _ _ _ Hh' Hlen)|].
  do 4 (split; [done|]). split; [|split; [|split; [|exact Hknown]]].
  - intros now'. unfold is_token_valid. cbn [token_hash tok new_token]. rewrite Hh. cbn.
    rewrite negb_true_iff, Z.ltb_ge. done.
  - intros x Hx. as_find_by.
    destruct (find_by id l x) as [r|] eqn:E.
    + by apply find_by_app_l.
    + rewrite find_by_app_r by done. unfold find_by. cbn.
      rewrite bool_decide_eq_false_2; [done | congruence].
  - intros h0 Hh0. cbn [token_hash tok new_token] in Hh0. as_find_by.
    destruct (find_by token_hash l h0) as [r|] eqn:E.
    + by apply find_by_app_l.
    + rewrite find_by_app_r by done. unfold find_by. cbn.
      rewrite bool_decide_eq_false_2; [done | congruence].
Qed.

Lemma create_token_then_lookup_witness :
  create_token {[ 7%N := alice ]} [sample_row] 2%N 7%N "h2" None None None None 1000
    (Some 1%N) 50
  = Some ([sample_row; new_token 2%N 7%N "h2" None None None None 1050 (Some 1%N) 50],
          new_token 2%N 7%N "h2" None None None None 1050 (Some 1%N) 50)
  /\ get [sample_row; new_token 2%N 7%N "h2" None None None None 1050 (Some 1%N) 50] 2%N
     = Some (new_token 2%N 7%N "h2" None None None None 1050 (Some 1%N) 50).
Proof.
  assert (H : create_token {[ 7%N := alice ]} [sample_row] 2%N 7%N "h2" None None None None
                1000 (Some 1%N) 50
              = Some ([sample_row; new_token 2%N 7%N "h2" None None None None 1050
                                     (Some 1%N) 50],
                      new_token 2%N 7%N "h2" None None None None 1050 (Some 1%N) 50))
    by (vm_compute; reflexivity).
  split; [exact H|].
  exact (proj1 (create_token_then_lookup _ _ _ _ _ _ _ _ _ _ _ _ _ _ H)).
Defined.

(** ** Listing a user's sessions *)

Lemma filter_nil_iff (keep : RefreshToken -> bool) (l : ledger) :
  List.filter keep l = [] <-> forall r, r ∈ l -> keep r = false.
Proof.
  induction l as [|a l IH]; cbn.
  - split; [intros _ r Hr; by apply elem_of_nil in Hr | done].
  - destruct (keep a) eqn:E; split.
    + done.
    + intros H. specialize (H a (list_elem_of_here _ _)). congruence.
    + intros H r Hr. apply elem_of_cons in Hr as [->|Hr]; [done | by apply IH].
    + intros H. apply IH. intros r Hr. apply H. by right.
Qed.

(** X3: [get_user_tokens] lists exactly the user's records, on the given device
    when a non-empty device id is passed, and only the non-revoked ones
    unless asked otherwise; an empty device id filters nothing. *)
Theorem get_user_tokens_lists (l : ledger) (user : uuid) (dev : option string)
    (include_revoked : bool) :
  (forall r, r ∈ get_user_tokens l user dev include_revoked
             <-> r ∈ l /\ user_id r = user
                 /\ (truthy dev = true -> device_id r = dev)
                 /\ (include_revoked = false -> is_revoked r = false))
  /\ get_user_tokens l user (Some EmptyString) include_revoked
     = get_user_tokens l user None include_revoked
  /\ (forall r, r ∈ get_user_tokens l user dev false ->
                r ∈ get_user_tokens l user dev true).
Proof.
  assert (Hspec : forall d inc r, r ∈ get_user_tokens l user d inc
             <-> r ∈ l /\ user_id r = user
                 /\ (truthy d = true -> device_id r = d)
                 /\ (inc = false -> is_revoked r = false)).
  { intros d inc r. unfold get_user_tokens.
    rewrite list_elem_of_In, filter_In, <- list_elem_of_In, !andb_true_iff.
    rewrite bool_decide_eq_true.
    destruct (truthy d), inc; rewrite ?bool_decide_eq_true, ?negb_true_iff;
      intuition congruence. }
  split; [apply Hspec|]. split; [reflexivity|].
  intros r Hr. apply Hspec in Hr as (H1 & H2 & H3 & _). apply Hspec.
  split; [done|]. split; [done|]. split; [done|]. intros H. discriminate H.
Qed.

(** ** Revoking a device's sessions *)

Lemma device_target_cond user dev r :
  bool_decide (user_id r = user) && bool_decide (device_id r = Some dev)
  && negb (is_revoked r)
  = bool_decide (device_target user dev r).
Proof.
  destruct (decide (device_target user dev r)) as [Ht|Ht].
  - rewrite (bool_decide_eq_true_2 _ Ht). destruct Ht as (Hu & Hd & Hrev).
    by rewrite (bool_decide_eq_true_2 _ Hu), (bool_decide_eq_true_2 _ Hd), Hrev.
  - rewrite (bool_decide_eq_false_2 _ Ht).
    destruct (decide (user_id r = user)) as [Hu|Hu];
      [|by rewrite (bool_decide_eq_false_2 _ Hu)].
    destruct (decide (device_id r = Some dev)) as [Hd|Hd];
      [|by rewrite (bool_decide_eq_false_2 _ Hd), andb_false_r].
    destruct (is_revoked r) eqn:Hrev; [by rewrite andb_false_r|].
    exfalso. apply Ht. by repeat split.
Qed.

Lemma revoke_device_tokens_rows l user dev now :
  revoke_device_tokens l user dev now
  = update_where (fun r => bool_decide (device_target user dev r)) (set_revoked now) l.
Proof.
  unfold revoke_device_tokens, update_where. f_equal.
  - apply map_ext. intros r. by rewrite device_target_cond.
  - do 2 f_equal. induction l as [|a l IH]; [done|]. cbn.
    rewrite device_target_cond, IH. done.
Qed.

(** X4: [revoke_device_tokens] revokes exactly the user's live records of that
    device and counts them; records of other devices, of other users and
    without a device id are left as they were.  Afterwards the device has no
    live session to list, and a second call finds nothing to revoke. *)
Theorem revoke_device_tokens_exact (l : ledger) (user : uuid) (dev : string)
    (now : datetime) :
  let l' := fst (revoke_device_tokens l user dev now) in
  length l' = length l
  /\ (forall i r, l !! i = Some r ->
        (device_target user dev r -> l' !! i = Some (set_revoked now r))
        /\ (~ device_target user dev r -> l' !! i = Some r))
  /\ snd (revoke_device_tokens l user dev now)
     = Z.of_nat (length (List.filter
                           (fun r => bool_decide (device_target user dev r)) l))
  /\ (forall r, r ∈ l' -> user_id r = user -> device_id r = Some dev ->
                is_revoked r = true)
  /\ (dev <> EmptyString -> get_user_tokens l' user (Some dev) false = [])
  /\ (forall now', revoke_device_tokens l' user dev now' = (l', 0)).
Proof.
  cbn zeta. rewrite revoke_device_tokens_rows.
  set (f := fun r => if bool_decide (device_target user dev r)
                     then set_revoked now r else r).
  assert (Hdone : forall r, r ∈ fst (update_where
                     (fun r => bool_decide (device_target user dev r))
                     (set_revoked now) l) ->
                   user_id r = user -> device_id r = Some dev -> is_revoked r = true).
  { intros r Hr Hu Hd. cbn in Hr. apply list_elem_of_fmap in Hr as (r0 & -> & Hr0).
    destruct (decide (device_target user dev r0)) as [Ht|Ht].
    - by rewrite bool_decide_eq_true_2.
    - rewrite bool_decide_eq_false_2 in Hu, Hd |- * by done.
      destruct (is_revoked r0) eqn:Hrev; [done|]. exfalso. apply Ht. by repeat split. }
  split; [apply update_where_length|]. split.
  { intros i r Hi. rewrite update_where_lookup, Hi. cbn. split; intros H.
    - by rewrite bool_decide_eq_true_2.
    - by rewrite bool_decide_eq_false_2. }
  split; [done|]. split; [exact Hdone|]. split.
  - intros Hne. unfold get_user_tokens. apply filter_nil_iff. intros r Hr.
    cbn [truthy]. rewrite (bool_decide_eq_false_2 (dev = EmptyString)) by done. cbn [negb].
    destruct (decide (user_id r = user)) as [Hu|Hu];
      [|by rewrite (bool_decide_eq_false_2 _ Hu)].
    destruct (decide (device_id r = Some dev)) as [Hd|Hd];
      [|by rewrite (bool_decide_eq_false_2 _ Hd), andb_false_r].
    by rewrite (Hdone r Hr Hu Hd), andb_false_r.
  - intros now'. rewrite revoke_device_tokens_rows. apply update_where_none.
    intros r Hr. apply bool_decide_eq_false_2. intros (Hu & Hd & Hrev).
    by rewrite (Hdone r Hr Hu Hd) in Hrev.
Qed.

(** X5: After [revoke_all_user_tokens] without an exception the user has no live
    session to list on any device, a second call finds nothing to revoke,
    and no other user's listing changes. *)
Theorem revoke_all_then_nothing_listed (l : ledger) (user : uuid) (now : datetime) :
  let l' := fst (revoke_all_user_tokens l user None now) in
  (forall dev, get_user_tokens l' user dev false = [])
  /\ (forall now', revoke_all_user_tokens l' user None now' = (l', 0))
  /\ (forall other dev inc, other <> user ->
        get_user_tokens l' other dev inc = get_user_tokens l other dev inc).
Proof.
  cbn zeta. rewrite revoke_all_user_tokens_rows.
  assert (Hdone : forall r, r ∈ fst (update_where
                     (fun r => bool_decide (bulk_target user None r))
                     (set_revoked now) l) ->
                   user_id r = user -> is_revoked r = true).
  { intros r Hr Hu. cbn in Hr. apply list_elem_of_fmap in Hr as (r0 & -> & Hr0).
    destruct (decide (bulk_target user None r0)) as [Ht|Ht].
    - by rewrite bool_decide_eq_true_2.
    - rewrite bool_decide_eq_false_2 in Hu |- * by done.
      destruct (is_revoked r0) eqn:Hrev; [done|]. exfalso. apply Ht. by repeat split. }
  split; [|split].
  - intros dev. unfold get_user_tokens. apply filter_nil_iff. intros r Hr.
    destruct (decide (user_id r = user)) as [Hu|Hu];
      [|by rewrite (bool_decide_eq_false_2 _ Hu)].
    by rewrite (Hdone r Hr Hu), andb_false_r.
  - intros now'. rewrite revoke_all_user_tokens_rows. apply update_where_none.
    intros r Hr. apply bool_decide_eq_false_2. intros (Hu & Hrev & _).
    by rewrite (Hdone r Hr Hu) in Hrev.
  - intros other dev inc Hne. unfold get_user_tokens. cbn [fst update_where].
    clear Hdone. induction l as [|a l IH]; [done|]. cbn [map List.filter].
    destruct (decide (bulk_target user None a)) as [Ht|Ht].
    + rewrite (bool_decide_eq_true_2 _ Ht). destruct Ht as (Hu & _).
      cbn [user_id set_revoked].
      rewrite (bool_decide_eq_false_2 (user_id a = other)) by congruence.
      cbn [andb]. apply IH.
    + rewrite (bool_decide_eq_false_2 _ Ht), IH. done.
Qed.

(** ** The sweep *)

Lemma filter_length_split (keep : RefreshToken -> bool) (l : ledger) :
  (length (List.filter keep l) + length (List.filter (fun r => negb (keep r)) l)
   = length l)%nat.
Proof.
  induction l as [|a l IH]; [done|]. cbn. destruct (keep a); cbn; lia.
Qed.

Lemma find_by_filter_kept {K : Type} `{EqDecision K} (key : RefreshToken -> K)
    (keep : RefreshToken -> bool) (l : ledger) (k : K) (r : RefreshToken) :
  find_by key l k = Some r -> keep r = true ->
  find_by key (List.filter keep l) k = Some r.
Proof.
  unfold find_by. induction l as [|a l IH]; [done|]. cbn. intros Hf Hk.
  destruct (bool_decide (key a = k)) eqn:E.
  - injection Hf as ->. rewrite Hk. cbn. by rewrite E.
  - destruct (keep a); [cbn; rewrite E|]; by apply IH.
Qed.

(** X6: [cleanup_expired_tokens] deletes exactly the records whose [expires_at]
    is before [now], revoked or not, and reports their number; a token that
    the validity check accepts now or later is never deleted, and with
    unique hashes the check answers the same before and after the sweep.  A
    second sweep at the same instant deletes nothing. *)
Theorem cleanup_expired_tokens_exact (l : ledger) (now : datetime) :
  let l' := fst (cleanup_expired_tokens l now) in
  (forall r, r ∈ l' <-> r ∈ l /\ now <= expires_at r)
  /\ snd (cleanup_expired_tokens l now) = Z.of_nat (length l) - Z.of_nat (length l')
  /\ (forall h now' r, now <= now' ->
        get_by_token_hash l h = Some r -> is_token_valid l h now' = true ->
        get_by_token_hash l' h = Some r /\ is_token_valid l' h now' = true)
  /\ (NoDup (map token_hash l) ->
      forall h now', now <= now' -> is_token_valid l' h now' = is_token_valid l h now')
  /\ cleanup_expired_tokens l' now = (l', 0).
Proof.
  cbn zeta. cbn [fst snd cleanup_expired_tokens].
  set (keep := fun r : RefreshToken => negb (expires_at r <? now)).
  assert (Hin : forall r, r ∈ List.filter keep l <-> r ∈ l /\ now <= expires_at r).
  { intros r. rewrite list_elem_of_In, filter_In, <- list_elem_of_In.
    unfold keep. by rewrite negb_true_iff, Z.ltb_ge. }
  assert (Hvalid : forall h now' r, now <= now' ->
            get_by_token_hash l h = Some r -> is_token_valid l h now' = true ->
            get_by_token_hash (List.filter keep l) h = Some r
            /\ is_token_valid (List.filter keep l) h now' = true).
  { intros h now' r Hle Hg Hv. unfold is_token_valid in Hv. rewrite Hg in Hv.
    destruct (is_revoked r) eqn:Hrev; [done|].
    apply negb_true_iff, Z.ltb_ge in Hv.
    assert (Hg' : get_by_token_hash (List.filter keep l) h = Some r).
    { apply (find_by_filter_kept token_hash); [done|].
      unfold keep. apply negb_true_iff, Z.ltb_ge. lia. }
    split; [done|]. unfold is_token_valid. rewrite Hg', Hrev.
    apply negb_true_iff, Z.ltb_ge. lia. }
  split; [exact Hin|]. split.
  { pose proof (filter_length_split keep l) as Hlen.
    assert (Heq : List.filter (fun r => negb (keep r)) l
                  = List.filter (fun r => expires_at r <? now) l).
    { apply filter_ext. intros r. unfold keep. apply negb_involutive. }
    rewrite Heq in Hlen. lia. }
  split; [exact Hvalid|]. split.
  - intros Hnd h now' Hle.
    destruct (is_token_valid l h now') eqn:Hv.
    + unfold is_token_valid in Hv.
      destruct (get_by_token_hash l h) as [r|] eqn:Hg; [|done].
      apply (Hvalid h now' r Hle Hg). unfold is_token_valid. by rewrite Hg.
    + destruct (is_token_valid (List.filter keep l) h now') eqn:Hv'; [|done].
      exfalso. unfold is_token_valid in Hv'.
      destruct (get_by_token_hash (List.filter keep l) h) as [r|] eqn:Hg; [|done].
      rewrite get_by_token_hash_find_by in Hg. apply find_by_Some in Hg as [Hr Hh].
      apply Hin in Hr as [Hr _]. subst h.
      unfold is_token_valid in Hv.
      rewrite get_by_token_hash_find_by, (find_by_unique token_hash l r Hnd Hr) in Hv.
      congruence.
  - unfold cleanup_expired_tokens. fold keep. f_equal.
    + apply forallb_filter_id. apply forallb_forall. intros r Hr.
      by apply filter_In in Hr as [_ Hr].
    + assert (Hnone : List.filter (fun r => expires_at r <? now) (List.filter keep l) = []).
      { apply filter_nil_iff. intros r Hr. apply Hin in Hr as [_ Hr].
        by apply Z.ltb_ge. }
      by rewrite Hnone.
Qed.

Lemma cleanup_expired_tokens_exact_witness :
  NoDup (map token_hash mixed_table)
  /\ is_token_valid (fst (cleanup_expired_tokens mixed_table 1000)) "h2" 2000
     = is_token_valid mixed_table "h2" 2000.
Proof.
  assert (Hnd : NoDup (map token_hash mixed_table))
    by (apply (bool_decide_unpack _); vm_compute; exact I).
  split; [exact Hnd|].
  destruct (cleanup_expired_tokens_exact mixed_table 1000) as (_ & _ & _ & Hsame & _).
  apply (Hsame Hnd). lia.
Defined.

(** ** The sweep and the chains *)

Lemma chain_ordered_parents_before (l : ledger) : chain_ordered l <-> parents_before l.
Proof.
  induction l as [|c rest IH].
  - split; [done|]. intros _ i j c p Hi. by rewrite lookup_nil in Hi.
  - cbn [parents_before]. split.
    + intros Hord. split.
      * intros p Hp Hpar. apply list_elem_of_lookup in Hp as [j Hj].
        pose proof (Hord 0%nat j c p eq_refl Hj Hpar). lia.
      * apply IH. intros i j c' p Hi Hj Hpar.
        pose proof (Hord (S i) (S j) c' p Hi Hj Hpar). lia.
    + intros [Hhead Hrest] i j c' p Hi Hj Hpar.
      destruct i as [|i].
      * cbn in Hi. injection Hi as <-. exfalso. apply (Hhead p); [|done].
        apply list_elem_of_lookup. by exists j.
      * destruct j as [|j]; [lia|]. cbn in Hi, Hj.
        pose proof (proj2 IH Hrest i j c' p Hi Hj Hpar). lia.
Qed.

Lemma parents_before_filter (keep : RefreshToken -> bool) (l : ledger) :
  parents_before l -> parents_before (List.filter keep l).
Proof.
  induction l as [|c rest IH]; [done|]. cbn. intros [Hhead Hrest].
  destruct (keep c); [|by apply IH]. cbn. split; [|by apply IH].
  intros p Hp. apply Hhead.
  apply elem_of_cons in Hp as [->|Hp]; [by left|]. right.
  apply list_elem_of_In, filter_In in Hp as [Hp _]. by apply list_elem_of_In.
Qed.

(** X7: The sweep keeps the keys distinct and the parents older, although it
    leaves pointers to deleted parents behind; so a chain revocation on the
    swept table still ends, whatever record it starts from. *)
Theorem cleanup_keeps_chains_walkable (l : ledger) (now : datetime) :
  NoDup (map id l) -> chain_ordered l ->
  let l' := fst (cleanup_expired_tokens l now) in
  NoDup (map id l') /\ chain_ordered l'
  /\ forall token_id now', exists l'' n, revoke_token_chain l' token_id now' = Some (l'', n).
Proof.
  intros Hnd Hord. cbn zeta. cbn [fst cleanup_expired_tokens].
  assert (Hnd' : NoDup (map id (List.filter (fun r => negb (expires_at r <? now)) l)))
    by (by apply NoDup_map_filter).
  assert (Hord' : chain_ordered (List.filter (fun r => negb (expires_at r <? now)) l)).
  { apply chain_ordered_parents_before, parents_before_filter.
    by apply chain_ordered_parents_before. }
  split; [done|]. split; [done|].
  intros token_id now'.
  destruct (get (List.filter (fun r => negb (expires_at r <? now)) l) token_id)
    as [start|] eqn:Hg.
  - destruct (revoke_token_chain_update _ token_id now' start Hnd' Hord' Hg)
      as (chain & _ & _ & Hrun).
    rewrite Hrun. destruct (update_where _ _ _) as [l'' n]. by exists l'', n.
  - unfold revoke_token_chain. rewrite Hg. by eexists _, _.
Qed.

Lemma cleanup_keeps_chains_walkable_witness :
  NoDup (map id chain3) /\ chain_ordered chain3
  /\ exists l'' n,
       revoke_token_chain (fst (cleanup_expired_tokens chain3 2592000500000)) 3%N
         2592000500000 = Some (l'', n).
Proof.
  split; [exact chain3_ids_unique|]. split; [exact chain3_ordered|].
  exact (proj2 (proj2 (cleanup_keeps_chains_walkable chain3 2592000500000
                         chain3_ids_unique chain3_ordered)) 3%N 2592000500000).
Defined.

(** ** Revocation takes effect *)

Lemma revoke_token_then_invalid_rows (l : ledger) (h : string) (r : RefreshToken)
    (rb : option uuid) (now : datetime) :
  get_by_token_hash l h = Some r ->
  (forall now', is_token_valid (fst (revoke_token l (id r) rb now)) h now' = false)
  /\ get_by_token_hash (fst (revoke_token l (id r) rb now)) h
     = Some (set_replaced_by rb (set_revoked now r)).
Proof.
  intros Hg. rewrite revoke_token_rows.
  assert (Hr : get_by_token_hash
                 (map (fun x => if bool_decide (id x = id r)
                                then set_replaced_by rb (set_revoked now x) else x) l) h
               = Some (set_replaced_by rb (set_revoked now r))).
  { as_find_by. rewrite find_by_map by (intros x; by destruct (bool_decide _)).
    change (find_by token_hash l h) with (get_by_token_hash l h). rewrite Hg. cbn.
    by rewrite bool_decide_eq_true_2. }
  split; [|exact Hr]. intros now'. unfold is_token_valid. by rewrite Hr.
Qed.

(** X8: Once the record stored under a hash is revoked by its key, the validity
    check rejects the hash at every instant, and the records stored under
    other keys are found unchanged. *)
Theorem revoke_token_then_invalid (l : ledger) (h : string) (r : RefreshToken)
    (rb : option uuid) (now : datetime) :
  get_by_token_hash l h = Some r ->
  let l' := fst (revoke_token l (id r) rb now) in
  (forall now', is_token_valid l' h now' = false)
  /\ get_by_token_hash l' h = Some (set_replaced_by rb (set_revoked now r))
  /\ (forall h' r', get_by_token_hash l h' = Some r' -> id r' <> id r ->
        get_by_token_hash l' h' = Some r'
        /\ forall now', is_token_valid l' h' now' = is_token_valid l h' now').
Proof.
  intros Hg. cbn zeta. rewrite revoke_token_rows.
  set (f := fun x => if bool_decide (id x = id r)
                     then set_replaced_by rb (set_revoked now x) else x).
  assert (Hfh : forall x, token_hash (f x) = token_hash x)
    by (intros x; unfold f; by destruct (bool_decide _)).
  assert (Hlook : forall h', get_by_token_hash (map f l) h' = f <$> get_by_token_hash l h').
  { intros h'. as_find_by. by apply find_by_map. }
  assert (Hr : get_by_token_hash (map f l) h = Some (set_replaced_by rb (set_revoked now r))).
  { rewrite Hlook, Hg. cbn. unfold f. by rewrite bool_decide_eq_true_2. }
  split; [|split; [exact Hr|]].
  - intros now'. unfold is_token_valid. by rewrite Hr.
  - intros h' r' Hg' Hne.
    assert (Hr' : get_by_token_hash (map f l) h' = Some r').
    { rewrite Hlook, Hg'. cbn. unfold f. by rewrite bool_decide_eq_false_2. }
    split; [exact Hr'|]. intros now'. unfold is_token_valid. by rewrite Hr', Hg'.
Qed.

Lemma revoke_token_then_invalid_witness :
  get_by_token_hash chain3 (hash_token "secret-T2") = Some (default sample_row (last chain3))
  /\ is_token_valid (fst (revoke_token chain3 3%N None 2500000))
       (hash_token "secret-T2") 2500000 = false.
Proof.
  assert (H : get_by_token_hash chain3 (hash_token "secret-T2")
              = Some (default sample_row (last chain3))) by (vm_compute; reflexivity).
  split; [exact H|].
  exact (proj1 (revoke_token_then_invalid chain3 (hash_token "secret-T2") _ None 2500000 H)
           2500000).
Defined.

(** * Further properties of the service *)

Lemma refresh_key_inj h1 h2 : refresh_key h1 = refresh_key h2 -> h1 = h2.
Proof. unfold refresh_key. cbn. intros H. by simplify_eq. Qed.

Lemma get_cached_token_invalidated c h now :
  get_cached_token (invalidate_token_cache c h) h now = None.
Proof.
  unfold get_cached_token, invalidate_token_cache, redis_get, redis_delete.
  by rewrite lookup_delete_eq.
Qed.

Lemma get_cached_token_invalidated_other c h h' now :
  h' <> h ->
  get_cached_token (invalidate_token_cache c h) h' now = get_cached_token c h' now.
Proof.
  intros Hne. unfold get_cached_token, invalidate_token_cache, redis_get, redis_delete.
  rewrite lookup_delete_ne; [done|]. intros Heq. by apply refresh_key_inj in Heq.
Qed.

(** ** Logging out of one device *)

Lemma logout_device_run (w : World) (user : uuid) (secret : string)
    (now : datetime) (r : RefreshToken) :
  get_by_token_hash (tokens w) (hash_token secret) = Some r ->
  user_id r = user ->
  logout_device user secret now w
  = ({| tokens := fst (revoke_token (tokens w) (id r) None now);
        users := users w;
        cache := invalidate_token_cache (cache w) (hash_token secret) |},
     Return "Successfully logged out from this device."%string).
Proof.
  intros Hg Hu. unfold logout_device, bind, gets.
  by rewrite Hg, (bool_decide_eq_true_2 _ Hu).
Qed.

(** X9: [logout_device] refuses an unknown secret and a secret of another user
    without writing anything.  For the user's own secret it revokes that
    record (clearing any forward link), drops its cache entry and leaves the
    users and every other cache entry alone; the secret is rejected by the
    validity check from then on. *)
Theorem logout_device_outcomes (w : World) (user : uuid) (secret : string)
    (now : datetime) :
  (get_by_token_hash (tokens w) (hash_token secret) = None ->
     logout_device user secret now w = (w, Raise (NotFoundError "Token not found.")))
  /\ (forall r, get_by_token_hash (tokens w) (hash_token secret) = Some r ->
        user_id r <> user ->
        logout_device user secret now w
        = (w, Raise (AuthorizationError "Token does not belong to this user.")))
  /\ (forall r, get_by_token_hash (tokens w) (hash_token secret) = Some r ->
        user_id r = user ->
        exists w',
          logout_device user secret now w
          = (w', Return "Successfully logged out from this device."%string)
          /\ tokens w' = fst (revoke_token (tokens w) (id r) None now)
          /\ users w' = users w
          /\ get_by_token_hash (tokens w') (hash_token secret)
             = Some (set_replaced_by None (set_revoked now r))
          /\ (forall now', is_token_valid (tokens w') (hash_token secret) now' = false)
          /\ (forall now', get_cached_token (cache w') (hash_token secret) now' = None)
          /\ (forall h' now', h' <> hash_token secret ->
                get_cached_token (cache w') h' now' = get_cached_token (cache w) h' now')).
Proof.
  split; [|split].
  - intros Hg. unfold logout_device, bind, gets. by rewrite Hg.
  - intros r Hg Hu. unfold logout_device, bind, gets.
    by rewrite Hg, (bool_decide_eq_false_2 _ Hu).
  - intros r Hg Hu. rewrite (logout_device_run w user secret now r Hg Hu).
    eexists. split; [reflexivity|]. cbn [tokens users cache].
    destruct (revoke_token_then_invalid_rows (tokens w) (hash_token secret) r None now Hg)
      as (Hinv & Hrow).
    split; [done|]. split; [done|]. split; [exact Hrow|]. split; [exact Hinv|].
    split.
    + intros now'. apply get_cached_token_invalidated.
    + intros h' now' Hne. by apply get_cached_token_invalidated_other.
Qed.

Lemma chain_ordered_update cond (set : RefreshToken -> RefreshToken) (l : ledger) :
  (forall r, id (set r) = id r /\ parent_token_id (set r) = parent_token_id r) ->
  chain_ordered l -> chain_ordered (fst (update_where cond set l)).
Proof.
  intros Hset Hord i j c p Hi Hj Hp. rewrite update_where_lookup in Hi, Hj.
  destruct (l !! i) as [c0|] eqn:Hi0; [|done].
  destruct (l !! j) as [p0|] eqn:Hj0; [|done].
  cbn in Hi, Hj. injection Hi as <-. injection Hj as <-.
  apply (Hord i j c0 p0 Hi0 Hj0).
  assert (Hc : parent_token_id (if cond c0 then set c0 else c0) = parent_token_id c0)
    by (destruct (cond c0); [apply Hset | done]).
  assert (Hpid : id (if cond p0 then set p0 else p0) = id p0)
    by (destruct (cond p0); [apply Hset | done]).
  by rewrite Hc, Hpid in Hp.
Qed.

(** X10: Presenting a secret after it was logged out runs into the reuse check:
    the refresh is refused with the reuse error and no record is created. *)
Theorem logout_then_refresh_rejected (w : World) (user : uuid) (secret : string)
    (now : datetime) (r : RefreshToken)
    (dev dname ua ip : option string) (ck : RefreshClock)
    (new_secret : string) (new_id : uuid) :
  NoDup (map id (tokens w)) -> chain_ordered (tokens w) ->
  get_by_token_hash (tokens w) (hash_token secret) = Some r ->
  user_id r = user ->
  exists w' w'',
    logout_device user secret now w
    = (w', Return "Successfully logged out from this device."%string)
    /\ refresh_access_token secret dev dname ua ip ck new_secret new_id w'
       = (w'', Raise (AuthenticationError msg_revoked))
    /\ length (tokens w'') = length (tokens w).
Proof.
  intros Hnd Hord Hg Hu.
  pose proof (logout_device_run w user secret now r Hg Hu) as Hrun.
  destruct (revoke_token_then_invalid_rows (tokens w) (hash_token secret) r None now Hg)
    as (_ & Hrow).
  set (w' := mkWorld (fst (revoke_token (tokens w) (id r) None now)) (users w)
               (invalidate_token_cache (cache w) (hash_token secret))) in *.
  assert (Htok : tokens w' = fst (revoke_token (tokens w) (id r) None now)) by done.
  change (get_by_token_hash (tokens w') (hash_token secret)
          = Some (set_replaced_by None (set_revoked now r))) in Hrow.
  clearbody w'.
  exists w'.
  assert (Hnd' : NoDup (map id (tokens w'))).
  { rewrite Htok, revoke_token_rows, map_id_update; [done|]. intros x. done. }
  assert (Hord' : chain_ordered (tokens w')).
  { rewrite Htok, revoke_token_rows.
    apply (chain_ordered_update (fun x => bool_decide (id x = id r))); [|done].
    intros x. done. }
  set (r' := set_replaced_by None (set_revoked now r)) in *.
  assert (Hget : get (tokens w') (id r') = Some r').
  { rewrite get_find_by. apply find_by_unique; [done|].
    rewrite get_by_token_hash_find_by in Hrow. by apply find_by_Some in Hrow as [Hin _]. }
  destruct (revoke_token_chain_update (tokens w') (id r') (at_chain ck) r' Hnd' Hord' Hget)
    as (chain & _ & _ & Hchain).
  destruct (update_where _ _ (tokens w')) as [l'' n] eqn:Hupd.
  destruct (refresh_validate_reuse secret ck w' r' l'' n Hrow eq_refl Hchain) as [c' Hval].
  eexists. split; [exact Hrun|]. split.
  { unfold refresh_access_token, bind. rewrite Hval. reflexivity. }
  cbn [tokens]. apply (f_equal fst) in Hupd. cbn [fst] in Hupd. rewrite <- Hupd.
  rewrite update_where_length, Htok, revoke_token_rows. apply length_map.
Qed.

Lemma logout_then_refresh_rejected_witness :
  NoDup (map id chain3) /\ chain_ordered chain3
  /\ get_by_token_hash chain3 (hash_token "secret-T2")
     = Some (default sample_row (last chain3))
  /\ exists w' w'',
       logout_device 7%N "secret-T2" 2500000
         {| tokens := chain3; users := users world0; cache := ∅ |}
       = (w', Return "Successfully logged out from this device."%string)
       /\ refresh_access_token "secret-T2" None None None None
            (refresh_clock_at 2600000) "secret-T3" 4%N w'
          = (w'', Raise (AuthenticationError msg_revoked)).
Proof.
  assert (H : get_by_token_hash chain3 (hash_token "secret-T2")
              = Some (default sample_row (last chain3))) by (vm_compute; reflexivity).
  split; [exact chain3_ids_unique|]. split; [exact chain3_ordered|]. split; [exact H|].
  destruct (logout_then_refresh_rejected
              {| tokens := chain3; users := users world0; cache := ∅ |}
              7%N "secret-T2" 2500000 (default sample_row (last chain3))
              None None None None (refresh_clock_at 2600000) "secret-T3" 4%N
              chain3_ids_unique chain3_ordered H eq_refl)
    as (w' & w'' & H1 & H2 & _).
  exists w', w''. split; [exact H1 | exact H2].
Defined.

(** ** Logging out everywhere *)

(** X11: [logout_all_devices] never fails and writes to the ledger only: users
    and cache are left as they are (cache entries of the revoked records
    stay), no record of another user changes, and a record of the user that
    is still live afterwards has the key of the record stored under the
    except-secret, which then is the user's own.  With no except-secret, an
    unknown one or one of another user, nothing is spared. *)
Theorem logout_all_devices_effects (w : World) (user : uuid)
    (except_token : option string) (now : datetime) :
  exists w' n,
    logout_all_devices user except_token now w = (w', Return n)
    /\ users w' = users w /\ cache w' = cache w
    /\ length (tokens w') = length (tokens w)
    /\ 0 <= n <= Z.of_nat (length (tokens w))
    /\ (forall i r, tokens w !! i = Some r -> user_id r <> user ->
          tokens w' !! i = Some r)
    /\ (forall r', r' ∈ tokens w' -> user_id r' = user -> is_revoked r' = false ->
          exists s spared,
            except_token = Some s
            /\ get_by_token_hash (tokens w) (hash_token s) = Some spared
            /\ user_id spared = user /\ id r' = id spared).
Proof.
  unfold logout_all_devices, bind, gets.
  set (e := if truthy except_token then _ else None).
  assert (He : forall x, e = Some x ->
            exists s spared, except_token = Some s
              /\ get_by_token_hash (tokens w) (hash_token s) = Some spared
              /\ user_id spared = user /\ x = id spared).
  { intros x. unfold e. destruct except_token as [s|]; [|done].
    change (default EmptyString (Some s)) with s.
    cbn [truthy]. destruct (negb _); [|done].
    destruct (get_by_token_hash (tokens w) (hash_token s)) as [spared|] eqn:Hg; [|done].
    destruct (decide (user_id spared = user)) as [Hu|Hu].
    - rewrite (bool_decide_eq_true_2 _ Hu). intros [= <-]. by exists s, spared.
    - by rewrite (bool_decide_eq_false_2 _ Hu). }
  clearbody e.
  pose proof (revoke_all_user_tokens_rows (tokens w) user e now) as Hrows.
  destruct (revoke_all_user_tokens (tokens w) user e now) as [l' n] eqn:Hrun.
  unfold update_where in Hrows. injection Hrows as -> ->.
  eexists _, _. split; [reflexivity|]. cbn [tokens users cache].
  split; [done|]. split; [done|]. split; [apply length_map|]. split.
  { split; [lia|]. apply inj_le. apply filter_length_le. }
  split.
  - intros i r Hi Hu. rewrite list_lookup_fmap, Hi. cbn.
    rewrite bool_decide_eq_false_2; [done|]. intros (H & _). done.
  - intros r' Hr' Hu Hrev. apply list_elem_of_fmap in Hr' as (r & -> & Hr).
    destruct (decide (bulk_target user e r)) as [Ht|Ht].
    + by rewrite bool_decide_eq_true_2 in Hrev.
    + rewrite bool_decide_eq_false_2 in Hu, Hrev |- * by done.
      destruct e as [x|].
      * destruct (He x eq_refl) as (s & spared & -> & Hg & Hsu & ->).
        exists s, spared. repeat split; try done.
        destruct (decide (id r = id spared)) as [Heq|Hne]; [done|].
        exfalso. apply Ht. repeat split; congruence.
      * exfalso. apply Ht. by repeat split.
Qed.

(** ** Refusals of a refresh *)

(** X12: A refresh that is refused for any reason other than reuse writes
    nothing: an unknown secret and an expired live record give the plain
    invalid-or-expired error with no chain action; a valid token whose owner
    is missing or inactive is refused and stays valid; when the drawn key
    or hash is already taken and the columns accept the values, the INSERT
    fails with an integrity error before the old record is touched; and
    when a column does not accept its value the INSERT fails with a
    database error, again before the old record is touched. *)
Theorem refresh_refusals_write_nothing (w : World) (secret : string)
    (dev dname ua ip : option string) (ck : RefreshClock)
    (new_secret : string) (new_id : uuid) :
  (get_by_token_hash (tokens w) (hash_token secret) = None ->
     refresh_access_token secret dev dname ua ip ck new_secret new_id w
     = (w, Raise (AuthenticationError msg_invalid_or_expired)))
  /\ (forall r, get_by_token_hash (tokens w) (hash_token secret) = Some r ->
        is_revoked r = false -> expires_at r < at_check ck ->
        refresh_access_token secret dev dname ua ip ck new_secret new_id w
        = (w, Raise (AuthenticationError msg_invalid_or_expired)))
  /\ (forall r, get_by_token_hash (tokens w) (hash_token secret) = Some r ->
        is_token_valid (tokens w) (hash_token secret) (at_check ck) = true ->
        (users w !! user_id r = None
         \/ exists owner, users w !! user_id r = Some owner /\ is_active owner = false) ->
        refresh_access_token secret dev dname ua ip ck new_secret new_id w
        = (w, Raise (AuthenticationError msg_user)))
  /\ (forall r owner, get_by_token_hash (tokens w) (hash_token secret) = Some r ->
        is_token_valid (tokens w) (hash_token secret) (at_check ck) = true ->
        users w !! user_id r = Some owner -> is_active owner = true ->
        ~ fresh_in (tokens w) new_id (hash_token new_secret) ->
        values_accepted (hash_token new_secret) (or_else dev (device_id r))
          (or_else dname (device_name r)) ua ip = true ->
        refresh_access_token secret dev dname ua ip ck new_secret new_id w
        = (w, Raise IntegrityError))
  /\ (forall r owner, get_by_token_hash (tokens w) (hash_token secret) = Some r ->
        is_token_valid (tokens w) (hash_token secret) (at_check ck) = true ->
        users w !! user_id r = Some owner -> is_active owner = true ->
        values_accepted (hash_token new_secret) (or_else dev (device_id r))
          (or_else dname (device_name r)) ua ip = false ->
        refresh_access_token secret dev dname ua ip ck new_secret new_id w
        = (w, Raise DBAPIError)
        /\ is_token_valid (tokens w) (hash_token secret) (at_check ck) = true).
Proof.
  split; [|split; [|split; [|split]]].
  - intros Hg. unfold refresh_access_token, refresh_validate, bind, gets.
    assert (Hv : is_token_valid (tokens w) (hash_token secret) (at_check ck) = false)
      by (unfold is_token_valid; by rewrite Hg).
    destruct (get_cached_token _ _ _); by rewrite Hv, Hg.
  - intros r Hg Hrev Hexp. unfold refresh_access_token, refresh_validate, bind, gets.
    assert (Hv : is_token_valid (tokens w) (hash_token secret) (at_check ck) = false).
    { unfold is_token_valid. rewrite Hg, Hrev. apply negb_false_iff, Z.ltb_lt. lia. }
    destruct (get_cached_token _ _ _); by rewrite Hv, Hg, Hrev.
  - intros r Hg Hv Howner. unfold refresh_access_token, refresh_validate, bind, gets.
    destruct Howner as [Hnone|(owner & Hsome & Hinactive)].
    + destruct (get_cached_token _ _ _); rewrite Hv; cbn; by rewrite Hg, Hnone.
    + destruct (get_cached_token _ _ _); rewrite Hv; cbn; by rewrite Hg, Hsome, Hinactive.
  - intros r owner Hg Hv Howner Hactive Hn Hacc.
    unfold refresh_access_token, bind.
    rewrite (refresh_validate_valid _ _ _ _ _ Hv Hg Howner Hactive). cbn [fst snd].
    unfold refresh_issue, bind.
    by rewrite (create_token_pair_conflict _ _ _ _ _ _ _ _ _ Hn), Hacc.
  - intros r owner Hg Hv Howner Hactive Hacc. split; [|done].
    unfold refresh_access_token, bind.
    rewrite (refresh_validate_valid _ _ _ _ _ Hv Hg Howner Hactive). cbn [fst snd].
    unfold refresh_issue, bind.
    by rewrite (create_token_pair_rejected_value _ _ _ _ _ _ _ _ _ Hacc).
Qed.

(** ** The cache is only a hint *)

Lemma refresh_validate_same_db (w1 w2 : World) (secret : string) (ck : RefreshClock) :
  tokens w1 = tokens w2 -> users w1 = users w2 ->
  snd (refresh_validate secret ck w1) = snd (refresh_validate secret ck w2)
  /\ tokens (fst (refresh_validate secret ck w1))
     = tokens (fst (refresh_validate secret ck w2))
  /\ users (fst (refresh_validate secret ck w1))
     = users (fst (refresh_validate secret ck w2)).
Proof.
  destruct w1 as [l us c1], w2 as [l2 us2 c2]. cbn [tokens users].
  intros <- <-.
  cbv [refresh_validate bind gets ret raise diverge put_tokens put_cache
       tokens users cache fst snd].
  destruct (get_cached_token c1 (hash_token secret) (at_lookup ck)),
    (get_cached_token c2 (hash_token secret) (at_lookup ck));
    destruct (is_token_valid l (hash_token secret) (at_check ck));
    destruct (get_by_token_hash l (hash_token secret)) as [r|];
    try done;
    try (destruct (us !! user_id r) as [u|]; [destruct (is_active u)|]; done);
    (destruct (is_revoked r); [|done]);
    (destruct (revoke_token_chain l (id r) (at_chain ck)) as [[l' n]|]; done).
Qed.

Lemma refresh_issue_same_db (w1 w2 : World) (secret : string) (r : RefreshToken)
    (u : User) (dev dname ua ip : option string) (ck : RefreshClock)
    (new_secret : string) (new_id : uuid) :
  tokens w1 = tokens w2 -> users w1 = users w2 ->
  let run1 := refresh_issue secret r u dev dname ua ip ck new_secret new_id w1 in
  let run2 := refresh_issue secret r u dev dname ua ip ck new_secret new_id w2 in
  snd run1 = snd run2
  /\ tokens (fst run1) = tokens (fst run2)
  /\ users (fst run1) = users (fst run2).
Proof.
  destruct w1 as [l us c1], w2 as [l2 us2 c2]. cbn [tokens users].
  intros <- <-. cbn zeta.
  cbv [refresh_issue create_token_pair bind gets ret raise put_tokens put_cache
       tokens users cache fst snd refresh_token].
  destruct (create_token us l new_id (uid u) (hash_token new_secret) _ _ ua ip _ None _)
    as [[l' row]|]; [|done].
  destruct (get_by_token_hash l' (hash_token new_secret)) as [n|]; done.
Qed.

(** X13: Whatever the cache holds, a refresh gives the same outcome and leaves
    the same ledger and users. *)
Theorem refresh_ignores_cache (w : World) (c2 : redis) (secret : string)
    (dev dname ua ip : option string) (ck : RefreshClock)
    (new_secret : string) (new_id : uuid) :
  let w2 := {| tokens := tokens w; users := users w; cache := c2 |} in
  let run1 := refresh_access_token secret dev dname ua ip ck new_secret new_id w in
  let run2 := refresh_access_token secret dev dname ua ip ck new_secret new_id w2 in
  snd run1 = snd run2
  /\ tokens (fst run1) = tokens (fst run2)
  /\ users (fst run1) = users (fst run2).
Proof.
  cbn zeta. set (w2 := mkWorld (tokens w) (users w) c2).
  destruct (refresh_validate_same_db w w2 secret ck eq_refl eq_refl)
    as (Ho & Ht & Hu).
  unfold refresh_access_token, bind.
  destruct (refresh_validate secret ck w) as [w1 o1],
    (refresh_validate secret ck w2) as [w1' o1'].
  cbn [fst snd] in Ho, Ht, Hu. subst o1'.
  destruct o1 as [[r u]| |]; cbn [fst snd]; [|done..].
  exact (refresh_issue_same_db w1 w1' secret r u dev dname ua ip ck new_secret new_id Ht Hu).
Qed.

(** ** What the token cache serves *)

Lemma get_cached_token_written c h user dev expires now set_time now' :
  1000000 <= expires - now < seconds (2 ^ 34) ->
  get_cached_token (cache_refresh_token c h user dev expires now set_time) h now'
  = if now' <? set_time + seconds ((expires - now) / 1000000)
    then Some {| cached_user_id := user; cached_device_id := dev;
                 cached_expires_at := expires |}
    else None.
Proof.
  intros Hd. unfold cache_refresh_token, get_cached_token, redis_get, redis_set.
  rewrite total_seconds_int_pos, (proj2 (Z.leb_le _ _) (proj1 Hd)) by lia.
  rewrite lookup_insert_eq. cbn [set_at ttl value].
  unfold seconds in Hd. by rewrite total_seconds_int_whole by lia.
Qed.

Lemma get_cached_token_written_other c h h' user dev expires now set_time now' :
  h' <> h ->
  get_cached_token (cache_refresh_token c h user dev expires now set_time) h' now'
  = get_cached_token c h' now'.
Proof.
  intros Hne. unfold cache_refresh_token, get_cached_token, redis_get, redis_set.
  destruct (0 <? _); [|done].
  rewrite lookup_insert_ne; [done|]. intros Heq. by apply refresh_key_inj in Heq.
Qed.

(** X14: For a remaining lifetime between one second and 2^34 seconds, a
    cached token entry is served for the whole seconds of that lifetime,
    counted from the instant of the SET: up to at least one second before
    the token's expiry shifted by the delay between the clock reading and the
    SET, never at or after that shifted expiry, and not at all once
    invalidated.  With less than a second left nothing is written.  Entries
    of other hashes are not affected by the write or by the invalidation. *)
Theorem cached_entry_lifetime (c : redis) (h : string) (user : uuid)
    (dev : option string) (expires now set_time now' : datetime) :
  let c' := cache_refresh_token c h user dev expires now set_time in
  let v := {| cached_user_id := user; cached_device_id := dev;
              cached_expires_at := expires |} in
  (1000000 <= expires - now < seconds (2 ^ 34) ->
     get_cached_token c' h now'
     = (if now' <? set_time + seconds ((expires - now) / 1000000) then Some v else None)
     /\ (now' <= expires + (set_time - now) - 1000000 -> get_cached_token c' h now' = Some v)
     /\ (expires + (set_time - now) <= now' -> get_cached_token c' h now' = None)
     /\ (get_cached_token c' h now' = None \/ get_cached_token c' h now' = Some v))
  /\ (expires - now < 1000000 -> c' = c)
  /\ (forall h', h' <> h -> get_cached_token c' h' now' = get_cached_token c h' now')
  /\ get_cached_token (invalidate_token_cache c' h) h now' = None
  /\ (forall h', h' <> h ->
        get_cached_token (invalidate_token_cache c' h) h' now'
        = get_cached_token c h' now').
Proof.
  cbn zeta. split; [|split; [|split; [|split]]].
  - intros Hd.
    rewrite (get_cached_token_written c h user dev expires now set_time now' Hd).
    split; [reflexivity|].
    unfold seconds in *.
    assert (Hlo : (expires - now) / 1000000 * 1000000 <= expires - now
                  < ((expires - now) / 1000000 + 1) * 1000000)
      by (Z.to_euclidean_division_equations; lia).
    split; [|split].
    + intros Hn. rewrite (proj2 (Z.ltb_lt _ _)); [done|lia].
    + intros Hn. rewrite (proj2 (Z.ltb_ge _ _)); [done|lia].
    + destruct (_ <? _); auto.
  - intros Hd. unfold cache_refresh_token.
    rewrite total_seconds_int_pos by (unfold seconds; lia).
    by rewrite (proj2 (Z.leb_gt _ _) Hd).
  - intros h' Hne. by apply get_cached_token_written_other.
  - apply get_cached_token_invalidated.
  - intros h' Hne. rewrite get_cached_token_invalidated_other by done.
    by apply get_cached_token_written_other.
Qed.

Lemma cached_entry_lifetime_witness :
  1000000 <= 5000000 - 0 < seconds (2 ^ 34)
  /\ get_cached_token (cache_refresh_token ∅ "h" 7%N None 5000000 0 10000) "h" 5009999
     = Some {| cached_user_id := 7%N; cached_device_id := None;
               cached_expires_at := 5000000 |}
  /\ get_cached_token (cache_refresh_token ∅ "h" 7%N None 5000000 0 10000) "h" 5010000
     = None.
Proof.
  assert (Hd : 1000000 <= 5000000 - 0 < seconds (2 ^ 34)) by (cbn; unfold days, seconds; lia).
  split; [exact Hd|].
  destruct (cached_entry_lifetime ∅ "h" 7%N None 5000000 0 10000 5009999) as [H1 _].
  destruct (cached_entry_lifetime ∅ "h" 7%N None 5000000 0 10000 5010000) as [H2 _].
  split.
  - rewrite (proj1 (H1 Hd)). reflexivity.
  - rewrite (proj1 (H2 Hd)). reflexivity.
Defined.

(** ** What a rotation and a login write *)

Lemma refresh_issue_cache secret old owner dev dname ua ip ck new_secret new_id w :
  fresh_in (tokens w) new_id (hash_token new_secret) ->
  rotation_columns_fit dev dname ua ip old = true ->
  is_Some (users w !! uid owner) ->
  cache (fst (refresh_issue secret old owner dev dname ua ip ck new_secret new_id w))
  = invalidate_token_cache
      (cache_refresh_token (cache w) (hash_token new_secret) (uid owner)
         (or_else dev (device_id old))
         (at_expiry (at_pair ck) + days REFRESH_TOKEN_EXPIRE_DAYS)
         (at_cache (at_pair ck)) (at_redis_set (at_pair ck)))
      (hash_token secret).
Proof.
  intros Hfresh Hfit Hknown. unfold refresh_issue, bind.
  rewrite (create_token_pair_run _ _ _ _ _ _ _ _ _ Hfresh Hfit Hknown).
  unfold gets. cbn [tokens users cache refresh_token access_token].
  destruct (get_by_token_hash _ (hash_token new_secret)); reflexivity.
Qed.

(** X15: After a rotation that the database accepts, the cache no longer
    serves the presented secret's entry and serves an entry for the new
    secret, carrying the owner, the device (the one sent, else the old
    record's) and the expiry the service computed, thirty days after its own
    clock reading; the row's expiry is thirty days after the later reading
    of [create_token].  The entry is served from the SET for the whole
    seconds between the cache helper's reading and the cached expiry: thirty
    days when the two readings coincide, one second less when the helper
    reads the clock up to a second later.  Entries of other hashes are as
    before. *)
Theorem rotation_cache_handover (w : World) (secret : string)
    (dev dname ua ip : option string) (ck : RefreshClock)
    (new_secret : string) (new_id : uuid) (old : RefreshToken) (owner : User) :
  is_token_valid (tokens w) (hash_token secret) (at_check ck) = true ->
  get_by_token_hash (tokens w) (hash_token secret) = Some old ->
  users w !! user_id old = Some owner -> is_active owner = true ->
  uid owner = user_id old ->
  rotation_columns_fit dev dname ua ip old = true ->
  fresh_in (tokens w) new_id (hash_token new_secret) ->
  1000000 <= at_expiry (at_pair ck) + days 30 - at_cache (at_pair ck) < seconds (2 ^ 34) ->
  exists w' pair new,
    refresh_access_token secret dev dname ua ip ck new_secret new_id w = (w', Return pair)
    /\ hash_token new_secret <> hash_token secret
    /\ get_by_token_hash (tokens w') (hash_token new_secret) = Some new
    /\ expires_at new = at_insert (at_pair ck) + days 30
    /\ (at_cache (at_pair ck) = at_expiry (at_pair ck) ->
        (at_expiry (at_pair ck) + days 30 - at_cache (at_pair ck)) / 1000000 = 2592000)
    /\ (at_expiry (at_pair ck) < at_cache (at_pair ck) <= at_expiry (at_pair ck) + 1000000 ->
        (at_expiry (at_pair ck) + days 30 - at_cache (at_pair ck)) / 1000000 = 2591999)
    /\ forall now',
         get_cached_token (cache w') (hash_token secret) now' = None
         /\ get_cached_token (cache w') (hash_token new_secret) now'
            = (if now' <? at_redis_set (at_pair ck)
                          + seconds ((at_expiry (at_pair ck) + days 30
                                      - at_cache (at_pair ck)) / 1000000)
               then Some {| cached_user_id := uid owner;
                            cached_device_id := or_else dev (device_id old);
                            cached_expires_at := at_expiry (at_pair ck) + days 30 |}
               else None)
         /\ (forall h', h' <> hash_token secret -> h' <> hash_token new_secret ->
               get_cached_token (cache w') h' now' = get_cached_token (cache w) h' now').
Proof.
  intros Hvalid Hold Howner Hactive Hkey Hfit Hfresh Hd.
  assert (Hknown : is_Some (users w !! uid owner)) by (by rewrite Hkey, Howner).
  assert (Hne : hash_token new_secret <> hash_token secret).
  { rewrite get_by_token_hash_find_by in Hold. apply find_by_Some in Hold as [Hin Hh].
    destruct (Hfresh old Hin) as [_ Hhash]. congruence. }
  pose proof (refresh_issue_cache secret old owner dev dname ua ip ck new_secret new_id w
                Hfresh Hfit Hknown) as Hcache.
  assert (Hrun : refresh_access_token secret dev dname ua ip ck new_secret new_id w
                 = refresh_issue secret old owner dev dname ua ip ck new_secret new_id w).
  { unfold refresh_access_token, bind.
    by rewrite (refresh_validate_valid _ _ _ _ _ Hvalid Hold Howner Hactive). }
  destruct (refresh_access_token_run w secret dev dname ua ip ck new_secret new_id old owner
              Hvalid Hold Howner Hactive Hkey Hfit Hfresh) as [c' Hfull].
  rewrite <- Hrun in Hcache. rewrite Hfull in Hcache. cbn [fst cache] in Hcache.
  destruct (fresh_in_lookups _ _ _ Hfresh) as [_ Hgh].
  match type of Hfull with
  | _ = ({| tokens := _ ++ [?t]; users := _; cache := _ |}, _) => set (new := t) in *
  end.
  assert (Hnew : get_by_token_hash
                   (fst (revoke_token (tokens w) (id old) (Some new_id) (at_revoke ck))
                    ++ [new])
                   (hash_token new_secret) = Some new).
  { apply get_by_token_hash_app_new; [|done].
    rewrite revoke_token_rows, get_by_token_hash_find_by, find_by_map.
    - by rewrite <- get_by_token_hash_find_by, Hgh.
    - intros r. by destruct (bool_decide _). }
  eexists _, _, new. split; [exact Hfull|]. split; [exact Hne|].
  cbn [tokens]. split; [exact Hnew|]. split; [done|].
  split; [intros ->; unfold days, seconds; Z.to_euclidean_division_equations; lia|].
  split; [intros Hlate; unfold days, seconds; Z.to_euclidean_division_equations; lia|].
  intros now'. cbn [cache]. rewrite Hcache. split; [|split].
  - apply get_cached_token_invalidated.
  - rewrite get_cached_token_invalidated_other by done.
    unfold REFRESH_TOKEN_EXPIRE_DAYS.
    by rewrite (get_cached_token_written _ _ _ _ _ _ _ now' Hd).
  - intros h' H1 H2. rewrite get_cached_token_invalidated_other by done.
    by apply get_cached_token_written_other.
Qed.

Lemma rotation_cache_handover_witness :
  is_token_valid (tokens world1) (hash_token "secret-T0")
    (at_check (refresh_clock_from 1000000)) = true
  /\ rotation_columns_fit None None None None sample_row = true
  /\ 1000000 <= at_expiry (at_pair (refresh_clock_from 1000000)) + days 30
                - at_cache (at_pair (refresh_clock_from 1000000)) < seconds (2 ^ 34)
  /\ exists w' pair,
       refresh_access_token "secret-T0" None None None None (refresh_clock_from 1000000)
         "secret-T1" 2%N world1
       = (w', Return pair)
       /\ hash_token "secret-T1" <> hash_token "secret-T0"
       /\ get_cached_token (cache w') (hash_token "secret-T1") (1000700 + seconds 2591999)
          = None
       /\ is_token_valid (tokens w') (hash_token "secret-T1") (1000700 + seconds 2591999)
          = true.
Proof.
  assert (Hv : is_token_valid (tokens world1) (hash_token "secret-T0")
                 (at_check (refresh_clock_from 1000000)) = true)
    by (vm_compute; reflexivity).
  assert (Hg : get_by_token_hash (tokens world1) (hash_token "secret-T0") = Some sample_row)
    by (vm_compute; reflexivity).
  assert (Hu : users world1 !! user_id sample_row = Some alice) by (vm_compute; reflexivity).
  assert (Hfit : rotation_columns_fit None None None None sample_row = true)
    by (vm_compute; reflexivity).
  assert (Hf : fresh_in (tokens world1) 2%N (hash_token "secret-T1"))
    by (apply world1_fresh; [discriminate | exact hash_T1_fresh]).
  assert (Hd : 1000000 <= at_expiry (at_pair (refresh_clock_from 1000000)) + days 30
                          - at_cache (at_pair (refresh_clock_from 1000000))
               < seconds (2 ^ 34))
    by (cbn; unfold days, seconds; lia).
  split; [exact Hv|]. split; [exact Hfit|]. split; [exact Hd|].
  destruct (rotation_cache_handover world1 "secret-T0" None None None None
              (refresh_clock_from 1000000) "secret-T1" 2%N sample_row alice
              Hv Hg Hu eq_refl eq_refl Hfit Hf Hd)
    as (w' & pair & new & H1 & H2 & _ & _ & _ & _ & H3).
  exists w', pair. split; [exact H1|]. split; [exact H2|]. split.
  - rewrite (proj1 (proj2 (H3 _))). reflexivity.
  - pose proof (f_equal fst H1) as Hw. cbn [fst] in Hw. rewrite <- Hw.
    vm_compute. reflexivity.
Defined.

Lemma find_by_app_miss {K : Type} `{EqDecision K} (key : RefreshToken -> K)
    (l : ledger) (tok : RefreshToken) (k : K) :
  key tok <> k -> find_by key (l ++ [tok]) k = find_by key l k.
Proof.
  intros Hne. unfold find_by. induction l as [|a l IH]; cbn.
  - by rewrite bool_decide_eq_false_2.
  - destruct (bool_decide (key a = k)); [done | apply IH].
Qed.

Lemma is_token_valid_window (l : ledger) (h : string) (r : RefreshToken)
    (now : datetime) :
  get_by_token_hash l h = Some r -> is_revoked r = false ->
  is_token_valid l h now = true <-> now <= expires_at r.
Proof.
  intros Hg Hrev. unfold is_token_valid. rewrite Hg, Hrev.
  rewrite negb_true_iff, Z.ltb_ge. done.
Qed.

(** X16: A login of a known user with a free key and hash and client values
    that fit their columns appends one live record owned by the user, with
    the device data as sent, no parent, and an expiry thirty days after the
    clock reading of [create_token]; the returned refresh secret is valid
    from then on up to and including that instant and no longer, the access
    token is the user's, and no other hash changes its validity.  When the
    key or the hash is already taken and the columns accept the values, the
    login fails with an integrity error; when a column does not accept its
    value, it fails with a database error; either way nothing is written. *)
Theorem login_opens_session (w : World) (user : User)
    (dev dname ua ip : option string) (ck : PairClock)
    (new_secret : string) (new_id : uuid) :
  (fresh_in (tokens w) new_id (hash_token new_secret) ->
   client_columns_fit dev dname ua ip = true ->
   is_Some (users w !! uid user) ->
     exists w' pair row,
       create_token_pair user dev dname ua ip ck new_secret new_id w = (w', Return pair)
       /\ refresh_token pair = new_secret
       /\ sub (access_token pair) = uid user
       /\ tokens w' = tokens w ++ [row] /\ users w' = users w
       /\ get_by_token_hash (tokens w') (hash_token new_secret) = Some row
       /\ id row = new_id /\ user_id row = uid user
       /\ device_id row = dev /\ device_name row = dname
       /\ user_agent row = ua /\ ip_address row = ip
       /\ parent_token_id row = None /\ replaced_by_id row = None
       /\ expires_at row = at_insert ck + days 30
       /\ (forall now', is_token_valid (tokens w') (hash_token new_secret) now' = true
                        <-> now' <= at_insert ck + days 30)
       /\ (forall h now', h <> hash_token new_secret ->
             is_token_valid (tokens w') h now' = is_token_valid (tokens w) h now'))
  /\ (~ fresh_in (tokens w) new_id (hash_token new_secret) ->
      values_accepted (hash_token new_secret) dev dname ua ip = true ->
      create_token_pair user dev dname ua ip ck new_secret new_id w
      = (w, Raise IntegrityError))
  /\ (values_accepted (hash_token new_secret) dev dname ua ip = false ->
      create_token_pair user dev dname ua ip ck new_secret new_id w
      = (w, Raise DBAPIError)).
Proof.
  split; [|split].
  2:{ intros Hn Hacc. by rewrite (create_token_pair_conflict _ _ _ _ _ _ _ _ _ Hn), Hacc. }
  2:{ apply create_token_pair_rejected_value. }
  intros Hfresh Hfit Hknown.
  rewrite (create_token_pair_run _ _ _ _ _ _ _ _ _ Hfresh Hfit Hknown).
  destruct (fresh_in_lookups _ _ _ Hfresh) as [_ Hgh].
  set (row := new_token _ _ _ _ _ _ _ _ _ _).
  assert (Hrow : get_by_token_hash (tokens w ++ [row]) (hash_token new_secret) = Some row)
    by (by apply get_by_token_hash_app_new).
  eexists _, _, row. split; [reflexivity|]. cbn [tokens users refresh_token access_token].
  do 5 (split; [done|]). do 9 (split; [done|]).
  split.
  - intros now'. by rewrite (is_token_valid_window _ _ row now' Hrow eq_refl).
  - intros h now' Hne. unfold is_token_valid.
    rewrite !get_by_token_hash_find_by, find_by_app_miss; [done|]. cbn. congruence.
Qed.

Lemma login_opens_session_witness :
  client_columns_fit (Some "D1"%string) None None None = true
  /\ is_Some (users world0 !! uid alice)
  /\ (exists w' pair,
        login_T0 world0 = (w', Return pair) /\ tokens w' = [sample_row])
  /\ values_accepted (hash_token "secret-T0") (Some (string_of_list_ascii (repeat "x"%char 256)))
       None None None = false
  /\ create_token_pair alice (Some (string_of_list_ascii (repeat "x"%char 256))) None None None
       (pair_clock_at 0) "secret-T0" 1%N world0
     = (world0, Raise DBAPIError).
Proof.
  assert (Hfit : client_columns_fit (Some "D1"%string) None None None = true)
    by (vm_compute; reflexivity).
  assert (Hknown : is_Some (users world0 !! uid alice)) by (vm_compute; eauto).
  assert (Hlong : values_accepted (hash_token "secret-T0")
                    (Some (string_of_list_ascii (repeat "x"%char 256))) None None None
                  = false) by (vm_compute; reflexivity).
  split; [exact Hfit|]. split; [exact Hknown|]. split.
  - destruct (proj1 (login_opens_session world0 alice (Some "D1"%string) None None None
                       (pair_clock_at 0) "secret-T0" 1%N)
                (world0_fresh _ _) Hfit Hknown)
      as (w' & pair & row & Hrun & _ & _ & Htok & _).
    exists w', pair. split; [exact Hrun|].
    pose proof (f_equal fst Hrun) as Hw. cbn [fst] in Hw. rewrite <- Hw.
    vm_compute. reflexivity.
  - split; [exact Hlong|].
    exact (proj2 (proj2 (login_opens_session world0 alice
                           (Some (string_of_list_ascii (repeat "x"%char 256))) None None None
                           (pair_clock_at 0) "secret-T0" 1%N)) Hlong).
Defined.

(** X17: The record a rotation that the database accepts creates belongs to
    the old record's user, carries the device id and name that were sent, or
    the old record's where none (or an empty one) was sent, takes user agent
    and address from the request alone, and expires thirty days after the
    clock reading of [create_token]; the new secret passes the validity
    check up to and including that instant and the presented one never
    again. *)
Theorem rotation_new_session (w : World) (secret : string)
    (dev dname ua ip : option string) (ck : RefreshClock)
    (new_secret : string) (new_id : uuid) (old : RefreshToken) (owner : User) :
  is_token_valid (tokens w) (hash_token secret) (at_check ck) = true ->
  get_by_token_hash (tokens w) (hash_token secret) = Some old ->
  users w !! user_id old = Some owner -> is_active owner = true ->
  uid owner = user_id old ->
  rotation_columns_fit dev dname ua ip old = true ->
  fresh_in (tokens w) new_id (hash_token new_secret) ->
  exists w' pair new,
    refresh_access_token secret dev dname ua ip ck new_secret new_id w = (w', Return pair)
    /\ sub (access_token pair) = user_id old
    /\ length (tokens w') = S (length (tokens w))
    /\ get_by_token_hash (tokens w') (hash_token new_secret) = Some new
    /\ user_id new = user_id old
    /\ device_id new = (if truthy dev then dev else device_id old)
    /\ device_name new = (if truthy dname then dname else device_name old)
    /\ user_agent new = ua /\ ip_address new = ip
    /\ expires_at new = at_insert (at_pair ck) + days 30
    /\ (forall now', is_token_valid (tokens w') (hash_token new_secret) now' = true
                     <-> now' <= at_insert (at_pair ck) + days 30)
    /\ (forall now', is_token_valid (tokens w') (hash_token secret) now' = false).
Proof.
  intros Hvalid Hold Howner Hactive Hkey Hfit Hfresh.
  destruct (refresh_access_token_run w secret dev dname ua ip ck new_secret new_id
              old owner Hvalid Hold Howner Hactive Hkey Hfit Hfresh) as [c' Hrun].
  destruct (fresh_in_lookups _ _ _ Hfresh) as [_ Hgh].
  destruct (revoke_token_then_invalid_rows (tokens w) (hash_token secret) old
              (Some new_id) (at_revoke ck) Hold) as (Hinv & Hold').
  match type of Hrun with
  | _ = ({| tokens := _ ++ [?t]; users := _; cache := _ |}, _) => set (new := t) in *
  end.
  assert (Hnew : get_by_token_hash
                   (fst (revoke_token (tokens w) (id old) (Some new_id) (at_revoke ck))
                    ++ [new])
                   (hash_token new_secret) = Some new).
  { apply get_by_token_hash_app_new; [|done].
    rewrite revoke_token_rows, get_by_token_hash_find_by, find_by_map.
    - by rewrite <- get_by_token_hash_find_by, Hgh.
    - intros r. by destruct (bool_decide _). }
  eexists _, _, new. split; [exact Hrun|]. cbn [tokens access_token].
  split; [exact Hkey|].
  split.
  { rewrite length_app, revoke_token_rows, length_map. cbn. lia. }
  split; [exact Hnew|]. split; [exact Hkey|]. do 5 (split; [done|]).
  split.
  - intros now'. by rewrite (is_token_valid_window _ _ new now' Hnew eq_refl).
  - intros now'. unfold is_token_valid.
    rewrite get_by_token_hash_find_by, (find_by_app_l _ _ _ _ _ Hold'). done.
Qed.

Lemma rotation_new_session_witness :
  is_token_valid (tokens world1) (hash_token "secret-T0") 1000000 = true
  /\ uid alice = user_id sample_row
  /\ rotation_columns_fit None None None None sample_row = true
  /\ exists w' pair new,
       refresh_access_token "secret-T0" None None None None (refresh_clock_at 1000000)
         "secret-T1" 2%N world1
       = (w', Return pair)
       /\ get_by_token_hash (tokens w') (hash_token "secret-T1") = Some new
       /\ user_id new = user_id sample_row
       /\ device_id new = device_id sample_row.
Proof.
  assert (Hv : is_token_valid (tokens world1) (hash_token "secret-T0")
                 (at_check (refresh_clock_at 1000000)) = true)
    by (vm_compute; reflexivity).
  assert (Hg : get_by_token_hash (tokens world1) (hash_token "secret-T0") = Some sample_row)
    by (vm_compute; reflexivity).
  assert (Hu : users world1 !! user_id sample_row = Some alice) by (vm_compute; reflexivity).
  assert (Hfit : rotation_columns_fit None None None None sample_row = true)
    by (vm_compute; reflexivity).
  assert (Hf : fresh_in (tokens world1) 2%N (hash_token "secret-T1"))
    by (apply world1_fresh; [discriminate | exact hash_T1_fresh]).
  split; [exact Hv|]. split; [reflexivity|]. split; [exact Hfit|].
  destruct (rotation_new_session world1 "secret-T0" None None None None
              (refresh_clock_at 1000000) "secret-T1" 2%N sample_row alice
              Hv Hg Hu eq_refl eq_refl Hfit Hf)
    as (w' & pair & new & H1 & _ & _ & H2 & H4 & H3 & _).
  exists w', pair, new. split; [exact H1|]. split; [exact H2|]. split; [exact H4 | exact H3].
Defined.

(** ** Shape of the stored hashes *)


(** X18: Every stored token hash is 64 characters of lowercase hexadecimal,
    whatever the secret: it fills the 64-character [token_hash] column
    exactly. *)
Theorem hash_token_shape (token : string) :
  String.length (hash_token token) = 64%nat
  /\ Forall (fun c => In c (list_ascii_of_string "0123456789abcdef"))
       (list_ascii_of_string (hash_token token)).
Proof.
  unfold hash_token, Sha256.hexdigest.
  destruct (hex_shape _ (digest_bytes (map N_of_ascii (list_ascii_of_string token))))
    as [Hl Hc].
  split; [|exact Hc]. by rewrite Hl, digest_length.
Qed.

(** X19: The pre-hash handed to bcrypt is 44 characters of the base64 alphabet
    for every password, however long: it stays below bcrypt's 72-byte input
    limit and holds no NUL character. *)
Theorem prehash_password_shape (password : string) :
  String.length (prehash_password password) = 44%nat
  /\ Forall (fun c => (In c Base64.alphabet \/ c = "="%char) /\ c <> "000"%char)
       (list_ascii_of_string (prehash_password password)).
Proof.
  unfold prehash_password.
  destruct (b64encode_shape (Sha256.digest (map N_of_ascii (list_ascii_of_string password))))
    as [Hl Hc].
  split; [by rewrite Hl, digest_length|].
  eapply Forall_impl; [exact Hc|]. intros c Hin. split; [exact Hin|].
  intros ->. destruct Hin as [Hin|Hin]; [|discriminate Hin].
  vm_compute in Hin. repeat (destruct Hin as [Hin|Hin]; [discriminate Hin|]). exact Hin.
Qed.

(** The pre-hash of two known passwords, and the encoder on the RFC 4648
    samples. *)
Example prehash_password_samples :
  prehash_password "abc" = "ungWv48Bz+pBQUDeXa4iI7ADYaOWF3qctBD/YfIAFa0="%string
  /\ prehash_password "" = "47DEQpj8HBSa+/TImW+5JCeuQeRkm5NMpJWZG3hSuFU="%string
  /\ Base64.b64encode [102; 111]%N = "Zm8="%string
  /\ Base64.b64encode [102]%N = "Zg=="%string
  /\ Base64.b64encode [102; 111; 111; 98; 97; 114]%N = "Zm9vYmFy"%string
  /\ Base64.b64encode [251; 255; 191]%N = "+/+/"%string.
Proof. vm_compute. repeat split. Qed.

(** ** Counters and codes in the store *)


Lemma live_insert (s : strings) (key : string) (e : StrEntry) (now : datetime) :
  live (<[key := e]> s) key now
  = match deadline e with
    | Some d => if now <? d then Some e else None
    | None => Some e
    end.
Proof. unfold live. by rewrite lookup_insert_eq. Qed.

Lemma live_insert_ne (s : strings) (key key' : string) (e : StrEntry) (now : datetime) :
  key <> key' -> live (<[key := e]> s) key' now = live s key' now.
Proof. intros Hne. unfold live. by rewrite lookup_insert_ne. Qed.

Lemma live_delete (s : strings) (key : string) (now : datetime) :
  live (delete key s) key now = None.
Proof. unfold live. by rewrite lookup_delete_eq. Qed.

Lemma live_delete_ne (s : strings) (key key' : string) (now : datetime) :
  key <> key' -> live (delete key s) key' now = live s key' now.
Proof. intros Hne. unfold live. by rewrite lookup_delete_ne. Qed.

Lemma code_attempt_keys_differ (type_prefix email : string) :
  code_key type_prefix email <> attempt_key type_prefix email.
Proof.
  unfold code_key, attempt_key.
  induction type_prefix as [|c p IH]; cbn; [discriminate|].
  intros [= H]. by apply IH.
Qed.

(** *** The request counter *)






(** *** Verification codes *)

Lemma keys_differ_sym (type_prefix email : string) :
  attempt_key type_prefix email <> code_key type_prefix email.
Proof. intros H. by apply (code_attempt_keys_differ type_prefix email). Qed.

Ltac live_step :=
  first
    [ rewrite live_insert
    | rewrite live_insert_ne by (apply code_attempt_keys_differ || apply keys_differ_sym)
    | rewrite live_delete
    | rewrite live_delete_ne by (apply code_attempt_keys_differ || apply keys_differ_sym) ].

Ltac live_eval := repeat live_step; cbn [deadline str_value].

Ltac before_deadline :=
  rewrite (proj2 (Z.ltb_lt _ _)) by (unfold minutes, seconds in *; lia).

Ltac past_deadline :=
  rewrite (proj2 (Z.ltb_ge _ _)) by (unfold minutes, seconds in *; lia).

Lemma generate_and_save_code_run (s : strings) (email type_prefix code : string)
    (now : datetime) :
  generate_and_save_code s email type_prefix code now
  = Some (<[attempt_key type_prefix email :=
              {| str_value := print_int 0; deadline := Some (now + minutes 15) |}]>
            (<[code_key type_prefix email :=
                 {| str_value := code; deadline := Some (now + minutes 15) |}]> s),
          code).
Proof. reflexivity. Qed.

Lemma validate_code_gone (s : strings) (email input type_prefix : string)
    (now : datetime) :
  live s (code_key type_prefix email) now = None ->
  validate_code s email input type_prefix now = (s, BusinessRuleError msg_code_invalid).
Proof. intros Hgone. unfold validate_code, kv_get. cbv zeta. by rewrite Hgone. Qed.

Lemma truthy_code (code : string) : code <> EmptyString -> truthy (Some code) = true.
Proof. intros Hne. cbn. by rewrite bool_decide_eq_false_2. Qed.

Lemma validate_code_hit (s : strings) (email type_prefix code : string)
    (now : datetime) (dc : option datetime) :
  live s (code_key type_prefix email) now = Some {| str_value := code; deadline := dc |} ->
  code <> EmptyString ->
  validate_code s email code type_prefix now
  = (delete (code_key type_prefix email) (delete (attempt_key type_prefix email) s),
     CodeValid).
Proof.
  intros Hlive Hne. unfold validate_code, kv_get. cbv zeta. rewrite Hlive.
  cbn [fmap option_fmap option_map str_value].
  rewrite (truthy_code code Hne). cbn [negb].
  by rewrite bool_decide_eq_true_2.
Qed.



(** X21: A code is good for one use: entered correctly within fifteen minutes of
    being issued, with no wrong entry before, it is accepted and both keys
    are removed, so that every later entry, the same code included, is
    refused as invalid or expired; and from fifteen minutes on it is refused
    without any write. *)
Theorem code_is_single_use (s : strings) (email type_prefix code : string)
    (t0 : datetime) :
  code <> EmptyString ->
  exists s1,
    generate_and_save_code s email type_prefix code t0 = Some (s1, code)
    /\ (forall t, t < t0 + minutes 15 ->
          exists s2,
            validate_code s1 email code type_prefix t = (s2, CodeValid)
            /\ (forall t' input,
                  validate_code s2 email input type_prefix t'
                  = (s2, BusinessRuleError msg_code_invalid)))
    /\ (forall t input, t0 + minutes 15 <= t ->
          validate_code s1 email input type_prefix t
          = (s1, BusinessRuleError msg_code_invalid)).
Proof.
  intros Hne. eexists. split; [apply generate_and_save_code_run|]. split.
  - intros t Ht. eexists. split.
    + eapply validate_code_hit; [|exact Hne]. live_eval. before_deadline. reflexivity.
    + intros t' input. apply validate_code_gone. by live_eval.
  - intros t input Ht. apply validate_code_gone. live_eval. by past_deadline.
Qed.

Lemma code_is_single_use_witness :
  exists s1 s2,
    generate_and_save_code ∅ "a@example.org" "verify" "0042" 0 = Some (s1, "0042"%string)
    /\ validate_code s1 "a@example.org" "0042" "verify" (minutes 14) = (s2, CodeValid)
    /\ validate_code s2 "a@example.org" "0042" "verify" (minutes 14)
       = (s2, BusinessRuleError msg_code_invalid).
Proof.
  assert (Hne : "0042"%string <> EmptyString) by discriminate.
  destruct (code_is_single_use ∅ "a@example.org" "verify" "0042" 0 Hne)
    as (s1 & Hgen & Hok & _).
  assert (Ht : minutes 14 < 0 + minutes 15) by (unfold minutes, seconds; lia).
  destruct (Hok (minutes 14) Ht) as (s2 & Hval & Hafter).
  exists s1, s2. split; [exact Hgen|]. split; [exact Hval|].
  exact (Hafter (minutes 14) "0042"%string).
Defined.







(** ** The shape of the table under the service *)

Lemma refresh_validate_wf (w : World) (secret : string) (ck : RefreshClock) :
  ledger_wf (tokens w) ->
  ledger_wf (tokens (fst (refresh_validate secret ck w)))
  /\ snd (refresh_validate secret ck w) <> Diverge.
Proof.
  intros Hwf. destruct w as [l us c]. cbn [tokens] in Hwf.
  cbv [refresh_validate bind gets ret raise diverge put_tokens put_cache
       tokens users cache fst snd].
  assert (Hchain : forall r, get_by_token_hash l (hash_token secret) = Some r ->
            exists l' n, revoke_token_chain l (id r) (at_chain ck) = Some (l', n)
                         /\ ledger_wf l').
  { intros r Hg. destruct Hwf as (Hnd & Hh & Hord & Hpar).
    rewrite get_by_token_hash_find_by in Hg. apply find_by_Some in Hg as [Hin _].
    assert (Hget : get l (id r) = Some r)
      by (rewrite get_find_by; by apply find_by_unique).
    destruct (revoke_token_chain_update l (id r) (at_chain ck) r Hnd Hord Hget)
      as (chain & _ & _ & Hrun).
    destruct (update_where _ _ l) as [l' n] eqn:Hupd.
    exists l', n. split; [done|].
    apply (f_equal fst) in Hupd. cbn [fst] in Hupd. subst l'.
    apply update_keeps_wf; [|done]. intros x. done. }
  destruct (get_cached_token c (hash_token secret) (at_lookup ck));
    destruct (is_token_valid l (hash_token secret) (at_check ck));
    destruct (get_by_token_hash l (hash_token secret)) as [r|] eqn:Hg;
    try done;
    try (destruct (us !! user_id r) as [u|]; [destruct (is_active u)|]; done);
    (destruct (is_revoked r); [|done]);
    destruct (Hchain r eq_refl) as (l' & n & -> & Hwf'); done.
Qed.

Lemma refresh_issue_wf (w : World) (secret : string) (old : RefreshToken)
    (owner : User) (dev dname ua ip : option string) (ck : RefreshClock)
    (new_secret : string) (new_id : uuid) :
  ledger_wf (tokens w) -> old ∈ tokens w ->
  ledger_wf (tokens (fst (refresh_issue secret old owner dev dname ua ip ck
                            new_secret new_id w)))
  /\ snd (refresh_issue secret old owner dev dname ua ip ck new_secret new_id w)
     <> Diverge.
Proof.
  intros Hwf Hin.
  destruct (rotation_insert w old owner dev dname ua ip ck new_secret new_id)
    as [[l' tok]|] eqn:Hc.
  - pose proof Hc as Hc'. unfold rotation_insert in Hc'.
    apply create_token_stored_hash in Hc' as (Hh & Hid & _ & Hfresh & _).
    assert (Hne : id old <> new_id) by (by destruct (Hfresh old Hin)).
    destruct (refresh_issue_inserted secret old owner dev dname ua ip ck new_secret new_id w
                l' tok Hc Hne) as [c' ->].
    cbn [fst snd tokens]. split; [|done].
    rewrite <- Hid. apply rotated_ledger_wf; [done | done | by rewrite Hh, Hid].
  - unfold rotation_insert in Hc.
    unfold refresh_issue, create_token_pair, bind, gets. cbv zeta. rewrite Hc. done.
Qed.

(** X25: The service keeps the table well-formed and always comes back: started
    on a table with distinct keys, distinct hashes and parents that are
    present and older, a login, a refresh, a logout and a logout from all
    devices each end, by returning or raising, on such a table again; the
    reuse walk of a refresh therefore never runs forever. *)
Theorem service_keeps_ledger_wf (w : World) :
  ledger_wf (tokens w) ->
  (forall user dev dname ua ip ck new_secret new_id,
     ledger_wf (tokens (fst (create_token_pair user dev dname ua ip ck
                               new_secret new_id w)))
     /\ snd (create_token_pair user dev dname ua ip ck new_secret new_id w) <> Diverge)
  /\ (forall secret dev dname ua ip ck new_secret new_id,
        ledger_wf (tokens (fst (refresh_access_token secret dev dname ua ip ck
                                  new_secret new_id w)))
        /\ snd (refresh_access_token secret dev dname ua ip ck new_secret new_id w)
           <> Diverge)
  /\ (forall user secret now,
        ledger_wf (tokens (fst (logout_device user secret now w)))
        /\ snd (logout_device user secret now w) <> Diverge)
  /\ (forall user except_token now,
        ledger_wf (tokens (fst (logout_all_devices user except_token now w)))
        /\ snd (logout_all_devices user except_token now w) <> Diverge).
Proof.
  intros Hwf. split; [|split; [|split]].
  - intros user dev dname ua ip ck new_secret new_id.
    destruct (create_token_pair user dev dname ua ip ck new_secret new_id w)
      as [w' [pair|e|]] eqn:E; cbn [fst snd].
    + split; [|done]. by apply (login_keeps_wf _ _ _ _ _ _ _ _ _ _ _ Hwf E).
    + revert E. unfold create_token_pair, bind, gets. cbv zeta.
      destruct (create_token _ _ _ _ _ _ _ _ _ _ _ _) as [[l' tok]|]; [done|].
      intros [= <- _]. done.
    + revert E. unfold create_token_pair, bind, gets. cbv zeta.
      destruct (create_token _ _ _ _ _ _ _ _ _ _ _ _) as [[l' tok]|]; done.
  - intros secret dev dname ua ip ck new_secret new_id.
    destruct (refresh_validate_wf w secret ck Hwf) as [Hwf1 Hnd1].
    unfold refresh_access_token, bind.
    destruct (refresh_validate secret ck w) as [w1 [[old owner]| |]] eqn:Hv;
      cbn [fst snd] in *; [| done | done].
    apply refresh_issue_wf; [done|].
    assert (Hold : get_by_token_hash (tokens w1) (hash_token secret) = Some old).
    { revert Hv. destruct w as [l us c].
      cbv [refresh_validate bind gets ret raise diverge put_tokens put_cache
           tokens users cache fst snd].
      destruct (get_cached_token c (hash_token secret) (at_lookup ck));
        destruct (is_token_valid l (hash_token secret) (at_check ck));
        destruct (get_by_token_hash l (hash_token secret)) as [r|] eqn:Hg;
        try done;
        try (destruct (us !! user_id r) as [u|]; [destruct (is_active u)|];
             intros [= <- <- _]; done);
        (destruct (is_revoked r); [|done]);
        destruct (revoke_token_chain l (id r) (at_chain ck)) as [[l' n]|]; done. }
    rewrite get_by_token_hash_find_by in Hold. by apply find_by_Some in Hold as [Hin _].
  - intros user secret now.
    unfold logout_device, bind, gets. cbv zeta.
    destruct (get_by_token_hash (tokens w) (hash_token secret)) as [r|]; [|done].
    destruct (bool_decide (user_id r = user)); [|done].
    cbn [fst snd tokens]. split; [|done].
    apply (proj1 (revocations_keep_wf (tokens w) now Hwf)).
  - intros user except_token now.
    unfold logout_all_devices, bind, gets.
    destruct (revoke_all_user_tokens (tokens w) user _ now) as [l' n] eqn:E.
    cbn [fst snd tokens]. split; [|done].
    apply (f_equal fst) in E. cbn [fst] in E. subst l'.
    apply (proj1 (proj2 (proj2 (revocations_keep_wf (tokens w) now Hwf)))).
Qed.

Lemma service_keeps_ledger_wf_witness :
  ledger_wf (tokens (fst (refresh_access_token "secret-T0" None None None None
                            (refresh_clock_at 2500000)
                            "secret-T3" 4%N
                            {| tokens := chain3; users := users world0; cache := ∅ |})))
  /\ snd (refresh_access_token "secret-T0" None None None None (refresh_clock_at 2500000)
            "secret-T3" 4%N
            {| tokens := chain3; users := users world0; cache := ∅ |}) <> Diverge.
Proof.
  exact (proj1 (proj2 (service_keeps_ledger_wf
                         {| tokens := chain3; users := users world0; cache := ∅ |}
                         chain3_wf))
           "secret-T0" None None None None (refresh_clock_at 2500000) "secret-T3" 4%N).
Defined.
